(** * TrustByDesign: risk registry, policy checker, uncertainty tags, report builder

    A shallow embedding of [src/lib/risk_registry.py], [src/lib/policy_checker.py],
    [src/lib/uncertainty_tags.py] and [src/lib/report_builder.py], the
    properties the specification states about them (C1 to C10) and further
    properties the code has (X1 and following).

    Conventions.
    - A Python value is a [pyval].  The universe is closed: None, bool, int,
      float other than NaN, str, list, dict with str keys, and the members of
      the four enumerations.  NaN (the float that is not equal to itself),
      tuples, sets and user objects are not represented.
    - A [str] is a Rocq [string]; a character is one of the 256 [ascii] codes.
    - A Python [dict] is an association list in insertion order
      ([dict_set] overwrites in place or appends, as CPython does).
    - A method that mutates [self] takes the state and returns the new state
      together with what the call returns or raises ([result]). *)

From Stdlib Require Import String Ascii List Bool Arith ZArith.
From Stdlib Require Import DecimalString.
From Stdlib Require Import Lia.
From Stdlib Require Sorted Permutation OrderedTypeEx.
Import ListNotations.

Local Open Scope string_scope.
Local Open Scope list_scope.

(** ** Enumerations (risk_registry.py, lines 16-54) *)

Module RiskCategory.
Inductive t : Type :=
| HALLUCINATION | PRIVACY | BIAS | AUTONOMY_OVERREACH | MISUSE
| DATA_QUALITY | SECURITY | PERFORMANCE | COMPLIANCE | OTHER.

Definition value (c : t) : string :=
  match c with
  | HALLUCINATION => "hallucination"
  | PRIVACY => "privacy"
  | BIAS => "bias"
  | AUTONOMY_OVERREACH => "autonomy_overreach"
  | MISUSE => "misuse"
  | DATA_QUALITY => "data_quality"
  | SECURITY => "security"
  | PERFORMANCE => "performance"
  | COMPLIANCE => "compliance"
  | OTHER => "other"
  end.

Definition members : list t :=
  [HALLUCINATION; PRIVACY; BIAS; AUTONOMY_OVERREACH; MISUSE;
   DATA_QUALITY; SECURITY; PERFORMANCE; COMPLIANCE; OTHER].

(** The value-to-member lookup behind the call [RiskCategory(s)]. *)
Definition of_value (s : string) : option t :=
  find (fun c => String.eqb (value c) s) members.

(** [a == b] on members: distinct members have distinct values. *)
Definition eqb (a b : t) : bool := String.eqb (value a) (value b).
End RiskCategory.

Module Severity.
Inductive t : Type := CRITICAL | HIGH | MEDIUM | LOW.

Definition value (s : t) : string :=
  match s with
  | CRITICAL => "critical"
  | HIGH => "high"
  | MEDIUM => "medium"
  | LOW => "low"
  end.

Definition members : list t := [CRITICAL; HIGH; MEDIUM; LOW].

Definition of_value (s : string) : option t :=
  find (fun c => String.eqb (value c) s) members.

(** [a == b] on members: distinct members have distinct values. *)
Definition eqb (a b : t) : bool := String.eqb (value a) (value b).
End Severity.

Module Likelihood.
Inductive t : Type := VERY_HIGH | HIGH | MEDIUM | LOW | VERY_LOW.

Definition value (l : t) : string :=
  match l with
  | VERY_HIGH => "very_high"
  | HIGH => "high"
  | MEDIUM => "medium"
  | LOW => "low"
  | VERY_LOW => "very_low"
  end.

Definition members : list t := [VERY_HIGH; HIGH; MEDIUM; LOW; VERY_LOW].

Definition of_value (s : string) : option t :=
  find (fun c => String.eqb (value c) s) members.

(** [a == b] on members: distinct members have distinct values. *)
Definition eqb (a b : t) : bool := String.eqb (value a) (value b).
End Likelihood.

Module RiskStatus.
Inductive t : Type :=
| IDENTIFIED | ANALYZING | MITIGATING | MONITORING | CLOSED | ACCEPTED.

Definition value (s : t) : string :=
  match s with
  | IDENTIFIED => "identified"
  | ANALYZING => "analyzing"
  | MITIGATING => "mitigating"
  | MONITORING => "monitoring"
  | CLOSED => "closed"
  | ACCEPTED => "accepted"
  end.

Definition members : list t :=
  [IDENTIFIED; ANALYZING; MITIGATING; MONITORING; CLOSED; ACCEPTED].

Definition of_value (s : string) : option t :=
  find (fun c => String.eqb (value c) s) members.

(** [a == b] on members: distinct members have distinct values. *)
Definition eqb (a b : t) : bool := String.eqb (value a) (value b).
End RiskStatus.

(** ** Python values, exceptions and results *)

Local Set Warnings "-register-all".

(** A float other than NaN: a signed zero, a signed infinity, or a finite
    value [(-1)^negative * mantissa * 2^exponent].  No function of the four
    modules computes with floats; they occur as values that are stored,
    tested for truth and written to a document. *)
Inductive pyfloat : Type :=
| FZero (negative : bool)
| FInfinity (negative : bool)
| FFinite (negative : bool) (mantissa : positive) (exponent : Z).

(** The values of the universe.  The keys of a [PDict] are distinct, as the
    keys of a dict are. *)
Inductive pyval : Type :=
| PNone
| PBool (b : bool)
| PInt (z : Z)
| PFloat (f : pyfloat)
| PStr (s : string)
| PList (l : list pyval)
| PDict (d : list (string * pyval))
| PCategory (c : RiskCategory.t)
| PSeverity (s : Severity.t)
| PLikelihood (l : Likelihood.t)
| PStatus (s : RiskStatus.t).

(** The four enumeration classes, as the first component of an
    invalid-enum-value error. *)
Inductive enum_class : Type :=
| cls_RiskCategory | cls_Severity | cls_Likelihood | cls_RiskStatus.

(** The exceptions the modelled code raises.  [DuplicateId] and
    [InvalidEnumValue] are both [ValueError] in Python; they are kept apart by
    their message: "Risk with ID '..' already exists" and
    "'..' is not a valid <class>". *)
Inductive exn : Type :=
| DuplicateId (id : string)
| InvalidEnumValue (cls : enum_class) (v : pyval)
| NotFound (id : string)
| KeyError (key : string)
| AttributeError (attr : string)
| TypeError (msg : string).

Inductive result (A : Type) : Type :=
| Ok (a : A)
| Err (e : exn).
Arguments Ok {A} a.
Arguments Err {A} e.

Definition bind {A B : Type} (r : result A) (k : A -> result B) : result B :=
  match r with
  | Ok a => k a
  | Err e => Err e
  end.

Declare Scope py_scope.
Delimit Scope py_scope with py.
Notation "x <- c1 ;; c2" := (bind c1 (fun x => c2))
  (at level 61, c1 at next level, right associativity) : py_scope.
Local Open Scope py_scope.

(** A comprehension [[f x for x in xs]] whose body may raise. *)
Fixpoint map_result {A B : Type} (f : A -> result B) (xs : list A)
  : result (list B) :=
  match xs with
  | [] => Ok []
  | x :: xs' =>
      y <- f x ;;
      ys <- map_result f xs' ;;
      Ok (y :: ys)
  end.

(** A comprehension [[x for x in xs if f x]] whose condition may raise. *)
Fixpoint filter_result {A : Type} (f : A -> result bool) (xs : list A)
  : result (list A) :=
  match xs with
  | [] => Ok []
  | x :: xs' =>
      b <- f x ;;
      ys <- filter_result f xs' ;;
      Ok (if b then x :: ys else ys)
  end.

(** Truth value of an object: [bool(v)], as used by [if v], [not v], [v or d]. *)
Definition truthy (v : pyval) : bool :=
  match v with
  | PNone => false
  | PBool b => b
  | PInt z => negb (Z.eqb z 0)
  | PFloat f => match f with FZero _ => false | _ => true end
  | PStr s => negb (String.eqb s "")
  | PList l => match l with [] => false | _ => true end
  | PDict d => match d with [] => false | _ => true end
  | PCategory _ | PSeverity _ | PLikelihood _ | PStatus _ => true
  end.

(** [a or b] *)
Definition py_or (a b : pyval) : pyval := if truthy a then a else b.

(** ** Dictionaries in insertion order *)

Section Dict.
Context {V : Type}.

Fixpoint dict_get (d : list (string * V)) (k : string) : option V :=
  match d with
  | [] => None
  | (k', v) :: d' => if String.eqb k k' then Some v else dict_get d' k
  end.

Definition dict_mem (d : list (string * V)) (k : string) : bool :=
  match dict_get d k with Some _ => true | None => false end.

(** [d[k] = v]: an existing key keeps its position, a new key goes last. *)
Fixpoint dict_set (d : list (string * V)) (k : string) (v : V)
  : list (string * V) :=
  match d with
  | [] => [(k, v)]
  | (k', v') :: d' =>
      if String.eqb k k' then (k', v) :: d' else (k', v') :: dict_set d' k v
  end.

Definition dict_keys (d : list (string * V)) : list string := map fst d.
Definition dict_values (d : list (string * V)) : list V := map snd d.
End Dict.

(** ** risk_registry.py *)

Module RiskRegistry.

(** The [Risk] dataclass (lines 57-83).  The registry is a
    [Dict[str, Risk]], so [id] is a [str]; Python does not check the
    annotations of the other fields and [update_risk] stores whatever it is
    given, so they hold arbitrary values. *)
Record Risk : Type := mkRisk {
  id : string;
  category : pyval;
  title : pyval;
  description : pyval;
  severity : pyval;
  likelihood : pyval;
  mitigations : pyval;
  owner : pyval;
  status : pyval;
  metadata : pyval
}.

(** [v.value]: defined on the members of the enumerations, on nothing else
    in the universe of values. *)
Definition enum_value (v : pyval) : result string :=
  match v with
  | PCategory c => Ok (RiskCategory.value c)
  | PSeverity s => Ok (Severity.value s)
  | PLikelihood l => Ok (Likelihood.value l)
  | PStatus s => Ok (RiskStatus.value s)
  | _ => Err (AttributeError "value")
  end.

(** The calls [RiskCategory(v)], [Severity(v)], [Likelihood(v)],
    [RiskStatus(v)]: a member of the class is returned as it is, a value of
    a member is mapped to that member, anything else raises [ValueError]
    "v is not a valid <class>". *)
Definition RiskCategory_call (v : pyval) : result pyval :=
  match v with
  | PCategory c => Ok (PCategory c)
  | PStr s =>
      match RiskCategory.of_value s with
      | Some c => Ok (PCategory c)
      | None => Err (InvalidEnumValue cls_RiskCategory v)
      end
  | _ => Err (InvalidEnumValue cls_RiskCategory v)
  end.

Definition Severity_call (v : pyval) : result pyval :=
  match v with
  | PSeverity c => Ok (PSeverity c)
  | PStr s =>
      match Severity.of_value s with
      | Some c => Ok (PSeverity c)
      | None => Err (InvalidEnumValue cls_Severity v)
      end
  | _ => Err (InvalidEnumValue cls_Severity v)
  end.

Definition Likelihood_call (v : pyval) : result pyval :=
  match v with
  | PLikelihood c => Ok (PLikelihood c)
  | PStr s =>
      match Likelihood.of_value s with
      | Some c => Ok (PLikelihood c)
      | None => Err (InvalidEnumValue cls_Likelihood v)
      end
  | _ => Err (InvalidEnumValue cls_Likelihood v)
  end.

Definition RiskStatus_call (v : pyval) : result pyval :=
  match v with
  | PStatus c => Ok (PStatus c)
  | PStr s =>
      match RiskStatus.of_value s with
      | Some c => Ok (PStatus c)
      | None => Err (InvalidEnumValue cls_RiskStatus v)
      end
  | _ => Err (InvalidEnumValue cls_RiskStatus v)
  end.

(** [Risk.to_dict] (lines 85-98).  The dict display is evaluated in source
    order; the lists and dicts are shared with the risk, which no modelled
    operation mutates in place. *)
Definition to_dict (self : Risk) : result (list (string * pyval)) :=
  cat <- enum_value (category self) ;;
  sev <- enum_value (severity self) ;;
  lik <- enum_value (likelihood self) ;;
  sta <- enum_value (status self) ;;
  Ok [ ("id", PStr (id self));
       ("category", PStr cat);
       ("title", title self);
       ("description", description self);
       ("severity", PStr sev);
       ("likelihood", PStr lik);
       ("mitigations", mitigations self);
       ("owner", owner self);
       ("status", PStr sta);
       ("metadata", metadata self) ].

(** [data[key]] on a dict *)
Definition getitem (data : list (string * pyval)) (key : string)
  : result pyval :=
  match dict_get data key with
  | Some v => Ok v
  | None => Err (KeyError key)
  end.

(** [data.get(key, default)] on a dict *)
Definition get_default (data : list (string * pyval)) (key : string)
           (default : pyval) : pyval :=
  match dict_get data key with
  | Some v => v
  | None => default
  end.

(** The id of a risk is the key of a [Dict[str, Risk]]: the constructed
    record takes a [str].  The source performs no such check; a record whose
    id is not a str is outside this embedding, which reports it here, after
    every argument of the constructor call has been evaluated. *)
Definition as_id (v : pyval) : result string :=
  match v with
  | PStr s => Ok s
  | _ => Err (TypeError "id is not a str")
  end.

(** [Risk.from_dict] (lines 100-114).  Arguments are evaluated left to
    right; subscripting something that is not a dict raises [TypeError]. *)
Definition from_dict (data : pyval) : result Risk :=
  match data with
  | PDict data =>
      id_ <- getitem data "id" ;;
      cat0 <- getitem data "category" ;;
      cat <- RiskCategory_call cat0 ;;
      tit <- getitem data "title" ;;
      des <- getitem data "description" ;;
      sev0 <- getitem data "severity" ;;
      sev <- Severity_call sev0 ;;
      lik0 <- getitem data "likelihood" ;;
      lik <- Likelihood_call lik0 ;;
      let mit := get_default data "mitigations" (PList []) in
      let own := get_default data "owner" (PStr "") in
      sta <- RiskStatus_call (get_default data "status" (PStr "identified")) ;;
      let met := get_default data "metadata" (PDict []) in
      id_s <- as_id id_ ;;
      Ok (mkRisk id_s cat tit des sev lik mit own sta met)
  | _ => Err (TypeError "risk record is not subscriptable by str")
  end.

(** [RiskRegistry.risks]: id to risk, in insertion order (line 126). *)
Definition registry : Type := list (string * Risk).

(** [RiskRegistry()] *)
Definition init : registry := [].

(** [add_risk] (lines 128-179).  Returns the registry after the call and
    what the call returns or raises. *)
Definition add_risk (self : registry) (id : string)
           (category title description severity likelihood mitigations
            owner status metadata : pyval)
  : registry * result Risk :=
  if dict_mem self id then (self, Err (DuplicateId id))
  else
    let risk := mkRisk id category title description severity likelihood
                       (py_or mitigations (PList [])) owner status
                       (py_or metadata (PDict [])) in
    (dict_set self id risk, Ok risk).

(** The names of the dataclass fields. *)
Definition field_names : list string :=
  ["id"; "category"; "title"; "description"; "severity"; "likelihood";
   "mitigations"; "owner"; "status"; "metadata"].

(** [hasattr(risk, key)] for a keyword of [update_risk].  A [Risk] also has
    the attributes its class supplies ([to_dict], [from_dict] and the
    interpreter's double-underscore names); a keyword of that kind would
    rebind a method or an interpreter slot, not a field, and is outside this
    embedding: a keyword is a field name or a name the object does not
    have.  The statements about [update_risk] say so in their hypothesis
    [kwargs_ok]. *)
Definition hasattr (key : string) : bool :=
  existsb (String.eqb key) field_names.

(** [getattr(risk, key)] on the fields *)
Definition getattr (risk : Risk) (key : string) : option pyval :=
  if String.eqb key "id" then Some (PStr (id risk))
  else if String.eqb key "category" then Some (category risk)
  else if String.eqb key "title" then Some (title risk)
  else if String.eqb key "description" then Some (description risk)
  else if String.eqb key "severity" then Some (severity risk)
  else if String.eqb key "likelihood" then Some (likelihood risk)
  else if String.eqb key "mitigations" then Some (mitigations risk)
  else if String.eqb key "owner" then Some (owner risk)
  else if String.eqb key "status" then Some (status risk)
  else if String.eqb key "metadata" then Some (metadata risk)
  else None.

(** [setattr(risk, key, value)] on the fields.  The keyword [id] never
    reaches it: see [update_risk]. *)
Definition setattr (risk : Risk) (key : string) (value : pyval) : Risk :=
  let '(mkRisk i c t d s l m o st md) := risk in
  if String.eqb key "category" then mkRisk i value t d s l m o st md
  else if String.eqb key "title" then mkRisk i c value d s l m o st md
  else if String.eqb key "description" then mkRisk i c t value s l m o st md
  else if String.eqb key "severity" then mkRisk i c t d value l m o st md
  else if String.eqb key "likelihood" then mkRisk i c t d s value m o st md
  else if String.eqb key "mitigations" then mkRisk i c t d s l value o st md
  else if String.eqb key "owner" then mkRisk i c t d s l m value st md
  else if String.eqb key "status" then mkRisk i c t d s l m o value md
  else if String.eqb key "metadata" then mkRisk i c t d s l m o st value
  else risk.

(** Lines 207-215: a str given for an enumeration field is converted to the
    member; every other value is passed on as it is. *)
Definition coerce (key : string) (value : pyval) : result pyval :=
  match value with
  | PStr _ =>
      if String.eqb key "category" then RiskCategory_call value
      else if String.eqb key "severity" then Severity_call value
      else if String.eqb key "likelihood" then Likelihood_call value
      else if String.eqb key "status" then RiskStatus_call value
      else Ok value
  | _ => Ok value
  end.

(** The loop of lines 205-217 over [kwargs.items()], on the risk object.
    An exception leaves the object as the earlier iterations made it. *)
Fixpoint update_fields (risk : Risk) (kwargs : list (string * pyval))
  : Risk * result unit :=
  match kwargs with
  | [] => (risk, Ok tt)
  | (key, value) :: rest =>
      if hasattr key then
        match coerce key value with
        | Ok value' => update_fields (setattr risk key value') rest
        | Err e => (risk, Err e)
        end
      else update_fields risk rest
  end.

(** The parameters of [update_risk] (line 181-185) that a call binds
    before [**kwargs] collects the other keywords. *)
Definition bound_parameters : list string := ["self"; "id"].

(** [update_risk] (lines 181-219).  [kwargs] are the keyword arguments in
    call order.  The parameter list is [(self, id, **kwargs)], so a call
    always binds [self] and [id] to the parameters and [kwargs] never has
    the key [self] or [id] (a second value for either is refused by the
    interpreter with [TypeError] before the body runs).  The risk is mutated
    in place: the registry holds the updated object also when the loop
    raises. *)
Definition update_risk (self : registry) (id : string)
           (kwargs : list (string * pyval)) : registry * result Risk :=
  if existsb (fun key => existsb (String.eqb key) bound_parameters)
             (map fst kwargs)
  then (self, Err (TypeError "got multiple values for argument"))
  else
    match dict_get self id with
    | None => (self, Err (NotFound id))
    | Some risk =>
        let '(risk', r) := update_fields risk kwargs in
        (dict_set self id risk',
         match r with Ok _ => Ok risk' | Err e => Err e end)
    end.

(** [get_risk] (lines 221-223) *)
Definition get_risk (self : registry) (id : string) : option Risk :=
  dict_get self id.

(** [list_risks] (lines 225-255).  A filter that is [None] or falsy (an empty
    owner) is not applied; a member of an enumeration is always truthy.
    [r.category == category] holds when the field is that member. *)
Definition list_risks (self : registry)
           (category : option RiskCategory.t) (severity : option Severity.t)
           (status : option RiskStatus.t) (owner : option string)
  : list Risk :=
  let results := dict_values self in
  let results :=
    match category with
    | Some c =>
        filter (fun r => match RiskRegistry.category r with
                         | PCategory c' => RiskCategory.eqb c' c
                         | _ => false
                         end) results
    | None => results
    end in
  let results :=
    match severity with
    | Some s =>
        filter (fun r => match RiskRegistry.severity r with
                         | PSeverity s' => Severity.eqb s' s
                         | _ => false
                         end) results
    | None => results
    end in
  let results :=
    match status with
    | Some s =>
        filter (fun r => match RiskRegistry.status r with
                         | PStatus s' => RiskStatus.eqb s' s
                         | _ => false
                         end) results
    | None => results
    end in
  match owner with
  | Some o =>
      if String.eqb o "" then results
      else filter (fun r => match RiskRegistry.owner r with
                            | PStr o' => String.eqb o' o
                            | _ => false
                            end) results
  | None => results
  end.

(** [export_risks_to_dict] (lines 257-259) *)
Definition export_risks_to_dict (self : registry) : result (list pyval) :=
  map_result (fun risk => d <- to_dict risk ;; Ok (PDict d)) (dict_values self).

(** What [json.dump] accepts among the values of the universe: the members of
    the enumerations are refused with [TypeError]; a float is written in the
    shortest form that reads back as the same float, the infinities as
    [Infinity] and [-Infinity]. *)
Fixpoint json_serializable (v : pyval) : bool :=
  match v with
  | PNone | PBool _ | PInt _ | PFloat _ | PStr _ => true
  | PList l => forallb json_serializable l
  | PDict d => forallb (fun kv => json_serializable (snd kv)) d
  | PCategory _ | PSeverity _ | PLikelihood _ | PStatus _ => false
  end.

(** [to_json] (lines 267-271): the document written to the file, as
    [json.load] reads it back.  On the values [json.dump] accepts here
    (None, bool, int, float other than NaN, str, list, dict with str keys)
    writing and reading back is the identity. *)
Definition to_json (self : registry) : result pyval :=
  risks <- export_risks_to_dict self ;;
  let data := PDict [("risks", PList risks)] in
  if json_serializable data then Ok data
  else Err (TypeError "Object is not JSON serializable").

(** [data.get(key, default)] on the parsed document: only a dict has [get]. *)
Definition py_get (data : pyval) (key : string) (default : pyval)
  : result pyval :=
  match data with
  | PDict d => Ok (get_default d key default)
  | _ => Err (AttributeError "get")
  end.

(** The one-character strings of a str, in order. *)
Fixpoint chars (s : string) : list pyval :=
  match s with
  | EmptyString => []
  | String c s' => PStr (String c EmptyString) :: chars s'
  end.

(** [for x in v]: the items a [for] loop visits. *)
Definition py_iter (v : pyval) : result (list pyval) :=
  match v with
  | PList l => Ok l
  | PDict d => Ok (map (fun kv => PStr (fst kv)) d)
  | PStr s => Ok (chars s)
  | _ => Err (TypeError "object is not iterable")
  end.

(** The loop of lines 287-289 (and 278-280): each record replaces or extends
    the map under its own id; an exception leaves the records loaded so
    far. *)
Fixpoint load_records (self : registry) (records : list pyval)
  : registry * result unit :=
  match records with
  | [] => (self, Ok tt)
  | risk_data :: rest =>
      match from_dict risk_data with
      | Ok risk => load_records (dict_set self (id risk) risk) rest
      | Err e => (self, Err e)
      end
  end.

(** [load_from_json] (lines 282-289) on the document [json.load] returns. *)
Definition load_from_json (self : registry) (data : pyval)
  : registry * result unit :=
  match (risks <- py_get data "risks" (PList []) ;; py_iter risks) with
  | Ok records => load_records self records
  | Err e => (self, Err e)
  end.

(** [load_from_yaml] (lines 273-280) on the document [yaml.safe_load]
    returns: the same loop. *)
Definition load_from_yaml (self : registry) (data : pyval)
  : registry * result unit :=
  match (risks <- py_get data "risks" (PList []) ;; py_iter risks) with
  | Ok records => load_records self records
  | Err e => (self, Err e)
  end.

(** [d[k] = d.get(k, 0) + 1] *)
Definition count_up (d : list (string * nat)) (k : string)
  : list (string * nat) :=
  dict_set d k (match dict_get d k with Some n => n | None => 0 end + 1).

Record summary : Type := mkSummary {
  total : nat;
  by_severity : list (string * nat);
  by_status : list (string * nat);
  by_category : list (string * nat)
}.

(** The loop of [get_summary] (lines 299-310). *)
Fixpoint count_risks (risks : list Risk)
         (by_sev by_stat by_cat : list (string * nat))
  : result (list (string * nat) * list (string * nat) * list (string * nat)) :=
  match risks with
  | [] => Ok (by_sev, by_stat, by_cat)
  | risk :: rest =>
      sev <- enum_value (severity risk) ;;
      stat <- enum_value (status risk) ;;
      cat <- enum_value (category risk) ;;
      count_risks rest (count_up by_sev sev) (count_up by_stat stat)
                  (count_up by_cat cat)
  end.

(** [get_summary] (lines 291-317) *)
Definition get_summary (self : registry) : result summary :=
  counts <- count_risks (dict_values self) [] [] [] ;;
  let '(by_sev, by_stat, by_cat) := counts in
  Ok (mkSummary (length self) by_sev by_stat by_cat).

(** *** Predicates of the statements about the registry *)

(** The names a [Risk] has besides its fields: its two methods and the
    interpreter's double-underscore attributes (every name of that shape is
    counted, which is more than the interpreter defines). *)
Definition class_attribute (key : string) : bool :=
  String.eqb key "to_dict" || String.eqb key "from_dict"
  || String.prefix "__" key.

(** What [**kwargs] holds in the calls this embedding covers: the keys of a
    dict are distinct, [id] and [self] are bound to the parameters of those
    names and so are never keys, and no keyword names a method or an
    interpreter attribute (see [hasattr]). *)
Definition kwargs_ok (kwargs : list (string * pyval)) : Prop :=
  NoDup (map fst kwargs)
  /\ ~ In "id" (map fst kwargs)
  /\ ~ In "self" (map fst kwargs)
  /\ forall key, In key (map fst kwargs) -> class_attribute key = false.

(** No keyword carries a str that the enumeration of its field rejects. *)
Definition coercible (kwargs : list (string * pyval)) : Prop :=
  forall key value, In (key, value) kwargs -> hasattr key = true ->
                    exists value', coerce key value = Ok value'.

(** The closed vocabulary of an enumeration: the values of its members. *)
Definition in_vocabulary (cls : enum_class) (s : string) : bool :=
  match cls with
  | cls_RiskCategory =>
      match RiskCategory.of_value s with Some _ => true | None => false end
  | cls_Severity =>
      match Severity.of_value s with Some _ => true | None => false end
  | cls_Likelihood =>
      match Likelihood.of_value s with Some _ => true | None => false end
  | cls_RiskStatus =>
      match RiskStatus.of_value s with Some _ => true | None => false end
  end.

(** A field holds a str outside the vocabulary of its enumeration. *)
Definition outside_vocabulary (cls : enum_class) (v : pyval) : Prop :=
  exists s, v = PStr s /\ in_vocabulary cls s = false.

(** The enumeration a keyword of [update_risk] is converted to, for the four
    fields lines 208-215 name. *)
Definition enum_of_field (key : string) : option enum_class :=
  if String.eqb key "category" then Some cls_RiskCategory
  else if String.eqb key "severity" then Some cls_Severity
  else if String.eqb key "likelihood" then Some cls_Likelihood
  else if String.eqb key "status" then Some cls_RiskStatus
  else None.

(** Every str a keyword gives for an enumeration field is a value of that
    enumeration. *)
Definition valid_enums (kwargs : list (string * pyval)) : Prop :=
  forall key s cls,
    In (key, PStr s) kwargs -> enum_of_field key = Some cls ->
    in_vocabulary cls s = true.

(** The member of an enumeration that has the given value. *)
Definition member (cls : enum_class) (s : string) : option pyval :=
  match cls with
  | cls_RiskCategory => option_map PCategory (RiskCategory.of_value s)
  | cls_Severity => option_map PSeverity (Severity.of_value s)
  | cls_Likelihood => option_map PLikelihood (Likelihood.of_value s)
  | cls_RiskStatus => option_map PStatus (RiskStatus.of_value s)
  end.

(** What a keyword supplies to its field: the value as it is given, or, for
    a str given to an enumeration field, the member that has this value. *)
Definition supplied_value (key : string) (value : pyval) : pyval :=
  match value, enum_of_field key with
  | PStr s, Some cls =>
      match member cls s with
      | Some m => m
      | None => value
      end
  | _, _ => value
  end.

(** The fields of a risk by name, read off the record. *)
Inductive field_holds (r : Risk) : string -> pyval -> Prop :=
| holds_id : field_holds r "id" (PStr (id r))
| holds_category : field_holds r "category" (category r)
| holds_title : field_holds r "title" (title r)
| holds_description : field_holds r "description" (description r)
| holds_severity : field_holds r "severity" (severity r)
| holds_likelihood : field_holds r "likelihood" (likelihood r)
| holds_mitigations : field_holds r "mitigations" (mitigations r)
| holds_owner : field_holds r "owner" (owner r)
| holds_status : field_holds r "status" (status r)
| holds_metadata : field_holds r "metadata" (metadata r).

(** A name that is not the name of a field. *)
Definition no_field (key : string) : Prop :=
  forall r v, ~ field_holds r key v.

(** A risk whose four enumeration fields hold members of their own classes
    and whose other fields hold what [json.dump] accepts: what [add_risk]
    builds from arguments of the annotated types. *)
Definition persistable (r : Risk) : bool :=
  match category r, severity r, likelihood r, status r with
  | PCategory _, PSeverity _, PLikelihood _, PStatus _ =>
      json_serializable (title r) && json_serializable (description r)
      && json_serializable (mitigations r) && json_serializable (owner r)
      && json_serializable (metadata r)
  | _, _, _, _ => false
  end.

(** The four enumeration fields of the risk hold members of their own
    enumerations. *)
Definition own_enums (r : Risk) : bool :=
  match category r, severity r, likelihood r, status r with
  | PCategory _, PSeverity _, PLikelihood _, PStatus _ => true
  | _, _, _, _ => false
  end.

(** The invariant of [self.risks]: keys are distinct (it is a dict) and every
    risk is stored under its own id ([add_risk] and the load loop store
    nothing else, [update_risk] cannot change an id). *)
Definition keyed (self : registry) : Prop :=
  NoDup (dict_keys self) /\ forall k r, In (k, r) self -> id r = k.

(** The last of the loaded records that has the given id. *)
Definition last_with_id (risks : list Risk) (i : string) : option Risk :=
  find (fun r => String.eqb (id r) i) (rev risks).

(** *** Predicates of further statements about the registry *)

(** The keys [from_dict] subscripts: a record without one of them raises
    [KeyError]. *)
Definition required_keys : list string :=
  ["id"; "category"; "title"; "description"; "severity"; "likelihood"].

(** [d.get(k, 0)] on a table of counts. *)
Definition lookup_count (d : list (string * nat)) (k : string) : nat :=
  match dict_get d k with Some n => n | None => 0 end.

(** The number of risks whose field [f] is a member of value [v]. *)
Definition tally (f : Risk -> pyval) (risks : list Risk) (v : string) : nat :=
  length (filter (fun r => match enum_value (f r) with
                           | Ok s => String.eqb s v
                           | Err _ => false
                           end) risks).

(** A risk passes the filters of [list_risks]: each filter that is given
    (and, for the owner, not empty) names the value the field holds. *)
Definition passes (category : option RiskCategory.t)
           (severity : option Severity.t) (status : option RiskStatus.t)
           (owner : option string) (r : Risk) : Prop :=
  (forall c, category = Some c -> RiskRegistry.category r = PCategory c)
  /\ (forall s, severity = Some s -> RiskRegistry.severity r = PSeverity s)
  /\ (forall s, status = Some s -> RiskRegistry.status r = PStatus s)
  /\ (forall o, owner = Some o -> o <> "" -> RiskRegistry.owner r = PStr o).

(** The id of a record, when it has one, is a str: the records this embedding
    follows the load loop on (see [as_id]). *)
Definition str_id (record : pyval) : bool :=
  match record with
  | PDict d =>
      match dict_get d "id" with
      | Some (PStr _) | None => true
      | Some _ => false
      end
  | _ => true
  end.

(** The same for every record of a document. *)
Definition str_ids (data : pyval) : bool :=
  match data with
  | PDict d =>
      match get_default d "risks" (PList []) with
      | PList records => forallb str_id records
      | _ => true
      end
  | _ => true
  end.

(** Writing the registry as JSON and loading the document into a fresh
    registry gives the registry back. *)
Definition round_trips (self : registry) : Prop :=
  exists data,
    to_json self = Ok data /\ load_from_json init data = (self, Ok tt).

(** Every risk of the registry is [persistable]. *)
Definition all_persistable (self : registry) : Prop :=
  forall k r, In (k, r) self -> persistable r = true.

End RiskRegistry.

(** ** policy_checker.py *)

(** [key in s] for two strs: [key] occurs in [s] as a substring. *)
Fixpoint substring_of (key s : string) : bool :=
  match s with
  | EmptyString => String.eqb key ""
  | String _ s' => String.prefix key s || substring_of key s'
  end.

(** [key in v] for a str [key]: membership among the keys of a dict, among the
    items of a list, substring of a str; [TypeError] on a value that is not a
    container. *)
Definition py_contains (v : pyval) (key : string) : result bool :=
  match v with
  | PDict d => Ok (dict_mem d key)
  | PList l =>
      Ok (existsb (fun x => match x with
                            | PStr s => String.eqb s key
                            | _ => false
                            end) l)
  | PStr s => Ok (substring_of key s)
  | _ => Err (TypeError "argument is not iterable")
  end.

(** [v[key]] for a str [key]: only a dict is subscriptable by a str. *)
Definition py_getitem (v : pyval) (key : string) : result pyval :=
  match v with
  | PDict d =>
      match dict_get d key with
      | Some x => Ok x
      | None => Err (KeyError key)
      end
  | _ => Err (TypeError "object is not subscriptable by str")
  end.

Module PolicyChecker.

(** [PolicyIssue] (lines 12-37) *)
Record PolicyIssue : Type := mkIssue {
  severity : string;
  section : string;
  message : string
}.

(** Lines 48-55 *)
Definition REQUIRED_SECTIONS : list string :=
  ["scope"; "responsibilities"; "data_handling"; "incident_response";
   "monitoring"; "escalation"].

(** Lines 58-65 *)
Definition RECOMMENDED_SECTIONS : list string :=
  ["risk_assessment"; "uncertainty_handling"; "audit_trail"; "user_consent";
   "model_governance"; "deployment_process"].

(** The state of a [PolicyChecker]: [self.issues]. *)
Definition checker : Type := list PolicyIssue.

(** [PolicyChecker()] (lines 67-69) *)
Definition init : checker := [].

(** A method body: it reads and writes [self.issues] and returns or raises.
    What was appended before an exception stays appended. *)
Definition M (A : Type) : Type := checker -> checker * result A.

Definition ret {A : Type} (a : A) : M A := fun self => (self, Ok a).

Definition mbind {A B : Type} (m : M A) (k : A -> M B) : M B :=
  fun self =>
    match m self with
    | (self', Ok a) => k a self'
    | (self', Err e) => (self', Err e)
    end.

(** An expression that may raise, inside a method body. *)
Definition lift {A : Type} (r : result A) : M A := fun self => (self, r).

(** [self.issues.append(issue)] *)
Definition append (issue : PolicyIssue) : M unit :=
  fun self => (self ++ [issue], Ok tt).

(** [self.issues = issues] *)
Definition set_issues (issues : list PolicyIssue) : M unit :=
  fun _ => (issues, Ok tt).

(** [self.issues] *)
Definition get_issues : M (list PolicyIssue) := fun self => (self, Ok self).

Declare Scope checker_scope.
Delimit Scope checker_scope with checker.
Notation "x <- c1 ;; c2" := (mbind c1 (fun x => c2))
  (at level 61, c1 at next level, right associativity) : checker_scope.
Notation "c1 ;; c2" := (mbind c1 (fun _ => c2))
  (at level 61, right associativity) : checker_scope.
Local Open Scope checker_scope.

(** [if cond: self.issues.append(issue)] *)
Definition append_if (cond : bool) (issue : PolicyIssue) : M unit :=
  if cond then append issue else ret tt.

(** The test of lines 101 and 111: [section not in policy or not
    policy[section]], with the right operand evaluated only when the left
    one is false. *)
Definition missing_or_empty (policy : pyval) (section : string) : result bool :=
  (present <- py_contains policy section ;;
   if negb present then Ok true
   else
     v <- py_getitem policy section ;;
     Ok (negb (truthy v)))%py.

(** [_check_required_sections] (lines 98-106) *)
Fixpoint check_required (policy : pyval) (sections : list string) : M unit :=
  match sections with
  | [] => ret tt
  | section :: rest =>
      miss <- lift (missing_or_empty policy section) ;;
      append_if miss
        (mkIssue "error" section
           ("Required section '" ++ section ++ "' is missing or empty")) ;;
      check_required policy rest
  end.

Definition _check_required_sections (policy : pyval) : M unit :=
  check_required policy REQUIRED_SECTIONS.

(** [_check_recommended_sections] (lines 108-116) *)
Fixpoint check_recommended (policy : pyval) (sections : list string) : M unit :=
  match sections with
  | [] => ret tt
  | section :: rest =>
      miss <- lift (missing_or_empty policy section) ;;
      append_if miss
        (mkIssue "warning" section
           ("Recommended section '" ++ section ++ "' is missing")) ;;
      check_recommended policy rest
  end.

Definition _check_recommended_sections (policy : pyval) : M unit :=
  check_recommended policy RECOMMENDED_SECTIONS.

(** [if key not in container: self.issues.append(issue)] *)
Definition require_key (container : pyval) (key : string)
           (issue : PolicyIssue) : M unit :=
  present <- lift (py_contains container key) ;;
  append_if (negb present) issue.

(** [_check_scope] (lines 118-136) *)
Definition _check_scope (scope : pyval) : M unit :=
  if negb (truthy scope) then ret tt
  else
    require_key scope "system_description"
      (mkIssue "warning" "scope" "Missing 'system_description' in scope") ;;
    require_key scope "boundaries"
      (mkIssue "warning" "scope" "Missing 'boundaries' definition in scope").

(** The loop of lines 145-151 *)
Fixpoint check_roles (responsibilities : pyval) (roles : list string) : M unit :=
  match roles with
  | [] => ret tt
  | role :: rest =>
      require_key responsibilities role
        (mkIssue "info" "responsibilities"
           ("Consider defining '" ++ role ++ "' role")) ;;
      check_roles responsibilities rest
  end.

(** [_check_responsibilities] (lines 138-151) *)
Definition _check_responsibilities (responsibilities : pyval) : M unit :=
  if negb (truthy responsibilities) then ret tt
  else
    let key_roles := ["system_owner"; "incident_responder"; "data_steward"] in
    check_roles responsibilities key_roles.

(** [_check_data_handling] (lines 153-178) *)
Definition _check_data_handling (data_handling : pyval) : M unit :=
  if negb (truthy data_handling) then ret tt
  else
    require_key data_handling "retention_policy"
      (mkIssue "warning" "data_handling" "Missing 'retention_policy'") ;;
    require_key data_handling "privacy_measures"
      (mkIssue "warning" "data_handling" "Missing 'privacy_measures'") ;;
    require_key data_handling "data_classification"
      (mkIssue "info" "data_handling" "Consider adding 'data_classification'").

(** [_check_incident_response] (lines 180-205) *)
Definition _check_incident_response (incident_response : pyval) : M unit :=
  if negb (truthy incident_response) then ret tt
  else
    require_key incident_response "severity_levels"
      (mkIssue "warning" "incident_response"
         "Missing 'severity_levels' definition") ;;
    require_key incident_response "response_procedures"
      (mkIssue "error" "incident_response" "Missing 'response_procedures'") ;;
    require_key incident_response "escalation_path"
      (mkIssue "warning" "incident_response" "Missing 'escalation_path'").

(** [_check_monitoring] (lines 207-225) *)
Definition _check_monitoring (monitoring : pyval) : M unit :=
  if negb (truthy monitoring) then ret tt
  else
    require_key monitoring "metrics"
      (mkIssue "warning" "monitoring" "Missing 'metrics' definition") ;;
    require_key monitoring "alerting"
      (mkIssue "info" "monitoring" "Consider defining 'alerting' mechanisms").

(** [policy.get(key)]: [None] for an absent key; only a dict has [get]. *)
Definition policy_get (policy : pyval) (key : string) : result pyval :=
  RiskRegistry.py_get policy key PNone.

(** The body of [check_policy] (lines 81-96). *)
Definition check_policy_body (policy : pyval) : M (list PolicyIssue) :=
  set_issues [] ;;
  _check_required_sections policy ;;
  _check_recommended_sections policy ;;
  scope <- lift (policy_get policy "scope") ;;
  _check_scope scope ;;
  responsibilities <- lift (policy_get policy "responsibilities") ;;
  _check_responsibilities responsibilities ;;
  data_handling <- lift (policy_get policy "data_handling") ;;
  _check_data_handling data_handling ;;
  incident_response <- lift (policy_get policy "incident_response") ;;
  _check_incident_response incident_response ;;
  monitoring <- lift (policy_get policy "monitoring") ;;
  _check_monitoring monitoring ;;
  get_issues.

(** [check_policy] (lines 71-96): the checker after the call, and what the
    call returns or raises. *)
Definition check_policy (self : checker) (policy : pyval)
  : checker * result (list PolicyIssue) :=
  check_policy_body policy self.

(** The issues of one severity, as the comprehensions of lines 251-253. *)
Definition issues_of (sev : string) (issues : list PolicyIssue)
  : list PolicyIssue :=
  filter (fun i => String.eqb (severity i) sev) issues.

Record check_summary : Type := mkCheckSummary {
  total_issues : nat;
  errors : nat;
  warnings : nat;
  info : nat;
  passed : bool
}.

(** [get_summary] (lines 249-261) *)
Definition get_summary (self : checker) : check_summary :=
  let errors := issues_of "error" self in
  let warnings := issues_of "warning" self in
  let infos := issues_of "info" self in
  mkCheckSummary (length self) (length errors) (length warnings)
                 (length infos) (Nat.eqb (length errors) 0).

(** A checker used for several documents in turn: the state after the runs
    (a run that raises still leaves its state behind). *)
Fixpoint run_checks (self : checker) (policies : list pyval) : checker :=
  match policies with
  | [] => self
  | policy :: rest => run_checks (fst (check_policy self policy)) rest
  end.

(** The issue [_check_required_sections] reports for a section. *)
Definition required_section_error (section : string) : PolicyIssue :=
  mkIssue "error" section
    ("Required section '" ++ section ++ "' is missing or empty").

(** *** Predicates of further statements about the checker *)

(** The sections [check_policy] looks into (lines 90-94). *)
Definition CHECKED_SECTIONS : list string :=
  ["scope"; "responsibilities"; "data_handling"; "incident_response";
   "monitoring"].

(** The values [in] accepts on its right: a dict, a list or a str. *)
Definition container (v : pyval) : bool :=
  match v with
  | PDict _ | PList _ | PStr _ => true
  | _ => false
  end.

(** The severities the docstring of [PolicyIssue] names (line 20). *)
Definition known_severity (issue : PolicyIssue) : Prop :=
  In (severity issue) ["error"; "warning"; "info"].

(** A section of a policy dict is absent or holds a falsy value. *)
Definition section_missing (d : list (string * pyval)) (section : string)
  : bool :=
  match dict_get d section with
  | Some v => negb (truthy v)
  | None => true
  end.

(** A method body appends the issues [out] to whatever the checker holds and
    returns or raises [r]. *)
Definition runs {A : Type} (m : M A) (out : list PolicyIssue) (r : result A)
  : Prop :=
  forall self, m self = (self ++ out, r).

(** A section value the per-section checks cannot look into: it is truthy,
    so the early return of lines 120, 140, 155, 182 and 209 is not taken,
    and [in] raises on it. *)
Definition scalar_section (v : pyval) : bool :=
  truthy v && negb (container v).

(** What a per-section check returns or raises on a section value. *)
Definition section_outcome (v : pyval) : result unit :=
  if scalar_section v then Err (TypeError "argument is not iterable")
  else Ok tt.

(** [key not in v] holds: the test succeeds and finds no [key]. *)
Definition lacks (v : pyval) (key : string) : bool :=
  match py_contains v key with
  | Ok false => true
  | _ => false
  end.

(** The issue [_check_recommended_sections] reports for a section. *)
Definition recommended_section_warning (section : string) : PolicyIssue :=
  mkIssue "warning" section
    ("Recommended section '" ++ section ++ "' is missing").

(** The one error a per-section check reports (lines 193-198). *)
Definition response_procedures_error : PolicyIssue :=
  mkIssue "error" "incident_response" "Missing 'response_procedures'".

(** A method body that appends only issues of the three severities. *)
Definition sound {A : Type} (m : M A) : Prop :=
  forall self, exists l, fst (m self) = self ++ l /\ Forall known_severity l.

(** A method body that never returns normally. *)
Definition never_returns {A : Type} (m : M A) : Prop :=
  forall self, exists e, snd (m self) = Err e.

(** A method body that, when it returns, returns the issues it leaves. *)
Definition returns_issues (m : M (list PolicyIssue)) : Prop :=
  forall self issues r, m self = (issues, Ok r) -> r = issues.

End PolicyChecker.

(** ** uncertainty_tags.py *)

Module UncertaintyTags.

(** Lines 13-20 *)
Definition TAG_FACT : string := "[FACT]".
Definition TAG_ESTIMATE : string := "[ESTIMATE]".
Definition TAG_UNKNOWN : string := "[UNKNOWN]".
Definition TAG_ASSUMPTION : string := "[ASSUMPTION]".
Definition TAG_SPECULATION : string := "[SPECULATION]".

Definition ALL_TAGS : list string :=
  [TAG_FACT; TAG_ESTIMATE; TAG_UNKNOWN; TAG_ASSUMPTION; TAG_SPECULATION].

(** [tag_fact] ... [tag_speculation] (lines 23-105) *)
Definition tag_fact (text : string) : string := TAG_FACT ++ " " ++ text.
Definition tag_estimate (text : string) : string := TAG_ESTIMATE ++ " " ++ text.
Definition tag_unknown (text : string) : string := TAG_UNKNOWN ++ " " ++ text.
Definition tag_assumption (text : string) : string :=
  TAG_ASSUMPTION ++ " " ++ text.
Definition tag_speculation (text : string) : string :=
  TAG_SPECULATION ++ " " ++ text.

(** [s.replace(old, new)] for a non-empty [old]: the occurrences of [old] are
    found from left to right without overlap.  [skip] counts the characters
    of a match still to be passed over. *)
Fixpoint replace_from (old new : string) (skip : nat) (s : string) : string :=
  match s with
  | EmptyString => EmptyString
  | String c s' =>
      match skip with
      | S k => replace_from old new k s'
      | O =>
          if String.prefix old s
          then new ++ replace_from old new (String.length old - 1) s'
          else String c (replace_from old new 0 s')
      end
  end.

Definition replace (s old new : string) : string := replace_from old new 0 s.

(** [tag in text] *)
Definition contains (text tag : string) : bool := substring_of tag text.

(** [is_tagged] (lines 253-263) *)
Definition is_tagged (text : string) : bool :=
  existsb (contains text) ALL_TAGS.

(** The whitespace of [\s] in a str pattern and of [str.strip()], among the
    characters below 256: tab to carriage return, the four separators
    28-31, the space, NEL (133) and the no-break space (160). *)
Definition isspace (c : ascii) : bool :=
  let n := nat_of_ascii c in
  (Nat.leb 9 n && Nat.leb n 13) || (Nat.leb 28 n && Nat.leb n 32)
  || Nat.eqb n 133 || Nat.eqb n 160.

(** [re.sub(r'\s+', ' ', s)]: every maximal run of whitespace becomes one
    space.  [in_run] tells that the previous character was whitespace. *)
Fixpoint collapse_from (in_run : bool) (s : string) : string :=
  match s with
  | EmptyString => EmptyString
  | String c s' =>
      if isspace c
      then if in_run then collapse_from true s'
           else String " " (collapse_from true s')
      else String c (collapse_from false s')
  end.

Definition collapse (s : string) : string := collapse_from false s.

(** [s.lstrip()], [s.rstrip()], [s.strip()] *)
Fixpoint lstrip (s : string) : string :=
  match s with
  | EmptyString => EmptyString
  | String c s' => if isspace c then lstrip s' else s
  end.

Fixpoint rstrip (s : string) : string :=
  match s with
  | EmptyString => EmptyString
  | String c s' =>
      match rstrip s' with
      | EmptyString => if isspace c then EmptyString else String c EmptyString
      | r => String c r
      end
  end.

Definition strip (s : string) : string := rstrip (lstrip s).

(** [strip_tags] (lines 164-183) *)
Definition strip_tags (text : string) : string :=
  let result := fold_left (fun result tag => replace result tag "") ALL_TAGS text in
  let result := collapse result in
  strip result.

(** Whitespace normalization: runs collapsed to one space, then the ends
    stripped (the last two steps of [strip_tags]). *)
Definition normalize_whitespace (s : string) : string := strip (collapse s).

(** [s.count(sub)] for a non-empty [sub]: the occurrences of [sub] counted
    from left to right without overlap, as [replace] finds them. *)
Fixpoint count_from (sub : string) (skip : nat) (s : string) : nat :=
  match s with
  | EmptyString => 0
  | String c s' =>
      match skip with
      | S k => count_from sub k s'
      | O =>
          if String.prefix sub s
          then S (count_from sub (String.length sub - 1) s')
          else count_from sub 0 s'
      end
  end.

Definition count (s sub : string) : nat := count_from sub 0 s.

(** [count_tags] (lines 141-161): the dict comprehension of line 156, then
    one assignment per tag. *)
Definition count_tags (text : string) : list (string * nat) :=
  let counts := fold_left (fun counts tag => dict_set counts tag 0)
                          ALL_TAGS [] in
  fold_left (fun counts tag => dict_set counts tag (count text tag))
            ALL_TAGS counts.

(** [s.replace('', new)]: [new] before every character and at the end. *)
Fixpoint intersperse (new s : string) : string :=
  match s with
  | EmptyString => new
  | String c s' => new ++ String c (intersperse new s')
  end.

(** [replace_tag] (lines 186-202): [str.replace] on any two strs. *)
Definition replace_tag (text old_tag new_tag : string) : string :=
  if String.eqb old_tag "" then intersperse new_tag text
  else replace text old_tag new_tag.

(** *** Predicates of further statements about the tags *)

(** The five tagging functions, in the order of [ALL_TAGS]. *)
Definition taggers : list (string -> string) :=
  [tag_fact; tag_estimate; tag_unknown; tag_assumption; tag_speculation].

(** The str begins with a whitespace character. *)
Definition starts_with_space (s : string) : bool :=
  match s with
  | EmptyString => false
  | String c _ => isspace c
  end.

(** The only whitespace of the str is the space, and no two spaces are
    adjacent. *)
Fixpoint single_spaced (s : string) : bool :=
  match s with
  | EmptyString => true
  | String c s' =>
      (if isspace c
       then Ascii.eqb c " " && negb (starts_with_space s')
       else true)
      && single_spaced s'
  end.

(** The str ends with a whitespace character. *)
Fixpoint ends_with_space (s : string) : bool :=
  match s with
  | EmptyString => false
  | String c EmptyString => isspace c
  | String _ s' => ends_with_space s'
  end.

(** *** [detect_tags] (lines 108-138)

    The pattern of line 128 is a tag, then [\s*], then [[^\[]+]: a match
    starts where one of the five tags does and takes the whole run of
    characters other than the opening bracket that follows it, which must
    not be empty.  [re.findall] tries the positions from left to right and
    goes on behind a match. *)

(** The characters of [s] from the [n]-th on. *)
Fixpoint drop (n : nat) (s : string) : string :=
  match n, s with
  | O, _ => s
  | S k, EmptyString => EmptyString
  | S k, String _ s' => drop k s'
  end.

(** The longest prefix without an opening bracket. *)
Fixpoint run_before_bracket (s : string) : string :=
  match s with
  | EmptyString => EmptyString
  | String c s' =>
      if Ascii.eqb c "[" then EmptyString
      else String c (run_before_bracket s')
  end.

(** The last character, as a str. *)
Fixpoint last_char (s : string) : string :=
  match s with
  | EmptyString => EmptyString
  | String c EmptyString => s
  | String _ s' => last_char s'
  end.

(** The second group on a run: [\s*] is greedy and takes the leading
    whitespace; on a run of whitespace only it gives the last character
    back, for [[^\[]+] to match. *)
Definition group_content (run : string) : string :=
  match lstrip run with
  | EmptyString => last_char run
  | content => content
  end.

(** A match of the pattern at the beginning of [s]: the two groups and the
    length of the match. *)
Definition match_at (s : string) : option (string * string * nat) :=
  match find (fun tag => String.prefix tag s) ALL_TAGS with
  | None => None
  | Some tag =>
      match run_before_bracket (drop (String.length tag) s) with
      | EmptyString => None
      | run =>
          Some (tag, group_content run,
                String.length tag + String.length run)
      end
  end.

(** [re.findall(pattern, text)]; [skip] counts the characters of a match
    still to be passed over. *)
Fixpoint findall_from (skip : nat) (s : string) : list (string * string) :=
  match s with
  | EmptyString => []
  | String _ s' =>
      match skip with
      | S k => findall_from k s'
      | O =>
          match match_at s with
          | Some (tag, content, len) =>
              (tag, content) :: findall_from (len - 1) s'
          | None => findall_from 0 s'
          end
      end
  end.

Definition findall (text : string) : list (string * string) :=
  findall_from 0 text.

Definition detect_tags (text : string) : list (list (string * string)) :=
  map (fun '(tag, content) => [("tag", tag); ("content", strip content)])
      (findall text).

(** No character of the str is an opening bracket. *)
Fixpoint no_bracket (s : string) : bool :=
  match s with
  | EmptyString => true
  | String c s' => negb (Ascii.eqb c "[") && no_bracket s'
  end.

(** [sum(counts.values())] (lines 227 and 285): the total of [count_tags]. *)
Definition total_tags (text : string) : nat :=
  list_sum (map snd (count_tags text)).

(** The number of positions of [s] at which [sub] begins. *)
Fixpoint occurrences (sub s : string) : nat :=
  match s with
  | EmptyString => 0
  | String _ s' => (if String.prefix sub s then 1 else 0) + occurrences sub s'
  end.

(** None of the first [n] characters is an opening bracket. *)
Fixpoint clear_of_bracket (n : nat) (s : string) : bool :=
  match n, s with
  | O, _ => true
  | S _, EmptyString => true
  | S k, String c s' => negb (Ascii.eqb c "[") && clear_of_bracket k s'
  end.

(** *** [uncertainty_report] (lines 205-250) *)

(** [str(n)] for a count *)
Definition str_of_count (n : nat) : string :=
  NilEmpty.string_of_uint (Nat.to_uint n).

(** [s * n] *)
Fixpoint times (s : string) (n : nat) : string :=
  match n with
  | O => EmptyString
  | S k => s ++ times s k
  end.

(** [item[key]] on an item of [detect_tags] *)
Definition item_get (item : list (string * string)) (key : string)
  : result string :=
  match dict_get item key with
  | Some v => Ok v
  | None => Err (KeyError key)
  end.

(** The count summary of lines 238-240: one line per tag that occurs. *)
Definition count_lines (counts : list (string * nat)) : list string :=
  flat_map (fun '(tag, count) =>
              if Nat.ltb 0 count
              then [ ("  " ++ tag ++ ": " ++ str_of_count count)%string ]
              else [])
           counts.

(** Line 248 *)
Definition item_line (item : list (string * string)) : result string :=
  (tag <- item_get item "tag" ;;
   content <- item_get item "content" ;;
   Ok (tag ++ " " ++ content)%string)%py.

(** The list [lines] when the function reaches its [return]. *)
Definition uncertainty_report_lines (text : string) : result (list string) :=
  (let counts := count_tags text in
   let total := list_sum (map snd counts) in
   let detected := detect_tags text in
   let lines :=
     [ "Uncertainty Report"; times "=" 40;
       ("Total tagged statements: " ++ str_of_count total)%string; "" ]
     ++ count_lines counts
     ++ [ ""; "Tagged Content:"; times "-" 40 ] in
   items <- map_result item_line detected ;;
   Ok (lines ++ items))%py.

Definition uncertainty_report (text : string) : result string :=
  (lines <- uncertainty_report_lines text ;;
   Ok (String.concat (String (ascii_of_nat 10) EmptyString) lines))%py.

End UncertaintyTags.

(** ** report_builder.py *)

Module ReportBuilder.

(** The state of a [TrustReportBuilder] (lines 25-31).  The builder holds
    references to a registry and to a checker; a render reads them when it is
    called, so the state taken here is the builder together with what its two
    references hold at that moment. *)
Record TrustReportBuilder : Type := mkBuilder {
  risk_registry : option RiskRegistry.registry;
  policy_checker : option PolicyChecker.checker;
  manual_notes : list string;
  system_name : string;
  system_version : string
}.

Definition init : TrustReportBuilder :=
  mkBuilder None None [] "AI System" "1.0.0".

(** Lines 33-48 *)
Definition set_risk_registry (self : TrustReportBuilder)
           (registry : RiskRegistry.registry) : TrustReportBuilder :=
  mkBuilder (Some registry) (policy_checker self) (manual_notes self)
            (system_name self) (system_version self).

Definition set_policy_checker (self : TrustReportBuilder)
           (checker : PolicyChecker.checker) : TrustReportBuilder :=
  mkBuilder (risk_registry self) (Some checker) (manual_notes self)
            (system_name self) (system_version self).

Definition add_note (self : TrustReportBuilder) (note : string)
  : TrustReportBuilder :=
  mkBuilder (risk_registry self) (policy_checker self)
            (manual_notes self ++ [note])
            (system_name self) (system_version self).

Definition set_system_info (self : TrustReportBuilder) (name version : string)
  : TrustReportBuilder :=
  mkBuilder (risk_registry self) (policy_checker self) (manual_notes self)
            name version.

(** [str(n)] for a count *)
Definition str_of_nat (n : nat) : string :=
  NilEmpty.string_of_uint (Nat.to_uint n).

Definition newline : string := String (ascii_of_nat 10) EmptyString.

(** [s.title()] on the ASCII letters: a letter that follows a letter is
    lowercased, any other letter is uppercased.  It is applied to the values
    of enumeration members only. *)
Definition is_lower (c : ascii) : bool :=
  let n := nat_of_ascii c in Nat.leb 97 n && Nat.leb n 122.
Definition is_upper (c : ascii) : bool :=
  let n := nat_of_ascii c in Nat.leb 65 n && Nat.leb n 90.
Definition to_upper (c : ascii) : ascii :=
  if is_lower c then ascii_of_nat (nat_of_ascii c - 32) else c.
Definition to_lower (c : ascii) : ascii :=
  if is_upper c then ascii_of_nat (nat_of_ascii c + 32) else c.

Fixpoint title_from (after_letter : bool) (s : string) : string :=
  match s with
  | EmptyString => EmptyString
  | String c s' =>
      if is_lower c || is_upper c
      then String (if after_letter then to_lower c else to_upper c)
                  (title_from true s')
      else String c (title_from false s')
  end.

Definition title (s : string) : string := title_from false s.

(** [d.get(k, 0)] on a table of counts *)
Definition count_of (d : list (string * nat)) (k : string) : nat :=
  match dict_get d k with Some n => n | None => 0 end.

(** [if self.policy_checker and self.policy_checker.issues]: the issues of a
    checker that is set and has some. *)
Definition checker_issues (self : TrustReportBuilder)
  : option (list PolicyChecker.PolicyIssue) :=
  match policy_checker self with
  | Some (i :: issues) => Some (i :: issues)
  | _ => None
  end.

(** [_build_executive_summary] (lines 108-132) *)
Definition _build_executive_summary (self : TrustReportBuilder)
  : result (list string) :=
  risk_lines <-
    match risk_registry self with
    | Some registry =>
        risk_summary <- RiskRegistry.get_summary registry ;;
        let total_risks := RiskRegistry.total risk_summary in
        let critical_risks :=
          count_of (RiskRegistry.by_severity risk_summary) "critical" in
        let high_risks :=
          count_of (RiskRegistry.by_severity risk_summary) "high" in
        Ok [ ("**Total Risks Identified**: " ++ str_of_nat total_risks)%string;
             ("- Critical: " ++ str_of_nat critical_risks)%string;
             ("- High: " ++ str_of_nat high_risks)%string;
             "" ]
    | None => Ok []
    end ;;
  let policy_lines :=
    match checker_issues self with
    | Some issues =>
        let policy_summary := PolicyChecker.get_summary issues in
        [ ("**Policy Compliance**: "
            ++ (if PolicyChecker.passed policy_summary
                then "âœ… Passed" else "âŒ Failed"))%string;
          ("- Errors: "
             ++ str_of_nat (PolicyChecker.errors policy_summary))%string;
          ("- Warnings: "
             ++ str_of_nat (PolicyChecker.warnings policy_summary))%string;
          "" ]
    | None => []
    end in
  Ok (risk_lines ++ policy_lines).

(** [a < b] on the sort keys [(r.severity.value, r.id)]: tuples compare by
    their first differing component. *)
Definition key_lt (a b : string * string) : bool :=
  if String.eqb (fst a) (fst b) then String.ltb (snd a) (snd b)
  else String.ltb (fst a) (fst b).

(** [sorted(rs, key=...)] is stable; on keys that are pairs of strs the order
    is total, so the stable insertion sort below returns the same list. *)
Fixpoint insert_by_key (x : (string * string) * RiskRegistry.Risk)
         (l : list ((string * string) * RiskRegistry.Risk))
  : list ((string * string) * RiskRegistry.Risk) :=
  match l with
  | [] => [x]
  | y :: l' =>
      if key_lt (fst y) (fst x) then y :: insert_by_key x l'
      else x :: y :: l'
  end.

Definition sorted_by_severity_id (rs : list RiskRegistry.Risk)
  : result (list RiskRegistry.Risk) :=
  keyed <- map_result
             (fun r =>
                sev <- RiskRegistry.enum_value (RiskRegistry.severity r) ;;
                Ok ((sev, RiskRegistry.id r), r)) rs ;;
  Ok (map snd (fold_right insert_by_key [] keyed)).

Section Render.

(** [format(v)] for a value that is not a str, as an f-string inserts it: the
    interpreter's, not part of the source. *)
Variable format_value : pyval -> string.

(** ["{v}"] inside an f-string *)
Definition py_str (v : pyval) : string :=
  match v with
  | PStr s => s
  | _ => format_value v
  end.

(** Lines 172-175 *)
Definition risk_row (risk : RiskRegistry.Risk) : result string :=
  sev <- RiskRegistry.enum_value (RiskRegistry.severity risk) ;;
  sta <- RiskRegistry.enum_value (RiskRegistry.status risk) ;;
  Ok ("| " ++ RiskRegistry.id risk ++ " | "
        ++ py_str (RiskRegistry.title risk) ++ " | " ++ sev ++ " | "
        ++ sta ++ " | "
        ++ py_str (py_or (RiskRegistry.owner risk) (PStr "Unassigned"))
        ++ " |")%string.

(** [_build_risk_section] (lines 134-178) *)
Definition _build_risk_section (self : TrustReportBuilder)
  : result (list string) :=
  match risk_registry self with
  | None => Ok []
  | Some registry =>
      risk_summary <- RiskRegistry.get_summary registry ;;
      let lines :=
        [ "### Risk Summary"; "";
          ("Total Risks: "
             ++ str_of_nat (RiskRegistry.total risk_summary))%string;
          ""; "**By Severity:**" ]
        ++ map (fun '(severity, count) =>
                  ("- " ++ title severity ++ ": " ++ str_of_nat count)%string)
               (RiskRegistry.by_severity risk_summary)
        ++ [ ""; "**By Category:**" ]
        ++ map (fun '(category, count) =>
                  ("- " ++ title (UncertaintyTags.replace category "_" " ")
                     ++ ": " ++ str_of_nat count)%string)
               (RiskRegistry.by_category risk_summary)
        ++ [ "" ] in
      let critical_risks :=
        RiskRegistry.list_risks registry None None None None in
      high_priority <-
        filter_result
          (fun r =>
             v <- RiskRegistry.enum_value (RiskRegistry.severity r) ;;
             Ok (existsb (String.eqb v) ["critical"; "high"]))
          critical_risks ;;
      match high_priority with
      | [] => Ok lines
      | _ =>
          ordered <- sorted_by_severity_id high_priority ;;
          rows <- map_result risk_row ordered ;;
          Ok (lines
                ++ [ "### High Priority Risks"; "";
                     "| ID | Title | Severity | Status | Owner |";
                     "|---|---|---|---|---|" ]
                ++ rows ++ [ "" ])
      end
  end.

(** Lines 198-199 and 207-208 *)
Definition issue_line (issue : PolicyChecker.PolicyIssue) : string :=
  "- **" ++ PolicyChecker.section issue ++ "**: "
    ++ PolicyChecker.message issue.

(** [_build_policy_section] (lines 180-211) *)
Definition _build_policy_section (self : TrustReportBuilder) : list string :=
  match checker_issues self with
  | None => [ "âœ… No policy compliance issues found." ]
  | Some issues =>
      let summary := PolicyChecker.get_summary issues in
      let errors := PolicyChecker.issues_of "error" issues in
      let warnings := PolicyChecker.issues_of "warning" issues in
      [ ("**Status**: "
           ++ (if negb (PolicyChecker.passed summary)
               then "âŒ Failed"
               else "âš ï¸  Passed with warnings"))%string;
        "" ]
      ++ match errors with
         | [] => []
         | _ => [ "### Errors"; "" ] ++ map issue_line errors ++ [ "" ]
         end
      ++ match warnings with
         | [] => []
         | _ => [ "### Warnings"; "" ] ++ map issue_line warnings ++ [ "" ]
         end
  end.

(** [_build_recommendations] (lines 213-260) *)
Definition _build_recommendations (self : TrustReportBuilder)
  : result (list string) :=
  risk_recs <-
    match risk_registry self with
    | Some registry =>
        risk_summary <- RiskRegistry.get_summary registry ;;
        let critical_count :=
          count_of (RiskRegistry.by_severity risk_summary) "critical" in
        identified_risks <-
          filter_result
            (fun r =>
               v <- RiskRegistry.enum_value (RiskRegistry.status r) ;;
               Ok (String.eqb v "identified"))
            (dict_values registry) ;;
        Ok ((if Nat.ltb 0 critical_count
             then [ ("ðŸ”´ **URGENT**: Address "
                       ++ str_of_nat critical_count
                       ++ " critical risk(s) before deployment")%string ]
             else [])
            ++ match identified_risks with
               | [] => []
               | _ => [ ("âš ï¸  Move "
                           ++ str_of_nat (length identified_risks)
                           ++ " identified risk(s) to active mitigation")%string ]
               end)
    | None => Ok []
    end ;;
  let policy_recs :=
    match checker_issues self with
    | Some issues =>
        let summary := PolicyChecker.get_summary issues in
        (if Nat.ltb 0 (PolicyChecker.errors summary)
         then [ ("âŒ Fix "
                   ++ str_of_nat (PolicyChecker.errors summary)
                   ++ " policy error(s) before proceeding")%string ]
         else [])
        ++ (if Nat.ltb 5 (PolicyChecker.warnings summary)
            then [ "âš ï¸  High number of policy warnings - consider comprehensive policy review" ]
            else [])
    | None => []
    end in
  let recommendations := risk_recs ++ policy_recs in
  let recommendations :=
    match recommendations with
    | [] => [ "âœ… No urgent recommendations at this time";
              "ðŸ’¡ Continue monitoring and regular risk reviews" ]
    | _ => recommendations
    end in
  Ok (map (fun rec => ("- " ++ rec)%string) recommendations).

(** The list [lines] of [build_markdown] (lines 57-104) when the method
    reaches its [return].  [now] is
    [datetime.now().strftime('%Y-%m-%d %H:%M:%S')]. *)
Definition build_markdown_lines (self : TrustReportBuilder) (now : string)
  : result (list string) :=
  let header :=
    [ ("# Trust Report: " ++ system_name self)%string;
      ("**Version**: " ++ system_version self)%string;
      ("**Generated**: " ++ now)%string;
      ""; "---"; "" ] in
  summary_lines <- _build_executive_summary self ;;
  let lines := header ++ [ "## Executive Summary"; "" ] ++ summary_lines ++ [ "" ] in
  lines <-
    match risk_registry self with
    | Some _ =>
        risk_lines <- _build_risk_section self ;;
        Ok (lines ++ [ "## Risk Assessment"; "" ] ++ risk_lines ++ [ "" ])
    | None => Ok lines
    end ;;
  let lines :=
    match checker_issues self with
    | Some _ =>
        lines ++ [ "## Policy Compliance"; "" ]
          ++ _build_policy_section self ++ [ "" ]
    | None => lines
    end in
  let lines :=
    match manual_notes self with
    | [] => lines
    | notes =>
        lines ++ [ "## Additional Notes"; "" ]
          ++ map (fun note => ("- " ++ note)%string) notes ++ [ "" ]
    end in
  recommendation_lines <- _build_recommendations self ;;
  Ok (lines ++ [ "## Recommendations"; "" ] ++ recommendation_lines ++ [ "" ]
        ++ [ "---"; "";
             "*This report was generated automatically by TrustByDesign toolkit.*" ]).

(** [build_markdown] (lines 50-106): the lines joined by newlines. *)
Definition build_markdown (self : TrustReportBuilder) (now : string)
  : result string :=
  lines <- build_markdown_lines self now ;;
  Ok (String.concat newline lines).

End Render.

(** *** Predicates of the statements about the report *)

(** [v.value] is defined. *)
Definition has_value (v : pyval) : Prop :=
  exists s, RiskRegistry.enum_value v = Ok s.

(** The registry of the builder, if any, holds members of enumerations in
    the three fields the render reads [.value] of. *)
Definition renderable (self : TrustReportBuilder) : Prop :=
  match risk_registry self with
  | Some registry =>
      forall k r, In (k, r) registry ->
                  has_value (RiskRegistry.category r)
                  /\ has_value (RiskRegistry.severity r)
                  /\ has_value (RiskRegistry.status r)
  | None => True
  end.

(** The two conditional blocks of [build_markdown] this development is
    about (lines 81-85 and 88-93). *)
Definition policy_block (self : TrustReportBuilder) : list string :=
  match checker_issues self with
  | Some _ => [ "## Policy Compliance"; "" ] ++ _build_policy_section self ++ [ "" ]
  | None => []
  end.

Definition notes_block (self : TrustReportBuilder) : list string :=
  match manual_notes self with
  | [] => []
  | notes =>
      [ "## Additional Notes"; "" ]
        ++ map (fun note => ("- " ++ note)%string) notes ++ [ "" ]
  end.

(** [text.split('\n')]: the lines of a text. *)
Fixpoint lines_of (text : string) : list string :=
  match text with
  | EmptyString => [ EmptyString ]
  | String c text' =>
      if Ascii.eqb c (ascii_of_nat 10) then EmptyString :: lines_of text'
      else match lines_of text' with
           | line :: rest => String c line :: rest
           | [] => [ String c EmptyString ]
           end
  end.

(** A str without a newline in it. *)
Fixpoint single_line (s : string) : bool :=
  match s with
  | EmptyString => true
  | String c s' => negb (Ascii.eqb c (ascii_of_nat 10)) && single_line s'
  end.

(** *** Predicates of further statements about the report *)

(** The key of line 171: [(r.severity.value, r.id)]. *)
Definition sort_key (r : RiskRegistry.Risk) : string * string :=
  (match RiskRegistry.enum_value (RiskRegistry.severity r) with
   | Ok v => v
   | Err _ => ""
   end,
   RiskRegistry.id r).

(** [a <= b] on sort keys. *)
Definition key_le (a b : string * string) : Prop := key_lt b a = false.

(** A risk comes no later than another in the order of the table. *)
Definition row_le (a b : RiskRegistry.Risk) : Prop :=
  key_le (sort_key a) (sort_key b).

(** The two recommendations of lines 253-255, as line 258 lists them. *)
Definition DEFAULT_RECOMMENDATIONS : list string :=
  [ ("- " ++ "âœ… No urgent recommendations at this time")%string;
    ("- " ++ "ðŸ’¡ Continue monitoring and regular risk reviews")%string ].

(** Nothing the recommendations look at calls for action: no risk of the
    registry is critical or still identified, and the checker, if it has
    issues, has no error and at most five warnings. *)
Definition nothing_urgent (self : TrustReportBuilder) : Prop :=
  (forall registry r,
      risk_registry self = Some registry -> In r (dict_values registry) ->
      RiskRegistry.enum_value (RiskRegistry.severity r) <> Ok "critical"
      /\ RiskRegistry.enum_value (RiskRegistry.status r) <> Ok "identified")
  /\ (forall issues,
         checker_issues self = Some issues ->
         PolicyChecker.issues_of "error" issues = []
         /\ length (PolicyChecker.issues_of "warning" issues) <= 5).

(** *** [build_dict] and [save_json] (lines 262-305) *)

(** A table of counts as a value. *)
Definition counts_value (d : list (string * nat)) : pyval :=
  PDict (map (fun '(k, n) => (k, PInt (Z.of_nat n))) d).

(** What [RiskRegistry.get_summary] returns (lines 312-317), as a value. *)
Definition risk_summary_value (sm : RiskRegistry.summary) : pyval :=
  PDict [ ("total", PInt (Z.of_nat (RiskRegistry.total sm)));
          ("by_severity", counts_value (RiskRegistry.by_severity sm));
          ("by_status", counts_value (RiskRegistry.by_status sm));
          ("by_category", counts_value (RiskRegistry.by_category sm)) ].

(** What [PolicyChecker.get_summary] returns (lines 255-261), as a value. *)
Definition policy_summary_value (sm : PolicyChecker.check_summary) : pyval :=
  PDict [ ("total_issues", PInt (Z.of_nat (PolicyChecker.total_issues sm)));
          ("errors", PInt (Z.of_nat (PolicyChecker.errors sm)));
          ("warnings", PInt (Z.of_nat (PolicyChecker.warnings sm)));
          ("info", PInt (Z.of_nat (PolicyChecker.info sm)));
          ("passed", PBool (PolicyChecker.passed sm)) ].

(** [PolicyIssue.to_dict] (policy_checker.py, lines 31-37) *)
Definition issue_to_dict (issue : PolicyChecker.PolicyIssue) : pyval :=
  PDict [ ("severity", PStr (PolicyChecker.severity issue));
          ("section", PStr (PolicyChecker.section issue));
          ("message", PStr (PolicyChecker.message issue)) ].

(** [build_dict] (lines 262-294).  [now] is [datetime.now().isoformat()].
    The keys [risks] and [policy] are in the literal of lines 269-278, so
    the later assignments keep their places. *)
Definition build_dict (self : TrustReportBuilder) (now : string)
  : result pyval :=
  risks <-
    match risk_registry self with
    | Some registry =>
        summary <- RiskRegistry.get_summary registry ;;
        details <- RiskRegistry.export_risks_to_dict registry ;;
        Ok (PDict [ ("summary", risk_summary_value summary);
                    ("details", PList details) ])
    | None => Ok PNone
    end ;;
  let policy :=
    match checker_issues self with
    | Some issues =>
        PDict [ ("summary",
                 policy_summary_value (PolicyChecker.get_summary issues));
                ("issues", PList (map issue_to_dict issues)) ]
    | None => PNone
    end in
  Ok (PDict [ ("system", PDict [ ("name", PStr (system_name self));
                                 ("version", PStr (system_version self)) ]);
              ("generated_at", PStr now);
              ("risks", risks);
              ("policy", policy);
              ("notes", PList (map PStr (manual_notes self))) ]).

(** [save_json] (lines 301-305): the document [json.dump] writes, or what
    [build_dict] or [json.dump] raises. *)
Definition save_json (self : TrustReportBuilder) (now : string)
  : result pyval :=
  report <- build_dict self now ;;
  if RiskRegistry.json_serializable report then Ok report
  else Err (TypeError "Object is not JSON serializable").

(** The registry of the builder, if any, holds members of enumerations in
    the four fields [to_dict] reads [.value] of. *)
Definition exportable (self : TrustReportBuilder) : Prop :=
  match risk_registry self with
  | Some registry =>
      forall k r, In (k, r) registry ->
                  has_value (RiskRegistry.category r)
                  /\ has_value (RiskRegistry.severity r)
                  /\ has_value (RiskRegistry.likelihood r)
                  /\ has_value (RiskRegistry.status r)
  | None => True
  end.

(** The fields of a risk that [to_dict] passes on as they are hold what
    [json.dump] accepts. *)
Definition json_fields (r : RiskRegistry.Risk) : bool :=
  RiskRegistry.json_serializable (RiskRegistry.title r)
  && RiskRegistry.json_serializable (RiskRegistry.description r)
  && RiskRegistry.json_serializable (RiskRegistry.mitigations r)
  && RiskRegistry.json_serializable (RiskRegistry.owner r)
  && RiskRegistry.json_serializable (RiskRegistry.metadata r).

(** A risk the table of lines 161-176 lists: its severity is critical or
    high. *)
Definition high_priority (r : RiskRegistry.Risk) : bool :=
  match RiskRegistry.enum_value (RiskRegistry.severity r) with
  | Ok v => existsb (String.eqb v) ["critical"; "high"]
  | Err _ => false
  end.

(** The heading of the table and its two header rows (lines 166-169). *)
Definition TABLE_HEAD : list string :=
  [ "### High Priority Risks"; "";
    "| ID | Title | Severity | Status | Owner |";
    "|---|---|---|---|---|" ].

(** *** Predicates of the statements about the text of a render *)

(** The first and the last line of a text. *)
Definition first_line (text : string) : string := hd "" (lines_of text).
Definition last_line (text : string) : string := last (lines_of text) "".

(** The text has the line: it is one of the strs [text.split('\n')]
    returns. *)
Definition has_line (text line : string) : Prop := In line (lines_of text).

(** The line is one of the headings of the two conditional sections. *)
Definition is_heading (line : string) : bool :=
  String.eqb line "## Policy Compliance"
  || String.eqb line "## Additional Notes".

(** No line of the text is one of the two headings. *)
Definition no_heading (text : string) : bool :=
  forallb (fun line => negb (is_heading line)) (lines_of text).

(** A character that occurs in neither heading, and a str that has one. *)
Definition foreign (c : ascii) : bool :=
  negb (existsb (Ascii.eqb c)
          (list_ascii_of_string "## Policy Compliance"
             ++ list_ascii_of_string "## Additional Notes")).

Fixpoint has_foreign (s : string) : bool :=
  match s with
  | EmptyString => false
  | String c s' => foreign c || has_foreign s'
  end.

(** No line of the text after its first one is one of the two headings:
    the text carries no heading behind a line break. *)
Definition carries_no_heading (text : string) : bool :=
  forallb (fun line => negb (is_heading line)) (tl (lines_of text)).

(** A text that carries no heading and whose first line has a character no
    heading has: whatever is put in front of it on the same line, no line
    of the result is a heading. *)
Definition guarded (text : string) : Prop :=
  carries_no_heading text = true /\ has_foreign (first_line text) = true.

(** The text a render copies from what the builder was given: the name and
    the version of the system, the time stamp, the notes, the section and
    the message of every error and warning issue, and the id, the title and
    the owner of every critical and high risk. *)
Definition free_text (format_value : pyval -> string)
           (self : TrustReportBuilder) (now : string) : list string :=
  [ system_name self; system_version self; now ]
  ++ manual_notes self
  ++ match checker_issues self with
     | Some issues =>
         flat_map (fun issue => [ PolicyChecker.section issue;
                                  PolicyChecker.message issue ])
                  (PolicyChecker.issues_of "error" issues
                     ++ PolicyChecker.issues_of "warning" issues)
     | None => []
     end
  ++ match risk_registry self with
     | Some registry =>
         flat_map (fun r =>
                     [ RiskRegistry.id r;
                       py_str format_value (RiskRegistry.title r);
                       py_str format_value
                              (py_or (RiskRegistry.owner r)
                                     (PStr "Unassigned")) ])
                  (filter high_priority (dict_values registry))
     | None => []
     end.

(** None of that text has, behind a line break, a line that is itself one
    of the two headings. *)
Definition heading_free (format_value : pyval -> string)
           (self : TrustReportBuilder) (now : string) : bool :=
  forallb carries_no_heading (free_text format_value self now).

(** The str is the value of a member of an enumeration: what the keys of
    the tables of a summary are. *)
Definition enum_valued (k : string) : Prop :=
  exists v, RiskRegistry.enum_value v = Ok k.

End ReportBuilder.

(** ** Concrete inputs

    Data in the manner of the repository's tests
    (tests/test_risk_registry.py, tests/test_report_builder.py), on which
    the statements below are run. *)

Module Examples.

Definition risk_001 : RiskRegistry.Risk :=
  RiskRegistry.mkRisk "RISK-001" (PCategory RiskCategory.HALLUCINATION)
    (PStr "First Risk") (PStr "First") (PSeverity Severity.HIGH)
    (PLikelihood Likelihood.MEDIUM)
    (PList [PStr "Human review"; PStr "Confidence thresholds"])
    (PStr "ML Team") (PStatus RiskStatus.IDENTIFIED)
    (PDict [("review_date", PStr "2024-01-15"); ("priority", PInt 1)]).

Definition risk_002 : RiskRegistry.Risk :=
  RiskRegistry.mkRisk "RISK-002" (PCategory RiskCategory.PRIVACY)
    (PStr "Data leak") (PStr "Second") (PSeverity Severity.CRITICAL)
    (PLikelihood Likelihood.LOW) (PList []) (PStr "")
    (PStatus RiskStatus.MITIGATING) (PDict []).

(** The registry after two [add_risk] calls. *)
Definition registry : RiskRegistry.registry :=
  [("RISK-001", risk_001); ("RISK-002", risk_002)].

(** A registry whose one risk carries a member of an enumeration in its
    metadata: [add_risk(..., metadata={'escalation': Severity.CRITICAL})]. *)
Definition registry_enum_metadata : RiskRegistry.registry :=
  fst (RiskRegistry.add_risk RiskRegistry.init "RISK-009"
         (PCategory RiskCategory.SECURITY) (PStr "Key rotation")
         (PStr "Keys are rotated by hand") (PSeverity Severity.HIGH)
         (PLikelihood Likelihood.LOW) PNone (PStr "")
         (PStatus RiskStatus.IDENTIFIED)
         (PDict [("escalation", PSeverity Severity.CRITICAL)])).

(** The registry after [update_risk("RISK-002", severity=Likelihood.HIGH)]:
    the severity of the risk is a member of another enumeration. *)
Definition registry_wrong_class : RiskRegistry.registry :=
  fst (RiskRegistry.update_risk registry "RISK-002"
         [("severity", PLikelihood Likelihood.HIGH)]).

(** Keywords of an update: two fields and a name a risk does not have. *)
Definition kwargs : list (string * pyval) :=
  [("title", PStr "Updated Title"); ("severity", PStr "critical");
   ("assignee", PStr "QA")].

(** A record whose fields are all in vocabulary, and one whose severity is
    not. *)
Definition record_ok : list (string * pyval) :=
  [("id", PStr "RISK-001"); ("category", PStr "bias");
   ("title", PStr "Bias Risk"); ("description", PStr "Loaded");
   ("severity", PStr "high"); ("likelihood", PStr "very_low");
   ("mitigations", PList [PStr "Audit"; PStr "Re-sample"]);
   ("owner", PStr "ML Team")].

Definition record_bad : list (string * pyval) :=
  [("id", PStr "RISK-003"); ("category", PStr "bias");
   ("title", PStr "Bias Risk"); ("description", PStr "Loaded");
   ("severity", PStr "catastrophic"); ("likelihood", PStr "low")].

Definition record_ok_risk : RiskRegistry.Risk :=
  RiskRegistry.mkRisk "RISK-001" (PCategory RiskCategory.BIAS)
    (PStr "Bias Risk") (PStr "Loaded") (PSeverity Severity.HIGH)
    (PLikelihood Likelihood.VERY_LOW)
    (PList [PStr "Audit"; PStr "Re-sample"]) (PStr "ML Team")
    (PStatus RiskStatus.IDENTIFIED) (PDict []).

(** A risks document whose one record collides with [RISK-001]. *)
Definition document : list (string * pyval) :=
  [("risks", PList [PDict record_ok])].

(** A builder with a registry, a checker run on the empty policy, and a
    note. *)
Definition builder : ReportBuilder.TrustReportBuilder :=
  ReportBuilder.add_note
    (ReportBuilder.set_policy_checker
       (ReportBuilder.set_risk_registry ReportBuilder.init registry)
       (fst (PolicyChecker.check_policy PolicyChecker.init (PDict []))))
    "System deployed successfully".

(** A builder without a checker whose one note has a line break and, after
    it, the text of a heading. *)
Definition builder_note_heading : ReportBuilder.TrustReportBuilder :=
  ReportBuilder.add_note ReportBuilder.init
    ("See the checklist" ++ ReportBuilder.newline ++ "## Policy Compliance").

End Examples.

(** * Properties *)

(** ** Dictionaries *)

Section DictFacts.
Context {V : Type}.
Implicit Types (d : list (string * V)) (k : string) (v : V).

Lemma dict_get_set_same d k v : dict_get (dict_set d k v) k = Some v.
Proof.
  induction d as [|[k' v'] d IH]; simpl.
  - now rewrite String.eqb_refl.
  - destruct (String.eqb_spec k k') as [->|Hne]; simpl.
    + now rewrite String.eqb_refl.
    + apply String.eqb_neq in Hne. now rewrite Hne.
Qed.

Lemma dict_get_set_other d k k' v :
  k' <> k -> dict_get (dict_set d k v) k' = dict_get d k'.
Proof.
  intros Hne. induction d as [|[k0 v0] d IH]; simpl.
  - apply String.eqb_neq in Hne. now rewrite Hne.
  - destruct (String.eqb_spec k k0) as [->|Hk]; simpl.
    + apply String.eqb_neq in Hne. now rewrite Hne.
    + now rewrite IH.
Qed.

Lemma dict_keys_set_present d k v :
  dict_mem d k = true -> dict_keys (dict_set d k v) = dict_keys d.
Proof.
  unfold dict_mem, dict_keys. induction d as [|[k0 v0] d IH]; simpl.
  - discriminate.
  - destruct (String.eqb_spec k k0) as [->|Hk]; simpl; intros H.
    + reflexivity.
    + now rewrite IH.
Qed.

Lemma dict_keys_set_absent d k v :
  dict_mem d k = false -> dict_keys (dict_set d k v) = dict_keys d ++ [k].
Proof.
  unfold dict_mem, dict_keys. induction d as [|[k0 v0] d IH]; simpl.
  - reflexivity.
  - destruct (String.eqb_spec k k0) as [->|Hk]; simpl; intros H.
    + discriminate.
    + now rewrite IH.
Qed.

Lemma dict_mem_get d k : dict_mem d k = true <-> exists v, dict_get d k = Some v.
Proof.
  unfold dict_mem. destruct (dict_get d k) as [v|]; split.
  - intros _. now exists v.
  - reflexivity.
  - discriminate.
  - intros [v H]. discriminate.
Qed.

End DictFacts.

(** ** The risk registry *)

Module RiskRegistryProps.
Import RiskRegistry.

Lemma no_bound_check (kwargs : list (string * pyval)) :
  ~ In "id" (map fst kwargs) -> ~ In "self" (map fst kwargs) ->
  existsb (fun key => existsb (String.eqb key) bound_parameters)
          (map fst kwargs) = false.
Proof.
  intros Hid Hself. destruct (existsb _ _) eqn:E; [|reflexivity].
  apply existsb_exists in E. destruct E as (k & Hin & Hk).
  apply existsb_exists in Hk. destruct Hk as (p & Hp & Hkp).
  apply String.eqb_eq in Hkp. subst p.
  destruct Hp as [<-|[<-|[]]]; contradiction.
Qed.


Lemma hasattr_cases key :
  hasattr key = true ->
  key = "id" \/ key = "category" \/ key = "title" \/ key = "description"
  \/ key = "severity" \/ key = "likelihood" \/ key = "mitigations"
  \/ key = "owner" \/ key = "status" \/ key = "metadata".
Proof.
  unfold hasattr. intros H. apply existsb_exists in H.
  destruct H as (k & Hin & Hk). apply String.eqb_eq in Hk. subst k.
  simpl in Hin. intuition auto.
Qed.

Ltac field_cases H :=
  apply hasattr_cases in H;
  repeat (destruct H as [H|H]); subst.

Ltac split_eqb k :=
  repeat match goal with
         | |- context [String.eqb k ?s] =>
             destruct (String.eqb_spec k s); subst; simpl; try congruence
         end.

Lemma setattr_id risk key value : id (setattr risk key value) = id risk.
Proof.
  destruct risk. unfold setattr. split_eqb key.
Qed.

Lemma getattr_setattr_same risk key value :
  hasattr key = true -> key <> "id" ->
  getattr (setattr risk key value) key = Some value.
Proof.
  intros H Hid. destruct risk. field_cases H; try congruence; reflexivity.
Qed.

Lemma getattr_setattr_other risk key key' value :
  key' <> key -> getattr (setattr risk key value) key' = getattr risk key'.
Proof.
  intros Hne. destruct risk. unfold setattr.
  split_eqb key; unfold getattr; simpl; split_eqb key'.
Qed.

Lemma update_fields_id risk kwargs :
  id (fst (update_fields risk kwargs)) = id risk.
Proof.
  revert risk. induction kwargs as [|[key value] rest IH]; intros risk; simpl.
  - reflexivity.
  - destruct (hasattr key); [|apply IH].
    destruct (coerce key value); simpl; [|reflexivity].
    rewrite IH. apply setattr_id.
Qed.

Lemma update_fields_frame risk kwargs key :
  ~ In key (map fst kwargs) ->
  getattr (fst (update_fields risk kwargs)) key = getattr risk key.
Proof.
  revert risk. induction kwargs as [|[k value] rest IH]; intros risk Hnin; simpl.
  - reflexivity.
  - simpl in Hnin.
    assert (Hk : key <> k) by (intros ->; apply Hnin; now left).
    assert (Hrest : ~ In key (map fst rest)) by (intros Hin; apply Hnin; now right).
    destruct (hasattr k); [|now apply IH].
    destruct (coerce k value); simpl; [|reflexivity].
    rewrite IH by assumption. now apply getattr_setattr_other.
Qed.

Lemma update_fields_succeeds risk kwargs :
  coercible kwargs -> snd (update_fields risk kwargs) = Ok tt.
Proof.
  revert risk. induction kwargs as [|[key value] rest IH]; intros risk Hc; simpl.
  - reflexivity.
  - assert (Hrest : coercible rest).
    { intros k v Hin. apply Hc. now right. }
    destruct (hasattr key) eqn:Hh; [|now apply IH].
    destruct (Hc key value (or_introl eq_refl) Hh) as [value' Hv].
    rewrite Hv. now apply IH.
Qed.

Lemma update_fields_sets risk kwargs key value :
  NoDup (map fst kwargs) -> coercible kwargs ->
  In (key, value) kwargs -> hasattr key = true -> key <> "id" ->
  exists value', coerce key value = Ok value'
                 /\ getattr (fst (update_fields risk kwargs)) key = Some value'.
Proof.
  revert risk. induction kwargs as [|[k v] rest IH];
    intros risk Hnd Hc Hin Hh Hid; simpl in *.
  - contradiction.
  - inversion Hnd as [|? ? Hk Hnd']; subst.
    assert (Hrest : coercible rest).
    { intros k' v' Hin'. apply Hc. now right. }
    destruct Hin as [Heq|Hin].
    + inversion Heq; subst k v. rewrite Hh.
      destruct (Hc key value (or_introl eq_refl) Hh) as [value' Hv].
      rewrite Hv. exists value'. split; [reflexivity|].
      rewrite update_fields_frame by assumption.
      now apply getattr_setattr_same.
    + destruct (hasattr k) eqn:Hhk; [|now apply IH].
      destruct (Hc k v (or_introl eq_refl) Hhk) as [v' Hv]. rewrite Hv.
      now apply IH.
Qed.

Lemma update_fields_skip risk pre key value post :
  hasattr key = false ->
  update_fields risk (pre ++ (key, value) :: post)
  = update_fields risk (pre ++ post).
Proof.
  intros Hh. revert risk. induction pre as [|[k v] pre IH]; intros risk; simpl.
  - now rewrite Hh.
  - destruct (hasattr k); [|apply IH].
    destruct (coerce k v); [apply IH|reflexivity].
Qed.

Lemma update_risk_eq self i kwargs risk :
  ~ In "id" (map fst kwargs) -> ~ In "self" (map fst kwargs) ->
  get_risk self i = Some risk ->
  update_risk self i kwargs
  = (dict_set self i (fst (update_fields risk kwargs)),
     match snd (update_fields risk kwargs) with
     | Ok _ => Ok (fst (update_fields risk kwargs))
     | Err e => Err e
     end).
Proof.
  intros Hid Hself Hget. unfold update_risk, get_risk in *.
  rewrite (no_bound_check _ Hid Hself), Hget.
  now destruct (update_fields risk kwargs).
Qed.

Lemma update_fields_stops risk pre key value post e :
  coercible pre -> hasattr key = true -> coerce key value = Err e ->
  update_fields risk (pre ++ (key, value) :: post)
  = (fst (update_fields risk pre), Err e).
Proof.
  intros Hc Hh He. revert risk.
  induction pre as [|[k v] pre IH]; intros risk; simpl.
  - now rewrite Hh, He.
  - assert (Hrest : coercible pre).
    { intros k' v' Hin. apply Hc. now right. }
    destruct (hasattr k) eqn:Hhk; [|now apply IH].
    destruct (Hc k v (or_introl eq_refl) Hhk) as [v' Hv]. rewrite Hv.
    now apply IH.
Qed.

Lemma enum_field_recognized key cls :
  enum_of_field key = Some cls -> hasattr key = true.
Proof.
  unfold enum_of_field. split_eqb key; try reflexivity; try discriminate.
Qed.

Lemma coerce_outside key cls s :
  enum_of_field key = Some cls -> in_vocabulary cls s = false ->
  coerce key (PStr s) = Err (InvalidEnumValue cls (PStr s)).
Proof.
  unfold enum_of_field, coerce.
  split_eqb key; intros H; inversion H; subst; simpl;
    unfold RiskCategory_call, Severity_call, Likelihood_call, RiskStatus_call;
    intros Hv.
  - now destruct (RiskCategory.of_value s).
  - now destruct (Severity.of_value s).
  - now destruct (Likelihood.of_value s).
  - now destruct (RiskStatus.of_value s).
Qed.

Lemma field_holds_getattr r key v :
  field_holds r key v <-> getattr r key = Some v.
Proof.
  split.
  - now destruct 1.
  - unfold getattr. split_eqb key; intros H; inversion H; constructor.
Qed.

Lemma no_field_hasattr key : no_field key -> hasattr key = false.
Proof.
  intros Hno. destruct (hasattr key) eqn:Hh; [|reflexivity].
  exfalso.
  field_cases Hh;
    eapply (Hno (mkRisk "" PNone PNone PNone PNone PNone PNone PNone PNone
                        PNone));
    constructor.
Qed.

Lemma coerce_supplied key value :
  (forall s cls, value = PStr s -> enum_of_field key = Some cls ->
                 in_vocabulary cls s = true) ->
  coerce key value = Ok (supplied_value key value).
Proof.
  intros Hvalid. unfold coerce, supplied_value.
  destruct value; try reflexivity.
  specialize (Hvalid s). unfold enum_of_field in *.
  split_eqb key;
    try (specialize (Hvalid _ eq_refl eq_refl)); simpl in *;
    unfold RiskCategory_call, Severity_call, Likelihood_call,
      RiskStatus_call; try reflexivity.
  - now destruct (RiskCategory.of_value s).
  - now destruct (Severity.of_value s).
  - now destruct (Likelihood.of_value s).
  - now destruct (RiskStatus.of_value s).
Qed.

Lemma valid_enums_coercible kwargs : valid_enums kwargs -> coercible kwargs.
Proof.
  intros Hvalid key value Hin _. exists (supplied_value key value).
  apply coerce_supplied. intros s cls ->. now apply Hvalid.
Qed.

(** C1. Adding under an id that is already present raises the duplicate-id
    error and returns the registry as it was: the risk stored under the id,
    its mitigation list included, is the one that was there. *)
Theorem add_risk_duplicate_id_rejected :
  forall self i risk category title description severity likelihood
         mitigations owner status metadata,
    get_risk self i = Some risk ->
    add_risk self i category title description severity likelihood
             mitigations owner status metadata
    = (self, Err (DuplicateId i))
    /\ get_risk (fst (add_risk self i category title description severity
                               likelihood mitigations owner status metadata)) i
       = Some risk.
Proof.
  intros self i risk c t d s l m o st md Hget.
  unfold add_risk, dict_mem. unfold get_risk in Hget. rewrite Hget.
  split; [reflexivity|exact Hget].
Qed.

(** C2. [update_risk] on an id that is absent raises the not-found error and
    returns the registry as it was.  On a present id the call leaves, also
    when it raises, a registry with the same keys in the same order, the
    same risks under the other ids, and under the id a risk with the same
    id in which every field that has no keyword holds what it held.  When
    every str given for an enumeration field is a value of that enumeration,
    the call returns that risk, and every field that has a keyword holds
    what the keyword supplies: the value given, or the member a str names.
    A keyword that names no field is ignored: the call behaves as if it had
    not been passed. *)
Theorem update_risk_changes_only_supplied_fields :
  forall self i kwargs,
    kwargs_ok kwargs ->
    (get_risk self i = None ->
     update_risk self i kwargs = (self, Err (NotFound i)))
    /\ (forall risk,
           get_risk self i = Some risk ->
           exists risk',
             fst (update_risk self i kwargs) = dict_set self i risk'
             /\ get_risk (dict_set self i risk') i = Some risk'
             /\ dict_keys (dict_set self i risk') = dict_keys self
             /\ (forall j, j <> i ->
                           get_risk (dict_set self i risk') j = get_risk self j)
             /\ id risk' = id risk
             /\ (forall key v,
                    ~ In key (map fst kwargs) ->
                    field_holds risk key v -> field_holds risk' key v)
             /\ (valid_enums kwargs ->
                 snd (update_risk self i kwargs) = Ok risk'
                 /\ forall key value v,
                     In (key, value) kwargs -> field_holds risk key v ->
                     field_holds risk' key (supplied_value key value)))
    /\ (forall pre key value post,
           kwargs = pre ++ (key, value) :: post -> no_field key ->
           update_risk self i kwargs = update_risk self i (pre ++ post)).
Proof.
  intros self i kwargs (Hnd & Hid & Hself & _). split; [|split].
  - intros Hget. unfold update_risk, get_risk in *.
    now rewrite (no_bound_check _ Hid Hself), Hget.
  - intros risk Hget.
    exists (fst (update_fields risk kwargs)).
    rewrite (update_risk_eq _ _ _ _ Hid Hself Hget).
    unfold get_risk in *. cbn [fst snd].
    split; [reflexivity|].
    split; [apply dict_get_set_same|].
    split; [apply dict_keys_set_present; apply dict_mem_get; now exists risk|].
    split; [intros j Hj; now apply dict_get_set_other|].
    split; [apply update_fields_id|].
    split.
    + intros key v Hnin Hv. apply field_holds_getattr.
      rewrite update_fields_frame by assumption.
      now apply field_holds_getattr.
    + intros Hvalid.
      pose proof (valid_enums_coercible _ Hvalid) as Hc.
      split; [now rewrite (update_fields_succeeds risk kwargs Hc)|].
      intros key value v Hin Hv.
      assert (Hh : hasattr key = true) by (now destruct Hv).
      assert (Hkey : key <> "id").
      { intros ->. apply Hid. now apply (in_map fst) in Hin. }
      destruct (update_fields_sets risk kwargs key value Hnd Hc Hin Hh Hkey)
        as (value' & Hco & Hga).
      apply field_holds_getattr. rewrite Hga. f_equal.
      rewrite (coerce_supplied key value) in Hco; [now inversion Hco|].
      intros s cls ->. now apply Hvalid.
  - intros pre key value post -> Hno.
    assert (Hh : hasattr key = false) by (now apply no_field_hasattr).
    unfold update_risk.
    assert (Hkey : existsb (String.eqb key) bound_parameters = false).
    { cbn [bound_parameters existsb]. rewrite !orb_false_r.
      apply orb_false_iff. split; apply String.eqb_neq; intros ->.
      - apply Hself. rewrite map_app. apply in_or_app. right. now left.
      - apply Hid. rewrite map_app. apply in_or_app. right. now left. }
    rewrite !map_app, !existsb_app. cbn [map fst existsb].
    rewrite Hkey. cbn [orb].
    destruct (existsb _ (map fst pre) || existsb _ (map fst post))%bool;
      [reflexivity|].
    destruct (dict_get self i); [|reflexivity].
    now rewrite update_fields_skip.
Qed.


Lemma RiskCategory_of_value_value c :
  RiskCategory.of_value (RiskCategory.value c) = Some c.
Proof. now destruct c. Qed.

Lemma Severity_of_value_value c :
  Severity.of_value (Severity.value c) = Some c.
Proof. now destruct c. Qed.

Lemma Likelihood_of_value_value c :
  Likelihood.of_value (Likelihood.value c) = Some c.
Proof. now destruct c. Qed.

Lemma RiskStatus_of_value_value c :
  RiskStatus.of_value (RiskStatus.value c) = Some c.
Proof. now destruct c. Qed.

Lemma RiskCategory_call_error v e :
  RiskCategory_call v = Err e -> e = InvalidEnumValue cls_RiskCategory v.
Proof.
  destruct v; simpl; try (intros H; now inversion H).
  destruct (RiskCategory.of_value s); intros H; now inversion H.
Qed.

Lemma Severity_call_error v e :
  Severity_call v = Err e -> e = InvalidEnumValue cls_Severity v.
Proof.
  destruct v; simpl; try (intros H; now inversion H).
  destruct (Severity.of_value s); intros H; now inversion H.
Qed.

Lemma Likelihood_call_error v e :
  Likelihood_call v = Err e -> e = InvalidEnumValue cls_Likelihood v.
Proof.
  destruct v; simpl; try (intros H; now inversion H).
  destruct (Likelihood.of_value s); intros H; now inversion H.
Qed.

Lemma RiskStatus_call_error v e :
  RiskStatus_call v = Err e -> e = InvalidEnumValue cls_RiskStatus v.
Proof.
  destruct v; simpl; try (intros H; now inversion H).
  destruct (RiskStatus.of_value s); intros H; now inversion H.
Qed.

Lemma RiskCategory_call_outside v :
  outside_vocabulary cls_RiskCategory v ->
  RiskCategory_call v = Err (InvalidEnumValue cls_RiskCategory v).
Proof.
  intros (s & -> & H). simpl in *. now destruct (RiskCategory.of_value s).
Qed.

Lemma Severity_call_outside v :
  outside_vocabulary cls_Severity v ->
  Severity_call v = Err (InvalidEnumValue cls_Severity v).
Proof.
  intros (s & -> & H). simpl in *. now destruct (Severity.of_value s).
Qed.

Lemma Likelihood_call_outside v :
  outside_vocabulary cls_Likelihood v ->
  Likelihood_call v = Err (InvalidEnumValue cls_Likelihood v).
Proof.
  intros (s & -> & H). simpl in *. now destruct (Likelihood.of_value s).
Qed.

Lemma RiskStatus_call_outside v :
  outside_vocabulary cls_RiskStatus v ->
  RiskStatus_call v = Err (InvalidEnumValue cls_RiskStatus v).
Proof.
  intros (s & -> & H). simpl in *. now destruct (RiskStatus.of_value s).
Qed.

(** What an accepted record went through. *)
Lemma from_dict_accepts data risk :
  from_dict (PDict data) = Ok risk ->
  (forall v, dict_get data "category" = Some v ->
             RiskCategory_call v = Ok (category risk))
  /\ (forall v, dict_get data "severity" = Some v ->
                Severity_call v = Ok (severity risk))
  /\ (forall v, dict_get data "likelihood" = Some v ->
                Likelihood_call v = Ok (likelihood risk))
  /\ (forall v, dict_get data "status" = Some v ->
                RiskStatus_call v = Ok (status risk)).
Proof.
  unfold from_dict, getitem, get_default.
  destruct (dict_get data "id") as [idv|]; cbn [bind]; [|discriminate].
  destruct (dict_get data "category") as [cv|]; cbn [bind]; [|discriminate].
  destruct (RiskCategory_call cv) as [c|] eqn:Ec; cbn [bind]; [|discriminate].
  destruct (dict_get data "title") as [tv|]; cbn [bind]; [|discriminate].
  destruct (dict_get data "description") as [dv|]; cbn [bind];
    [|discriminate].
  destruct (dict_get data "severity") as [sv|]; cbn [bind]; [|discriminate].
  destruct (Severity_call sv) as [s|] eqn:Es; cbn [bind]; [|discriminate].
  destruct (dict_get data "likelihood") as [lv|]; cbn [bind]; [|discriminate].
  destruct (Likelihood_call lv) as [l|] eqn:El; cbn [bind]; [|discriminate].
  destruct (RiskStatus_call _) as [st|] eqn:Est; cbn [bind]; [|discriminate].
  destruct (as_id idv) as [i|]; cbn [bind]; [|discriminate].
  intros H. inversion H; subst; clear H. cbn [category severity likelihood status].
  repeat split; intros v Hv; inversion Hv; subst; try assumption.
  destruct (dict_get data "status"); inversion Hv; subst. exact Est.
Qed.

(** C3.  [from_dict] never accepts a record in which the category, severity,
    likelihood or status is a str outside the vocabulary of its enumeration:
    the call raises.  On a record that has the keys the method subscripts,
    what it raises is the invalid-enum-value error (the status is the
    default [identified] when its key is absent), and when the four are
    values of members (and the id is a str) it returns the risk whose four
    fields are those members and whose other fields are the record's. *)
Theorem from_dict_validates_enumerations :
  forall data,
    (forall key cls v,
        enum_of_field key = Some cls -> dict_get data key = Some v ->
        outside_vocabulary cls v ->
        exists e, from_dict (PDict data) = Err e)
    /\ forall idv cv tv dv sv lv,
        dict_get data "id" = Some idv ->
        dict_get data "category" = Some cv ->
        dict_get data "title" = Some tv ->
        dict_get data "description" = Some dv ->
        dict_get data "severity" = Some sv ->
        dict_get data "likelihood" = Some lv ->
        (outside_vocabulary cls_RiskCategory cv
         \/ outside_vocabulary cls_Severity sv
         \/ outside_vocabulary cls_Likelihood lv
         \/ outside_vocabulary cls_RiskStatus
              (get_default data "status" (PStr "identified")) ->
         exists cls v, from_dict (PDict data) = Err (InvalidEnumValue cls v))
        /\ (forall i c s l st,
               idv = PStr i ->
               cv = PStr (RiskCategory.value c) ->
               sv = PStr (Severity.value s) ->
               lv = PStr (Likelihood.value l) ->
               get_default data "status" (PStr "identified")
               = PStr (RiskStatus.value st) ->
               from_dict (PDict data)
               = Ok (mkRisk i (PCategory c) tv dv (PSeverity s) (PLikelihood l)
                            (get_default data "mitigations" (PList []))
                            (get_default data "owner" (PStr ""))
                            (PStatus st)
                            (get_default data "metadata" (PDict [])))).
Proof.
  intros data. split.
  - intros key cls v Hf Hget Hout.
    destruct (from_dict (PDict data)) as [risk|e] eqn:E; [exfalso|eauto].
    destruct (from_dict_accepts data risk E) as (Hc & Hs & Hl & Hst).
    unfold enum_of_field in Hf.
    destruct (String.eqb_spec key "category") as [->|_].
    { inversion Hf; subst cls. apply RiskCategory_call_outside in Hout.
      rewrite (Hc v Hget) in Hout. discriminate Hout. }
    destruct (String.eqb_spec key "severity") as [->|_].
    { inversion Hf; subst cls. apply Severity_call_outside in Hout.
      rewrite (Hs v Hget) in Hout. discriminate Hout. }
    destruct (String.eqb_spec key "likelihood") as [->|_].
    { inversion Hf; subst cls. apply Likelihood_call_outside in Hout.
      rewrite (Hl v Hget) in Hout. discriminate Hout. }
    destruct (String.eqb_spec key "status") as [->|_]; [|discriminate Hf].
    inversion Hf; subst cls. apply RiskStatus_call_outside in Hout.
    rewrite (Hst v Hget) in Hout. discriminate Hout.
  - intros idv cv tv dv sv lv Hid Hcat Htit Hdes Hsev Hlik.
    unfold from_dict, getitem.
    rewrite Hid, Hcat, Htit, Hdes, Hsev, Hlik. cbn [bind].
    split.
    + intros Hout.
      destruct (RiskCategory_call cv) as [c|e] eqn:Ec; cbn [bind].
      2:{ apply RiskCategory_call_error in Ec. subst. eauto. }
      destruct (Severity_call sv) as [s|e] eqn:Es; cbn [bind].
      2:{ apply Severity_call_error in Es. subst. eauto. }
      destruct (Likelihood_call lv) as [l|e] eqn:El; cbn [bind].
      2:{ apply Likelihood_call_error in El. subst. eauto. }
      destruct (RiskStatus_call _) as [st|e] eqn:Est; cbn [bind].
      2:{ apply RiskStatus_call_error in Est. subst. eauto. }
      exfalso. destruct Hout as [H|[H|[H|H]]].
      * apply RiskCategory_call_outside in H. congruence.
      * apply Severity_call_outside in H. congruence.
      * apply Likelihood_call_outside in H. congruence.
      * apply RiskStatus_call_outside in H. congruence.
    + intros i c s l st -> -> -> -> ->.
      unfold RiskCategory_call, Severity_call, Likelihood_call,
        RiskStatus_call.
      rewrite RiskCategory_of_value_value, Severity_of_value_value,
        Likelihood_of_value_value, RiskStatus_of_value_value.
      reflexivity.
Qed.

Lemma dict_set_absent {V : Type} (d : list (string * V)) k v :
  ~ In k (dict_keys d) -> dict_set d k v = d ++ [(k, v)].
Proof.
  unfold dict_keys. induction d as [|[k0 v0] d IH]; simpl; intros H.
  - reflexivity.
  - destruct (String.eqb_spec k k0) as [->|Hk].
    + exfalso. apply H. now left.
    + rewrite IH; [reflexivity|]. intros Hin. apply H. now right.
Qed.

(** A persistable risk serializes to a record [json.dump] accepts, and
    [from_dict] rebuilds the risk from it. *)
Lemma to_dict_from_dict risk :
  persistable risk = true ->
  exists d, to_dict risk = Ok d
            /\ json_serializable (PDict d) = true
            /\ from_dict (PDict d) = Ok risk.
Proof.
  destruct risk as [i c t d s l m o st md]. unfold persistable. simpl.
  destruct c; try discriminate. destruct s; try discriminate.
  destruct l; try discriminate. destruct st; try discriminate.
  intros H. repeat (apply andb_prop in H; destruct H as [H ?]).
  eexists. split; [reflexivity|]. split.
  - simpl. now repeat (apply andb_true_intro; split).
  - unfold from_dict, getitem, get_default. simpl dict_get. cbn [bind].
    unfold RiskCategory_call, Severity_call, Likelihood_call, RiskStatus_call.
    rewrite RiskCategory_of_value_value, Severity_of_value_value,
      Likelihood_of_value_value, RiskStatus_of_value_value.
    reflexivity.
Qed.

Lemma export_risks_round_trip (self : registry) :
  (forall k r, In (k, r) self -> persistable r = true) ->
  exists docs, export_risks_to_dict self = Ok docs
               /\ forallb json_serializable docs = true
               /\ Forall2 (fun kr doc => from_dict doc = Ok (snd kr)) self docs.
Proof.
  unfold export_risks_to_dict, dict_values.
  induction self as [|[k r] self IH]; intros Hp; simpl.
  - exists []. repeat split. constructor.
  - destruct (to_dict_from_dict r) as (d & Hd & Hj & Hf).
    { apply (Hp k). now left. }
    destruct IH as (docs & He & Hjs & Hall).
    { intros k' r' Hin. apply (Hp k'). now right. }
    exists (PDict d :: docs). rewrite Hd. cbn [bind]. rewrite He. cbn [bind].
    repeat split.
    + cbn [forallb]. now rewrite Hj, Hjs.
    + now constructor.
Qed.

Lemma load_records_rebuilds (acc rest : registry) docs :
  Forall2 (fun kr doc => from_dict doc = Ok (snd kr)) rest docs ->
  keyed (acc ++ rest) ->
  load_records acc docs = (acc ++ rest, Ok tt).
Proof.
  intros Hall. revert acc.
  induction Hall as [|[k r] doc rest docs Hdoc Hall IH]; intros acc Hk; simpl.
  - now rewrite app_nil_r.
  - simpl in Hdoc. rewrite Hdoc.
    destruct Hk as [Hnd Hids].
    assert (Hid : id r = k).
    { apply Hids. apply in_or_app. right. now left. }
    rewrite Hid.
    assert (Hnin : ~ In k (dict_keys acc)).
    { unfold dict_keys in *. rewrite map_app in Hnd. simpl in Hnd.
      apply NoDup_remove_2 in Hnd. intros Hin. apply Hnd.
      apply in_or_app. now left. }
    rewrite (dict_set_absent _ _ _ Hnin).
    replace (acc ++ (k, r) :: rest) with ((acc ++ [(k, r)]) ++ rest)
      by now rewrite <- app_assoc.
    apply IH. split.
    + now rewrite <- app_assoc.
    + intros k' r' Hin. apply Hids. now rewrite <- app_assoc in Hin.
Qed.

(** C4, as the code has it.  For a registry in which every risk is stored
    under its own id and holds, in each of its four enumeration fields, a
    member of that field's own enumeration and, in its other fields (the
    open metadata included), only values the JSON document can carry,
    serializing the registry and loading the document into a fresh registry
    gives back the registry: the same risks under the same ids in the same
    order, every field equal. *)
Theorem persist_then_load_round_trip :
  forall self,
    keyed self ->
    (forall k r, In (k, r) self -> persistable r = true) ->
    exists data,
      to_json self = Ok data
      /\ load_from_json init data = (self, Ok tt).
Proof.
  intros self Hk Hp.
  destruct (export_risks_round_trip self Hp) as (docs & He & Hjs & Hall).
  exists (PDict [("risks", PList docs)]). split.
  - unfold to_json. rewrite He. cbn [bind].
    cbn [json_serializable forallb snd]. now rewrite Hjs.
  - unfold load_from_json, py_get, get_default. simpl.
    now apply (load_records_rebuilds [] self docs).
Qed.

(** C4, as the specification words it (for every registry contents), fails
    in two ways.  On a registry whose metadata holds a value JSON cannot
    carry, [to_dict] passes the metadata on as it is, [json.dump] refuses
    the member of the enumeration in it, and there is no document to load.
    On a registry in which [update_risk] has stored a member of another
    enumeration as the severity, the document is written and loaded, and the
    loaded risk has the member of [Severity] with the same value instead. *)
Lemma round_trip_fails_on_misplaced_enum_member :
  keyed Examples.registry_enum_metadata
  /\ to_json Examples.registry_enum_metadata
     = Err (TypeError "Object is not JSON serializable")
  /\ ~ round_trips Examples.registry_enum_metadata
  /\ keyed Examples.registry_wrong_class
  /\ get_risk Examples.registry_wrong_class "RISK-002"
     = Some (mkRisk "RISK-002" (PCategory RiskCategory.PRIVACY)
               (PStr "Data leak") (PStr "Second")
               (PLikelihood Likelihood.HIGH) (PLikelihood Likelihood.LOW)
               (PList []) (PStr "") (PStatus RiskStatus.MITIGATING)
               (PDict []))
  /\ (exists data reloaded,
         to_json Examples.registry_wrong_class = Ok data
         /\ load_from_json init data = (reloaded, Ok tt)
         /\ get_risk reloaded "RISK-002"
            = Some (mkRisk "RISK-002" (PCategory RiskCategory.PRIVACY)
                      (PStr "Data leak") (PStr "Second")
                      (PSeverity Severity.HIGH) (PLikelihood Likelihood.LOW)
                      (PList []) (PStr "") (PStatus RiskStatus.MITIGATING)
                      (PDict [])))
  /\ ~ round_trips Examples.registry_wrong_class.
Proof.
  split; [|split; [|split; [|split; [|split; [|split]]]]].
  - split.
    + repeat constructor. intros [].
    + intros k r [H|[]]. now inversion H.
  - reflexivity.
  - intros (data & H & _). discriminate H.
  - split.
    + repeat constructor; simpl; intuition discriminate.
    + intros k r [H|[H|[]]]; now inversion H.
  - reflexivity.
  - eexists. eexists. split; [reflexivity|]. split; reflexivity.
  - intros (data & H & Hl). inversion H; subst data; clear H.
    discriminate Hl.
Qed.

Lemma from_dict_never_duplicate data e i :
  from_dict data = Err e -> e <> DuplicateId i.
Proof.
  unfold from_dict, getitem, as_id. intros H Hdup. subst e.
  destruct data; try discriminate.
  repeat match type of H with
         | bind ?x _ = _ =>
             let E := fresh "E" in
             destruct x eqn:E; cbn [bind] in H; [|inversion H; subst]
         | Ok _ = Err _ => discriminate H
         end;
    repeat match goal with
           | E : match ?x with _ => _ end = Err _ |- _ =>
               destruct x; try discriminate E
           | E : RiskCategory_call _ = Err _ |- _ =>
               apply RiskCategory_call_error in E; discriminate E
           | E : Severity_call _ = Err _ |- _ =>
               apply Severity_call_error in E; discriminate E
           | E : Likelihood_call _ = Err _ |- _ =>
               apply Likelihood_call_error in E; discriminate E
           | E : RiskStatus_call _ = Err _ |- _ =>
               apply RiskStatus_call_error in E; discriminate E
           end.
Qed.

Lemma load_records_never_duplicate self records i :
  snd (load_records self records) <> Err (DuplicateId i).
Proof.
  revert self. induction records as [|doc records IH]; intros self; simpl.
  - discriminate.
  - destruct (from_dict doc) as [r|e] eqn:E.
    + apply IH.
    + simpl. intros H. inversion H; subst.
      now apply (from_dict_never_duplicate doc _ i E).
Qed.

Lemma load_records_merges self records risks :
  map_result from_dict records = Ok risks ->
  load_records self records
  = (fold_left (fun acc r => dict_set acc (id r) r) risks self, Ok tt).
Proof.
  revert self risks.
  induction records as [|doc records IH]; intros self risks; simpl.
  - intros H. now inversion H.
  - destruct (from_dict doc) as [r|e]; cbn [bind]; [|discriminate].
    destruct (map_result from_dict records) as [rs|e] eqn:E; cbn [bind];
      [|discriminate].
    intros H. inversion H; subst. simpl. now apply IH.
Qed.

Lemma find_app {A : Type} (f : A -> bool) (l1 l2 : list A) :
  find f (l1 ++ l2)
  = match find f l1 with Some x => Some x | None => find f l2 end.
Proof.
  induction l1 as [|x l1 IH]; simpl; [reflexivity|].
  now destruct (f x).
Qed.

Lemma get_after_merge risks (self : registry) i :
  get_risk (fold_left (fun acc r => dict_set acc (id r) r) risks self) i
  = match last_with_id risks i with
    | Some r => Some r
    | None => get_risk self i
    end.
Proof.
  unfold last_with_id, get_risk. revert self.
  induction risks as [|r risks IH]; intros self; simpl.
  - reflexivity.
  - rewrite IH, find_app. destruct (find _ (rev risks)); [reflexivity|].
    simpl. destruct (String.eqb_spec (id r) i) as [<-|Hne].
    + apply dict_get_set_same.
    + apply dict_get_set_other. congruence.
Qed.

(** C5. Loading never raises the duplicate-id error, whatever the document.
    When every record of the document deserializes, the load succeeds and
    stores each record under its id in document order, over whatever was
    there: afterwards an id that occurs in the document maps to the last
    record that has it, and every other id maps to what it mapped to before.
    [load_from_yaml] runs the same loop. *)
Theorem load_merges_last_write_wins :
  forall self data,
    (forall i, snd (load_from_json self data) <> Err (DuplicateId i))
    /\ load_from_yaml self data = load_from_json self data
    /\ (forall doc records risks,
           data = PDict doc ->
           get_default doc "risks" (PList []) = PList records ->
           map_result from_dict records = Ok risks ->
           load_from_json self data
           = (fold_left (fun acc r => dict_set acc (id r) r) risks self, Ok tt)
           /\ forall i,
               get_risk (fst (load_from_json self data)) i
               = match last_with_id risks i with
                 | Some r => Some r
                 | None => get_risk self i
                 end).
Proof.
  intros self data. split; [|split].
  - intros i. unfold load_from_json.
    destruct (bind _ _) as [records|e] eqn:E.
    + apply load_records_never_duplicate.
    + simpl. intros H. inversion H; subst.
      unfold py_get, py_iter in E.
      destruct data; try discriminate E. cbn [bind] in E.
      destruct (get_default d "risks" (PList [])); discriminate E.
  - reflexivity.
  - intros doc records risks -> Hget Hall.
    assert (Heq : load_from_json self (PDict doc)
                  = (fold_left (fun acc r => dict_set acc (id r) r) risks self,
                     Ok tt)).
    { unfold load_from_json, py_get. cbn [bind]. rewrite Hget. simpl.
      now apply load_records_merges. }
    split; [exact Heq|]. intros i. rewrite Heq. apply get_after_merge.
Qed.

(** *** The invariant of the registry is kept by its operations *)

Lemma in_dict_set {V : Type} (d : list (string * V)) k v k' v' :
  In (k', v') (dict_set d k v) -> (k', v') = (k, v) \/ In (k', v') d.
Proof.
  induction d as [|[k0 v0] d IH]; simpl.
  - intros [H|[]]. left. now symmetry.
  - destruct (String.eqb_spec k k0) as [->|Hk]; simpl.
    + intros [H|H]; [left; now symmetry|right; now right].
    + intros [H|H]; [right; now left|].
      destruct (IH H); [now left|right; now right].
Qed.

Lemma dict_keys_set_NoDup {V : Type} (d : list (string * V)) k v :
  NoDup (dict_keys d) -> NoDup (dict_keys (dict_set d k v)).
Proof.
  intros Hnd. destruct (dict_mem d k) eqn:E.
  - now rewrite dict_keys_set_present.
  - rewrite dict_keys_set_absent by assumption.
    apply NoDup_app; [assumption|repeat constructor; intros []|].
    intros x Hin [Hx|[]]. subst x. unfold dict_mem in E.
    assert (Hnone : dict_get d k = None) by now destruct (dict_get d k).
    clear E. unfold dict_keys in Hin. apply in_map_iff in Hin.
    destruct Hin as ([k0 v0] & Hk & Hin). simpl in Hk. subst k0.
    clear Hnd. induction d as [|[k1 v1] d IH]; [contradiction|].
    simpl in Hnone. destruct (String.eqb_spec k k1) as [->|Hne];
      [discriminate|].
    destruct Hin as [Heq|Hin]; [inversion Heq; congruence|auto].
Qed.

Lemma keyed_dict_set self risk :
  keyed self -> keyed (dict_set self (id risk) risk).
Proof.
  intros [Hnd Hids]. split.
  - now apply dict_keys_set_NoDup.
  - intros k r Hin. apply in_dict_set in Hin.
    destruct Hin as [Heq|Hin]; [now inversion Heq|now apply Hids].
Qed.

Lemma keyed_init : keyed init.
Proof. split; [constructor|intros k r []]. Qed.

Lemma add_risk_keyed self i c t d s l m o st md :
  keyed self -> keyed (fst (add_risk self i c t d s l m o st md)).
Proof.
  intros Hk. unfold add_risk. destruct (dict_mem self i); [exact Hk|].
  simpl. exact (keyed_dict_set self (mkRisk i c t d s l _ o st _) Hk).
Qed.

Lemma update_risk_keyed self i kwargs :
  keyed self -> keyed (fst (update_risk self i kwargs)).
Proof.
  intros Hk. unfold update_risk.
  destruct (existsb _ _); [exact Hk|].
  destruct (dict_get self i) as [risk|] eqn:Hget; [|exact Hk].
  destruct (update_fields risk kwargs) as [risk' r] eqn:E. simpl.
  assert (Hid : id risk' = i).
  { replace risk' with (fst (update_fields risk kwargs)) by now rewrite E.
    rewrite update_fields_id. destruct Hk as [_ Hids]. apply Hids.
    clear -Hget. induction self as [|[k0 v0] self IH]; [discriminate|].
    simpl in Hget. destruct (String.eqb_spec i k0) as [->|Hne].
    - inversion Hget. now left.
    - right. auto. }
  rewrite <- Hid. now apply keyed_dict_set.
Qed.

Lemma load_records_keyed self records :
  keyed self -> keyed (fst (load_records self records)).
Proof.
  revert self. induction records as [|doc records IH]; intros self Hk; simpl.
  - exact Hk.
  - destruct (from_dict doc) as [risk|]; [|exact Hk].
    apply IH. now apply keyed_dict_set.
Qed.

(** *** Where persistable risks come from *)

Lemma json_serializable_get d key v :
  json_serializable (PDict d) = true -> dict_get d key = Some v ->
  json_serializable v = true.
Proof.
  cbn [json_serializable].
  induction d as [|[k0 v0] d IH]; cbn [forallb dict_get snd].
  - discriminate.
  - intros H. apply andb_prop in H. destruct H as [H0 Hd].
    destruct (String.eqb key k0); [|now apply IH].
    intros E. inversion E; subst. exact H0.
Qed.

Lemma json_serializable_get_default d key default :
  json_serializable (PDict d) = true -> json_serializable default = true ->
  json_serializable (get_default d key default) = true.
Proof.
  intros Hd Hdef. unfold get_default.
  destruct (dict_get d key) eqn:E; [|exact Hdef].
  now apply (json_serializable_get d key).
Qed.

Lemma RiskCategory_call_member v r :
  RiskCategory_call v = Ok r -> exists c, r = PCategory c.
Proof.
  destruct v; simpl; try discriminate.
  - destruct (RiskCategory.of_value s); intros H; inversion H; eauto.
  - intros H; inversion H; eauto.
Qed.

Lemma Severity_call_member v r :
  Severity_call v = Ok r -> exists c, r = PSeverity c.
Proof.
  destruct v; simpl; try discriminate.
  - destruct (Severity.of_value s); intros H; inversion H; eauto.
  - intros H; inversion H; eauto.
Qed.

Lemma Likelihood_call_member v r :
  Likelihood_call v = Ok r -> exists c, r = PLikelihood c.
Proof.
  destruct v; simpl; try discriminate.
  - destruct (Likelihood.of_value s); intros H; inversion H; eauto.
  - intros H; inversion H; eauto.
Qed.

Lemma RiskStatus_call_member v r :
  RiskStatus_call v = Ok r -> exists c, r = PStatus c.
Proof.
  destruct v; simpl; try discriminate.
  - destruct (RiskStatus.of_value s); intros H; inversion H; eauto.
  - intros H; inversion H; eauto.
Qed.

(** A risk deserialized from a document [json.load] returned is
    persistable. *)
Lemma from_dict_persistable data risk :
  json_serializable data = true -> from_dict data = Ok risk ->
  persistable risk = true.
Proof.
  destruct data as [| | | | | |d| | | |]; try discriminate. intros Hj.
  unfold from_dict, getitem.
  destruct (dict_get d "id") as [idv|] eqn:Eid; cbn [bind]; [|discriminate].
  destruct (dict_get d "category") as [cv|]; cbn [bind]; [|discriminate].
  destruct (RiskCategory_call cv) as [c|] eqn:Ec; cbn [bind]; [|discriminate].
  destruct (dict_get d "title") as [tv|] eqn:Et; cbn [bind]; [|discriminate].
  destruct (dict_get d "description") as [dv|] eqn:Ed; cbn [bind];
    [|discriminate].
  destruct (dict_get d "severity") as [sv|]; cbn [bind]; [|discriminate].
  destruct (Severity_call sv) as [s|] eqn:Es; cbn [bind]; [|discriminate].
  destruct (dict_get d "likelihood") as [lv|]; cbn [bind]; [|discriminate].
  destruct (Likelihood_call lv) as [l|] eqn:El; cbn [bind]; [|discriminate].
  destruct (RiskStatus_call _) as [st|] eqn:Est; cbn [bind]; [|discriminate].
  destruct (as_id idv) as [i|]; cbn [bind]; [|discriminate].
  intros H. inversion H; subst; clear H. unfold persistable. simpl.
  apply RiskCategory_call_member in Ec. destruct Ec as [c' ->].
  apply Severity_call_member in Es. destruct Es as [s' ->].
  apply Likelihood_call_member in El. destruct El as [l' ->].
  apply RiskStatus_call_member in Est. destruct Est as [st' ->].
  rewrite (json_serializable_get d "title" tv Hj Et).
  rewrite (json_serializable_get d "description" dv Hj Ed).
  now rewrite !json_serializable_get_default.
Qed.

(** [add_risk] with arguments of the annotated types stores a persistable
    risk. *)
Lemma add_risk_persistable self i c t d s l m o st md risk :
  json_serializable t = true -> json_serializable d = true ->
  json_serializable m = true -> json_serializable o = true ->
  json_serializable md = true ->
  snd (add_risk self i (PCategory c) t d (PSeverity s) (PLikelihood l)
                m o (PStatus st) md) = Ok risk ->
  persistable risk = true.
Proof.
  intros Ht Hd Hm Ho Hmd. unfold add_risk.
  destruct (dict_mem self i); simpl; [discriminate|].
  intros H. inversion H; subst; clear H. unfold persistable, py_or. simpl.
  rewrite Ht, Hd, Ho.
  destruct (truthy m); destruct (truthy md); now rewrite ?Hm, ?Hmd.
Qed.

(** *** The statements at concrete inputs *)

Lemma example_registry_keyed : keyed Examples.registry.
Proof.
  split.
  - repeat constructor; simpl; intuition discriminate.
  - intros k r [H|[H|[]]]; now inversion H.
Defined.

Lemma example_kwargs_ok : kwargs_ok Examples.kwargs.
Proof.
  split; [|split; [|split]].
  - repeat constructor; simpl; intuition discriminate.
  - simpl. intuition discriminate.
  - simpl. intuition discriminate.
  - intros key [<-|[<-|[<-|[]]]]; reflexivity.
Defined.

Lemma add_risk_duplicate_id_rejected_witness :
  RiskRegistry.get_risk Examples.registry "RISK-001" = Some Examples.risk_001
  /\ add_risk Examples.registry "RISK-001" (PCategory RiskCategory.PRIVACY)
       (PStr "Second Risk") (PStr "Second") (PSeverity Severity.LOW)
       (PLikelihood Likelihood.LOW) PNone (PStr "")
       (PStatus RiskStatus.IDENTIFIED) PNone
     = (Examples.registry, Err (DuplicateId "RISK-001")).
Proof.
  split; [reflexivity|].
  exact (proj1 (add_risk_duplicate_id_rejected
                  Examples.registry "RISK-001" Examples.risk_001
                  (PCategory RiskCategory.PRIVACY) (PStr "Second Risk")
                  (PStr "Second") (PSeverity Severity.LOW)
                  (PLikelihood Likelihood.LOW) PNone (PStr "")
                  (PStatus RiskStatus.IDENTIFIED) PNone eq_refl)).
Defined.

Lemma example_kwargs_valid : valid_enums Examples.kwargs.
Proof.
  intros key s cls [H|[H|[H|[]]]] Hf; inversion H; subst;
    inversion Hf; reflexivity.
Defined.

Lemma not_a_field_assignee : no_field "assignee".
Proof. intros r v H. inversion H. Defined.

Lemma field_holds_inj r key v w :
  field_holds r key v -> field_holds r key w -> v = w.
Proof.
  intros Hv Hw. apply field_holds_getattr in Hv, Hw. congruence.
Qed.

Lemma update_risk_changes_only_supplied_fields_witness :
  kwargs_ok Examples.kwargs
  /\ valid_enums Examples.kwargs
  /\ update_risk Examples.registry "RISK-404" Examples.kwargs
     = (Examples.registry, Err (NotFound "RISK-404"))
  /\ (exists risk',
         fst (update_risk Examples.registry "RISK-001" Examples.kwargs)
         = dict_set Examples.registry "RISK-001" risk'
         /\ snd (update_risk Examples.registry "RISK-001" Examples.kwargs)
            = Ok risk'
         /\ id risk' = "RISK-001"
         /\ title Examples.risk_001 = PStr "First Risk"
         /\ title risk' = PStr "Updated Title"
         /\ severity Examples.risk_001 = PSeverity Severity.HIGH
         /\ severity risk' = PSeverity Severity.CRITICAL
         /\ likelihood risk' = PLikelihood Likelihood.MEDIUM
         /\ owner risk' = PStr "ML Team"
         /\ get_risk (dict_set Examples.registry "RISK-001" risk') "RISK-002"
            = Some Examples.risk_002)
  /\ update_risk Examples.registry "RISK-001" Examples.kwargs
     = update_risk Examples.registry "RISK-001"
         [("title", PStr "Updated Title"); ("severity", PStr "critical")].
Proof.
  split; [exact example_kwargs_ok|].
  split; [exact example_kwargs_valid|].
  destruct (update_risk_changes_only_supplied_fields
              Examples.registry "RISK-404" Examples.kwargs example_kwargs_ok)
    as (Habsent & _ & _).
  destruct (update_risk_changes_only_supplied_fields
              Examples.registry "RISK-001" Examples.kwargs example_kwargs_ok)
    as (_ & Hpresent & Hskip).
  split; [exact (Habsent eq_refl)|]. split.
  - destruct (Hpresent Examples.risk_001 eq_refl)
      as (risk' & Heq & _ & _ & Hother & Hid & Hframe & Hset).
    destruct (Hset example_kwargs_valid) as (Hok & Hsup).
    exists risk'.
    split; [exact Heq|]. split; [exact Hok|]. split; [exact Hid|].
    split; [reflexivity|].
    split.
    { apply (field_holds_inj risk' "title"); [constructor|].
      apply (Hsup "title" (PStr "Updated Title") (PStr "First Risk"));
        [now left|constructor]. }
    split; [reflexivity|].
    split.
    { apply (field_holds_inj risk' "severity"); [constructor|].
      apply (Hsup "severity" (PStr "critical") (PSeverity Severity.HIGH));
        [right; now left|constructor]. }
    split.
    { apply (field_holds_inj risk' "likelihood"); [constructor|].
      apply Hframe; [simpl; intuition discriminate|constructor]. }
    split.
    { apply (field_holds_inj risk' "owner"); [constructor|].
      apply Hframe; [simpl; intuition discriminate|constructor]. }
    rewrite Hother by discriminate. reflexivity.
  - exact (Hskip [("title", PStr "Updated Title");
                  ("severity", PStr "critical")]
                 "assignee" (PStr "QA") [] eq_refl not_a_field_assignee).
Defined.


Lemma from_dict_validates_enumerations_witness :
  (exists cls v,
      from_dict (PDict Examples.record_bad) = Err (InvalidEnumValue cls v))
  /\ from_dict (PDict Examples.record_ok) = Ok Examples.record_ok_risk.
Proof.
  split.
  - apply (proj1 (proj2 (from_dict_validates_enumerations
                           Examples.record_bad)
                    (PStr "RISK-003") (PStr "bias")
                    (PStr "Bias Risk") (PStr "Loaded") (PStr "catastrophic")
                    (PStr "low")
                    eq_refl eq_refl eq_refl eq_refl eq_refl eq_refl)).
    right. left. exists "catastrophic". split; reflexivity.
  - exact (proj2 (proj2 (from_dict_validates_enumerations
                           Examples.record_ok)
                    (PStr "RISK-001") (PStr "bias")
                    (PStr "Bias Risk") (PStr "Loaded") (PStr "high")
                    (PStr "very_low")
                    eq_refl eq_refl eq_refl eq_refl eq_refl eq_refl)
                 "RISK-001" RiskCategory.BIAS Severity.HIGH
                 Likelihood.VERY_LOW RiskStatus.IDENTIFIED
                 eq_refl eq_refl eq_refl eq_refl eq_refl).
Defined.

Lemma persist_then_load_round_trip_witness :
  keyed Examples.registry
  /\ exists data,
      to_json Examples.registry = Ok data
      /\ load_from_json init data = (Examples.registry, Ok tt).
Proof.
  split; [exact example_registry_keyed|].
  apply persist_then_load_round_trip; [exact example_registry_keyed|].
  intros k r [H|[H|[]]]; inversion H; reflexivity.
Defined.

Lemma load_merges_last_write_wins_witness :
  load_from_json Examples.registry (PDict Examples.document)
  = ([("RISK-001", Examples.record_ok_risk); ("RISK-002", Examples.risk_002)],
     Ok tt)
  /\ get_risk (fst (load_from_json Examples.registry
                      (PDict Examples.document))) "RISK-001"
     = Some Examples.record_ok_risk
  /\ get_risk (fst (load_from_json Examples.registry
                      (PDict Examples.document))) "RISK-002"
     = Some Examples.risk_002.
Proof.
  destruct (load_merges_last_write_wins
              Examples.registry (PDict Examples.document))
    as (_ & _ & Hmerge).
  destruct (Hmerge Examples.document [PDict Examples.record_ok]
                   [Examples.record_ok_risk] eq_refl eq_refl eq_refl)
    as [Heq Hget].
  split; [exact Heq|]. split.
  - exact (Hget "RISK-001").
  - exact (Hget "RISK-002").
Defined.

(** ** Further properties of the registry *)

Lemma in_dict_set_present {V : Type} (d : list (string * V)) k v :
  In (k, v) (dict_set d k v).
Proof.
  induction d as [|[k0 v0] d IH]; simpl; [now left|].
  destruct (String.eqb_spec k k0) as [->|Hne]; [now left|now right].
Qed.

Lemma dict_set_set {V : Type} (d : list (string * V)) k v v' :
  dict_set (dict_set d k v) k v' = dict_set d k v'.
Proof.
  induction d as [|[k0 v0] d IH]; simpl.
  - now rewrite String.eqb_refl.
  - destruct (String.eqb_spec k k0) as [->|Hne]; simpl.
    + now rewrite String.eqb_refl.
    + apply String.eqb_neq in Hne. now rewrite Hne, IH.
Qed.

Lemma dict_get_absent_keys {V : Type} (d : list (string * V)) k :
  dict_get d k = None -> ~ In k (dict_keys d).
Proof.
  unfold dict_keys. induction d as [|[k0 v0] d IH]; simpl; [tauto|].
  destruct (String.eqb_spec k k0) as [->|Hne]; [discriminate|].
  intros H [Heq|Hin]; [congruence|now apply IH].
Qed.

(** X1.  An [add_risk] under an id that is not in the registry returns the new
    risk, built from the arguments with a falsy [mitigations] or [metadata]
    replaced by an empty list or dict; the risk is stored last, under its id,
    and what the other ids map to is unchanged. *)
Theorem add_risk_fresh_id_stores :
  forall self i category title description severity likelihood
         mitigations owner status metadata,
    get_risk self i = None ->
    let risk := mkRisk i category title description severity likelihood
                       (if truthy mitigations then mitigations else PList [])
                       owner status
                       (if truthy metadata then metadata else PDict []) in
    add_risk self i category title description severity likelihood
             mitigations owner status metadata
    = (self ++ [(i, risk)], Ok risk)
    /\ get_risk (self ++ [(i, risk)]) i = Some risk
    /\ forall j, j <> i -> get_risk (self ++ [(i, risk)]) j = get_risk self j.
Proof.
  intros self i c t d s l m o st md Hget risk.
  assert (Hset : dict_set self i risk = self ++ [(i, risk)]).
  { apply dict_set_absent. now apply dict_get_absent_keys. }
  unfold add_risk, dict_mem. unfold get_risk in *. rewrite Hget.
  fold (py_or m (PList [])). fold (py_or md (PDict [])).
  unfold py_or. fold risk. rewrite Hset. split; [reflexivity|].
  rewrite <- Hset. split.
  - apply dict_get_set_same.
  - intros j Hj. now apply dict_get_set_other.
Qed.

Lemma add_risk_fresh_id_stores_witness :
  add_risk Examples.registry "RISK-003" (PCategory RiskCategory.BIAS)
           (PStr "Skew") (PStr "Third") (PSeverity Severity.LOW)
           (PLikelihood Likelihood.LOW) PNone (PStr "")
           (PStatus RiskStatus.IDENTIFIED) PNone
  = (Examples.registry
       ++ [("RISK-003",
            mkRisk "RISK-003" (PCategory RiskCategory.BIAS) (PStr "Skew")
                   (PStr "Third") (PSeverity Severity.LOW)
                   (PLikelihood Likelihood.LOW) (PList []) (PStr "")
                   (PStatus RiskStatus.IDENTIFIED) (PDict []))],
     Ok (mkRisk "RISK-003" (PCategory RiskCategory.BIAS) (PStr "Skew")
                (PStr "Third") (PSeverity Severity.LOW)
                (PLikelihood Likelihood.LOW) (PList []) (PStr "")
                (PStatus RiskStatus.IDENTIFIED) (PDict []))).
Proof.
  exact (proj1 (add_risk_fresh_id_stores
                  Examples.registry "RISK-003" (PCategory RiskCategory.BIAS)
                  (PStr "Skew") (PStr "Third") (PSeverity Severity.LOW)
                  (PLikelihood Likelihood.LOW) PNone (PStr "")
                  (PStatus RiskStatus.IDENTIFIED) PNone eq_refl)).
Defined.

Lemma load_from_json_keyed self data :
  keyed self -> keyed (fst (load_from_json self data)).
Proof.
  intros Hk. unfold load_from_json.
  destruct (bind _ _); [now apply load_records_keyed|exact Hk].
Qed.



Lemma RiskCategory_eqb_eq a b : RiskCategory.eqb a b = true <-> a = b.
Proof. destruct a, b; split; intros H; try reflexivity; discriminate H. Qed.

Lemma Severity_eqb_eq a b : Severity.eqb a b = true <-> a = b.
Proof. destruct a, b; split; intros H; try reflexivity; discriminate H. Qed.

Lemma RiskStatus_eqb_eq a b : RiskStatus.eqb a b = true <-> a = b.
Proof. destruct a, b; split; intros H; try reflexivity; discriminate H. Qed.

Lemma filter_filter {A : Type} (f g : A -> bool) l :
  filter g (filter f l) = filter (fun x => f x && g x) l.
Proof.
  induction l as [|x l IH]; simpl; [reflexivity|].
  destruct (f x); simpl; [|exact IH]. destruct (g x); now rewrite IH.
Qed.

Lemma filter_optional {A B : Type} (x : option B) (f : B -> A -> bool) l :
  match x with Some c => filter (f c) l | None => l end
  = filter (fun r => match x with Some c => f c r | None => true end) l.
Proof.
  destruct x; [reflexivity|].
  induction l as [|y l IH]; simpl; [reflexivity|now f_equal].
Qed.

(** [list_risks] as one selection. *)
Lemma list_risks_filter self category severity status owner :
  list_risks self category severity status owner
  = filter
      (fun r =>
         match category with
         | Some c => match RiskRegistry.category r with
                     | PCategory c' => RiskCategory.eqb c' c
                     | _ => false
                     end
         | None => true
         end
         && match severity with
            | Some s => match RiskRegistry.severity r with
                        | PSeverity s' => Severity.eqb s' s
                        | _ => false
                        end
            | None => true
            end
         && match status with
            | Some s => match RiskRegistry.status r with
                        | PStatus s' => RiskStatus.eqb s' s
                        | _ => false
                        end
            | None => true
            end
         && match owner with
            | Some o => if String.eqb o "" then true
                        else match RiskRegistry.owner r with
                             | PStr o' => String.eqb o' o
                             | _ => false
                             end
            | None => true
            end)
      (dict_values self).
Proof.
  unfold list_risks. cbv zeta.
  rewrite (filter_optional category
             (fun c r => match RiskRegistry.category r with
                         | PCategory c' => RiskCategory.eqb c' c
                         | _ => false
                         end)).
  rewrite (filter_optional severity
             (fun s r => match RiskRegistry.severity r with
                         | PSeverity s' => Severity.eqb s' s
                         | _ => false
                         end)).
  rewrite (filter_optional status
             (fun s r => match RiskRegistry.status r with
                         | PStatus s' => RiskStatus.eqb s' s
                         | _ => false
                         end)).
  destruct owner as [o|]; [destruct (String.eqb o "")|];
    rewrite !filter_filter; apply filter_ext; intros r; cbv iota;
    rewrite ?andb_true_r, ?andb_assoc; reflexivity.
Qed.

(** X3.  [list_risks] returns the risks that pass every filter given, and only
    those, as a selection of the registry's risks in insertion order; an empty
    owner filter selects nothing out. *)
Theorem list_risks_selects_by_all_filters :
  forall self category severity status owner,
    (exists keep, list_risks self category severity status owner
                  = filter keep (dict_values self))
    /\ (forall r, In r (list_risks self category severity status owner)
                  <-> In r (dict_values self)
                      /\ passes category severity status owner r)
    /\ list_risks self category severity status (Some "")
       = list_risks self category severity status None
    /\ list_risks self None None None None = dict_values self.
Proof.
  intros self category severity status owner.
  split; [|split; [|split]]; try reflexivity.
  - eexists. apply list_risks_filter.
  - intros r. rewrite list_risks_filter, filter_In, !andb_true_iff.
    unfold passes.
    assert (Hc : match category with
                 | Some c => match RiskRegistry.category r with
                             | PCategory c' => RiskCategory.eqb c' c
                             | _ => false
                             end
                 | None => true
                 end = true
                 <-> forall c, category = Some c ->
                               RiskRegistry.category r = PCategory c).
    { destruct category as [c|]; [|split; [discriminate|reflexivity]].
      split.
      - intros H c0 E. inversion E; subst.
        destruct (RiskRegistry.category r); try discriminate H.
        apply RiskCategory_eqb_eq in H. now subst.
      - intros H. rewrite (H c eq_refl). now apply RiskCategory_eqb_eq. }
    assert (Hs : match severity with
                 | Some s => match RiskRegistry.severity r with
                             | PSeverity s' => Severity.eqb s' s
                             | _ => false
                             end
                 | None => true
                 end = true
                 <-> forall s, severity = Some s ->
                               RiskRegistry.severity r = PSeverity s).
    { destruct severity as [s|]; [|split; [discriminate|reflexivity]].
      split.
      - intros H s0 E. inversion E; subst.
        destruct (RiskRegistry.severity r); try discriminate H.
        apply Severity_eqb_eq in H. now subst.
      - intros H. rewrite (H s eq_refl). now apply Severity_eqb_eq. }
    assert (Hst : match status with
                  | Some s => match RiskRegistry.status r with
                              | PStatus s' => RiskStatus.eqb s' s
                              | _ => false
                              end
                  | None => true
                  end = true
                  <-> forall s, status = Some s ->
                                RiskRegistry.status r = PStatus s).
    { destruct status as [s|]; [|split; [discriminate|reflexivity]].
      split.
      - intros H s0 E. inversion E; subst.
        destruct (RiskRegistry.status r); try discriminate H.
        apply RiskStatus_eqb_eq in H. now subst.
      - intros H. rewrite (H s eq_refl). now apply RiskStatus_eqb_eq. }
    assert (Ho : match owner with
                 | Some o => if String.eqb o "" then true
                             else match RiskRegistry.owner r with
                                  | PStr o' => String.eqb o' o
                                  | _ => false
                                  end
                 | None => true
                 end = true
                 <-> forall o, owner = Some o -> o <> "" ->
                               RiskRegistry.owner r = PStr o).
    { destruct owner as [o|]; [|split; [discriminate|reflexivity]].
      destruct (String.eqb_spec o "") as [->|Hne]; split.
      - intros _ o0 E Hne. inversion E; subst. now contradiction Hne.
      - reflexivity.
      - intros H o0 E _. inversion E; subst.
        destruct (RiskRegistry.owner r); try discriminate H.
        apply String.eqb_eq in H. now subst.
      - intros H. rewrite (H o eq_refl Hne). apply String.eqb_refl. }
    rewrite Hc, Hs, Hst, Ho. tauto.
Qed.

Lemma lookup_count_up d k v :
  lookup_count (count_up d k) v
  = lookup_count d v + (if String.eqb k v then 1 else 0).
Proof.
  unfold lookup_count, count_up.
  destruct (String.eqb_spec k v) as [->|Hne].
  - rewrite dict_get_set_same. reflexivity.
  - rewrite dict_get_set_other by congruence. now rewrite Nat.add_0_r.
Qed.

Lemma count_risks_tallies rs a b c a' b' c' :
  count_risks rs a b c = Ok (a', b', c') ->
  forall v,
    lookup_count a' v = lookup_count a v + tally severity rs v
    /\ lookup_count b' v = lookup_count b v + tally status rs v
    /\ lookup_count c' v = lookup_count c v + tally category rs v.
Proof.
  revert a b c. induction rs as [|r rs IH]; intros a b c; simpl.
  - intros H v. inversion H; subst. unfold tally. simpl.
    now rewrite !Nat.add_0_r.
  - unfold tally. simpl.
    destruct (enum_value (severity r)) as [sev|]; cbn [bind]; [|discriminate].
    destruct (enum_value (status r)) as [sta|]; cbn [bind]; [|discriminate].
    destruct (enum_value (category r)) as [cat|]; cbn [bind]; [|discriminate].
    intros H v. destruct (IH _ _ _ H v) as (Ha & Hb & Hc).
    rewrite Ha, Hb, Hc, !lookup_count_up. unfold tally.
    destruct (String.eqb sev v), (String.eqb sta v), (String.eqb cat v);
      simpl; repeat split; rewrite ?Nat.add_0_r, <- ?Nat.add_assoc;
      reflexivity.
Qed.

Lemma count_up_positive d k :
  (forall v n, dict_get d v = Some n -> 0 < n) ->
  forall v n, dict_get (count_up d k) v = Some n -> 0 < n.
Proof.
  intros Hd v n. unfold count_up.
  destruct (String.eqb_spec v k) as [->|Hne].
  - rewrite dict_get_set_same. intros H. inversion H.
    rewrite Nat.add_1_r. apply Nat.lt_0_succ.
  - rewrite dict_get_set_other by assumption. apply Hd.
Qed.

Lemma count_risks_positive rs a b c a' b' c' :
  count_risks rs a b c = Ok (a', b', c') ->
  (forall v n, dict_get a v = Some n -> 0 < n) ->
  (forall v n, dict_get b v = Some n -> 0 < n) ->
  (forall v n, dict_get c v = Some n -> 0 < n) ->
  (forall v n, dict_get a' v = Some n -> 0 < n)
  /\ (forall v n, dict_get b' v = Some n -> 0 < n)
  /\ (forall v n, dict_get c' v = Some n -> 0 < n).
Proof.
  revert a b c. induction rs as [|r rs IH]; intros a b c; simpl.
  - intros H. inversion H; subst. auto.
  - destruct (enum_value (severity r)) as [sev|]; cbn [bind]; [|discriminate].
    destruct (enum_value (status r)) as [sta|]; cbn [bind]; [|discriminate].
    destruct (enum_value (category r)) as [cat|]; cbn [bind]; [|discriminate].
    intros H Ha Hb Hc. apply (IH _ _ _ H); now apply count_up_positive.
Qed.

(** X4.  When [get_summary] returns, [total] is the number of risks and each
    of the three tables maps a value to the number of risks that hold a member
    of that value in the field; a value no risk holds has no entry (no entry
    counts zero). *)
Theorem get_summary_counts_risks :
  forall self sm,
    get_summary self = Ok sm ->
    total sm = length self
    /\ (forall v,
           lookup_count (by_severity sm) v = tally severity (dict_values self) v
           /\ lookup_count (by_status sm) v = tally status (dict_values self) v
           /\ lookup_count (by_category sm) v
              = tally category (dict_values self) v)
    /\ (forall v n, dict_get (by_severity sm) v = Some n -> 0 < n)
    /\ (forall v n, dict_get (by_status sm) v = Some n -> 0 < n)
    /\ (forall v n, dict_get (by_category sm) v = Some n -> 0 < n).
Proof.
  intros self sm. unfold get_summary.
  destruct (count_risks (dict_values self) [] [] []) as [[[a b] c]|] eqn:E;
    cbn [bind]; [|discriminate].
  intros H. inversion H; subst; clear H. cbn [total by_severity by_status by_category].
  split; [reflexivity|]. split.
  - intros v. exact (count_risks_tallies _ _ _ _ _ _ _ E v).
  - apply (count_risks_positive _ _ _ _ _ _ _ E); intros v n H; discriminate H.
Qed.

Lemma get_summary_counts_risks_witness :
  exists sm,
    get_summary Examples.registry = Ok sm
    /\ total sm = 2
    /\ lookup_count (by_severity sm) "critical" = 1
    /\ lookup_count (by_severity sm) "low" = 0.
Proof.
  eexists. split; [reflexivity|].
  destruct (get_summary_counts_risks Examples.registry _ eq_refl)
    as (Ht & Hv & _).
  split; [exact Ht|]. split.
  - exact (proj1 (Hv "critical")).
  - exact (proj1 (Hv "low")).
Defined.

Lemma enum_value_error v e :
  enum_value v = Err e -> e = AttributeError "value".
Proof. destruct v; simpl; intros H; now inversion H. Qed.

Lemma count_risks_raises rs a b c r :
  In r rs ->
  (exists e, enum_value (severity r) = Err e)
  \/ (exists e, enum_value (status r) = Err e)
  \/ (exists e, enum_value (category r) = Err e) ->
  count_risks rs a b c = Err (AttributeError "value").
Proof.
  revert a b c. induction rs as [|r0 rs IH]; intros a b c Hin Hbad;
    [contradiction|]. simpl.
  destruct (enum_value (severity r0)) as [sev|e] eqn:Es; cbn [bind].
  2:{ now rewrite (enum_value_error _ _ Es). }
  destruct (enum_value (status r0)) as [sta|e] eqn:Et; cbn [bind].
  2:{ now rewrite (enum_value_error _ _ Et). }
  destruct (enum_value (category r0)) as [cat|e] eqn:Ec; cbn [bind].
  2:{ now rewrite (enum_value_error _ _ Ec). }
  destruct Hin as [->|Hin]; [|now apply IH].
  destruct Hbad as [[e H]|[[e H]|[e H]]]; congruence.
Qed.

Lemma to_dict_error r e : to_dict r = Err e -> e = AttributeError "value".
Proof.
  unfold to_dict.
  destruct (enum_value (category r)) eqn:E1; cbn [bind];
    [|intros H; inversion H; subst; now apply enum_value_error in E1].
  destruct (enum_value (severity r)) eqn:E2; cbn [bind];
    [|intros H; inversion H; subst; now apply enum_value_error in E2].
  destruct (enum_value (likelihood r)) eqn:E3; cbn [bind];
    [|intros H; inversion H; subst; now apply enum_value_error in E3].
  destruct (enum_value (status r)) eqn:E4; cbn [bind];
    [|intros H; inversion H; subst; now apply enum_value_error in E4].
  discriminate.
Qed.

Lemma export_raises (self : registry) k r :
  In (k, r) self -> (exists e, to_dict r = Err e) ->
  export_risks_to_dict self = Err (AttributeError "value").
Proof.
  unfold export_risks_to_dict, dict_values.
  induction self as [|[k0 r0] self IH]; intros Hin Hbad; [contradiction|].
  simpl. destruct (to_dict r0) as [d|e] eqn:E; cbn [bind].
  2:{ now rewrite (to_dict_error _ _ E). }
  destruct Hin as [Heq|Hin].
  - inversion Heq; subst. destruct Hbad as [e He]. congruence.
  - now rewrite (IH Hin Hbad).
Qed.

(** X5.  [update_risk] converts strs only: any other value given for an
    enumeration field is stored as it is.  When the value is not a member of
    an enumeration, the call still returns normally, and from then on
    [get_summary] (for category, severity and status) and the export of the
    registry raise [AttributeError]. *)
Theorem update_risk_stores_unchecked_value :
  forall self i risk key value,
    get_risk self i = Some risk ->
    In key ["category"; "severity"; "status"] ->
    (forall s, value <> PStr s) ->
    (exists e, enum_value value = Err e) ->
    exists risk',
      update_risk self i [(key, value)] = (dict_set self i risk', Ok risk')
      /\ getattr risk' key = Some value
      /\ get_summary (dict_set self i risk') = Err (AttributeError "value")
      /\ to_json (dict_set self i risk') = Err (AttributeError "value").
Proof.
  intros self i risk key value Hget Hkey Hstr Hbad.
  assert (Hh : hasattr key = true).
  { destruct Hkey as [<-|[<-|[<-|[]]]]; reflexivity. }
  assert (Hco : coerce key value = Ok value).
  { unfold coerce. destruct value; try reflexivity.
    now contradiction (Hstr s). }
  assert (Hid : ~ In "id" (map fst [(key, value)])).
  { simpl. intros [H|[]]. subst key.
    destruct Hkey as [H|[H|[H|[]]]]; discriminate H. }
  assert (Hself : ~ In "self" (map fst [(key, value)])).
  { simpl. intros [H|[]]. subst key.
    destruct Hkey as [H|[H|[H|[]]]]; discriminate H. }
  exists (setattr risk key value).
  rewrite (update_risk_eq _ _ _ _ Hid Hself Hget). cbn [update_fields].
  rewrite Hh, Hco. cbn [fst snd].
  assert (Hga : getattr (setattr risk key value) key = Some value).
  { apply getattr_setattr_same; [exact Hh|].
    intros ->. apply Hid. now left. }
  assert (Hin : In (i, setattr risk key value)
                   (dict_set self i (setattr risk key value)))
    by apply in_dict_set_present.
  assert (Hfield : (exists e, enum_value (severity (setattr risk key value)) = Err e)
                   \/ (exists e, enum_value (status (setattr risk key value)) = Err e)
                   \/ (exists e, enum_value (category (setattr risk key value)) = Err e)).
  { destruct risk. destruct Hkey as [<-|[<-|[<-|[]]]]; simpl; auto. }
  split; [reflexivity|]. split; [exact Hga|]. split.
  - unfold get_summary.
    rewrite (count_risks_raises _ [] [] [] (setattr risk key value));
      [reflexivity| |exact Hfield].
    unfold dict_values. apply in_map_iff.
    exists (i, setattr risk key value). now split.
  - unfold to_json.
    rewrite (export_raises _ i (setattr risk key value) Hin); [reflexivity|].
    unfold to_dict.
    destruct Hbad as [e He].
    destruct risk. destruct Hkey as [<-|[<-|[<-|[]]]]; simpl;
      rewrite ?He; cbn [bind];
      repeat match goal with
             | |- context [bind (enum_value ?x) _] =>
                 destruct (enum_value x); cbn [bind]
             end; try rewrite He; cbn [bind]; eauto.
Qed.

Lemma update_risk_stores_unchecked_value_witness :
  exists risk',
    update_risk Examples.registry "RISK-001" [("severity", PInt 5)]
    = (dict_set Examples.registry "RISK-001" risk', Ok risk')
    /\ getattr risk' "severity" = Some (PInt 5)
    /\ get_summary (dict_set Examples.registry "RISK-001" risk')
       = Err (AttributeError "value")
    /\ to_json (dict_set Examples.registry "RISK-001" risk')
       = Err (AttributeError "value").
Proof.
  apply (update_risk_stores_unchecked_value
           Examples.registry "RISK-001" Examples.risk_001 "severity" (PInt 5)
           eq_refl).
  - right. now left.
  - intros s. discriminate.
  - eexists. reflexivity.
Defined.

Lemma update_fields_app risk k1 k2 :
  update_fields risk (k1 ++ k2)
  = match update_fields risk k1 with
    | (risk1, Ok _) => update_fields risk1 k2
    | (risk1, Err e) => (risk1, Err e)
    end.
Proof.
  revert risk. induction k1 as [|[key value] k1 IH]; intros risk; simpl.
  - reflexivity.
  - destruct (hasattr key); [|apply IH].
    destruct (coerce key value); [apply IH|reflexivity].
Qed.

(** X6.  One [update_risk] call with the keywords [k1] followed by [k2] leaves
    what the call with [k1] followed, when that returns, by the call with [k2]
    leaves, and returns or raises the same; when the call with [k1] raises, so
    does the combined call, with the same registry. *)
Theorem update_risk_composes :
  forall self i k1 k2,
    kwargs_ok (k1 ++ k2) ->
    (forall self1 risk1,
        update_risk self i k1 = (self1, Ok risk1) ->
        update_risk self i (k1 ++ k2) = update_risk self1 i k2)
    /\ (forall self1 e,
           update_risk self i k1 = (self1, Err e) ->
           update_risk self i (k1 ++ k2) = (self1, Err e)).
Proof.
  intros self i k1 k2 (_ & Hid & Hself & _).
  assert (Hid1 : ~ In "id" (map fst k1)).
  { intros H. apply Hid. rewrite map_app. apply in_or_app. now left. }
  assert (Hid2 : ~ In "id" (map fst k2)).
  { intros H. apply Hid. rewrite map_app. apply in_or_app. now right. }
  assert (Hself1 : ~ In "self" (map fst k1)).
  { intros H. apply Hself. rewrite map_app. apply in_or_app. now left. }
  assert (Hself2 : ~ In "self" (map fst k2)).
  { intros H. apply Hself. rewrite map_app. apply in_or_app. now right. }
  unfold update_risk.
  rewrite (no_bound_check _ Hid Hself), (no_bound_check _ Hid1 Hself1),
    (no_bound_check _ Hid2 Hself2).
  destruct (dict_get self i) as [risk|] eqn:Hget.
  - rewrite update_fields_app.
    destruct (update_fields risk k1) as [risk1 [[]|e1]]; split.
    + intros self1 r1 H. inversion H; subst; clear H.
      rewrite dict_get_set_same.
      destruct (update_fields r1 k2) as [risk2 r2].
      now rewrite dict_set_set.
    + intros self1 e H. discriminate H.
    + intros self1 r1 H. discriminate H.
    + intros self1 e H. now inversion H.
  - split.
    + intros self1 r1 H. discriminate H.
    + intros self1 e H. now inversion H.
Qed.

Lemma update_risk_composes_witness :
  update_risk Examples.registry "RISK-001" Examples.kwargs
  = update_risk
      (fst (update_risk Examples.registry "RISK-001"
              [("title", PStr "Updated Title")]))
      "RISK-001" [("severity", PStr "critical"); ("assignee", PStr "QA")].
Proof.
  exact (proj1 (update_risk_composes Examples.registry "RISK-001"
                  [("title", PStr "Updated Title")]
                  [("severity", PStr "critical"); ("assignee", PStr "QA")]
                  example_kwargs_ok)
               _ _ eq_refl).
Defined.

Lemma load_records_app self pre post :
  load_records self (pre ++ post)
  = match load_records self pre with
    | (self1, Ok _) => load_records self1 post
    | (self1, Err e) => (self1, Err e)
    end.
Proof.
  revert self. induction pre as [|doc pre IH]; intros self; simpl.
  - reflexivity.
  - destruct (from_dict doc); [apply IH|reflexivity].
Qed.

(** X7.  A load stops at the first record [from_dict] rejects and raises what
    [from_dict] raised: the records before it stay loaded, the records after
    it are never looked at.  A document that is a dict without the key [risks]
    loads nothing and succeeds; a document that is not a dict raises
    [AttributeError] and leaves the registry as it was. *)
Theorem load_stops_at_first_bad_record :
  forall self,
    (forall doc pre risks bad e post,
        get_default doc "risks" (PList []) = PList (pre ++ bad :: post) ->
        map_result from_dict pre = Ok risks ->
        str_id bad = true ->
        from_dict bad = Err e ->
        load_from_json self (PDict doc)
        = (fold_left (fun acc r => dict_set acc (id r) r) risks self, Err e))
    /\ (forall doc,
           dict_get doc "risks" = None ->
           load_from_json self (PDict doc) = (self, Ok tt))
    /\ (forall data,
           (forall doc, data <> PDict doc) ->
           load_from_json self data = (self, Err (AttributeError "get"))).
Proof.
  intros self. split; [|split].
  - intros doc pre risks bad e post Hget Hpre _ Hbad.
    unfold load_from_json, py_get. cbn [bind]. rewrite Hget. simpl.
    rewrite load_records_app, (load_records_merges _ _ _ Hpre).
    simpl. now rewrite Hbad.
  - intros doc Hget. unfold load_from_json, py_get, get_default.
    now rewrite Hget.
  - intros data Hnot. unfold load_from_json, py_get.
    destruct data; try reflexivity. now contradiction (Hnot d).
Qed.

Lemma load_stops_at_first_bad_record_witness :
  load_from_json Examples.registry
    (PDict [("risks", PList ([PDict Examples.record_ok]
                               ++ PDict Examples.record_bad
                               :: [PDict Examples.record_ok]))])
  = ([("RISK-001", Examples.record_ok_risk); ("RISK-002", Examples.risk_002)],
     Err (InvalidEnumValue cls_Severity (PStr "catastrophic"))).
Proof.
  exact (proj1 (load_stops_at_first_bad_record Examples.registry)
               [("risks", PList ([PDict Examples.record_ok]
                                   ++ PDict Examples.record_bad
                                   :: [PDict Examples.record_ok]))]
               [PDict Examples.record_ok] [Examples.record_ok_risk]
               (PDict Examples.record_bad)
               (InvalidEnumValue cls_Severity (PStr "catastrophic"))
               [PDict Examples.record_ok] eq_refl eq_refl eq_refl eq_refl).
Defined.

(** X8.  [from_dict] accepts no record that lacks one of the six keys it
    subscripts: the call raises, and what it raises is the [KeyError] of a
    missing key or the invalid-enum-value error of a field before it.  A
    record without [id] always raises [KeyError] for [id].  The four other
    keys may be absent. *)
Theorem from_dict_requires_six_keys :
  forall data,
    (forall key,
        In key required_keys -> dict_get data key = None ->
        exists e,
          from_dict (PDict data) = Err e
          /\ ((exists k, e = KeyError k /\ In k required_keys
                         /\ dict_get data k = None)
              \/ exists cls v, e = InvalidEnumValue cls v))
    /\ (dict_get data "id" = None ->
        from_dict (PDict data) = Err (KeyError "id"))
    /\ (forall risk,
           from_dict (PDict data) = Ok risk ->
           mitigations risk = get_default data "mitigations" (PList [])
           /\ owner risk = get_default data "owner" (PStr "")
           /\ metadata risk = get_default data "metadata" (PDict [])
           /\ (dict_get data "status" = None ->
               status risk = PStatus RiskStatus.IDENTIFIED)).
Proof.
  intros data.
  assert (Hshape :
            (exists risk, from_dict (PDict data) = Ok risk
                          /\ (forall key, In key required_keys ->
                                          dict_get data key <> None)
                          /\ mitigations risk
                             = get_default data "mitigations" (PList [])
                          /\ owner risk = get_default data "owner" (PStr "")
                          /\ metadata risk
                             = get_default data "metadata" (PDict [])
                          /\ RiskStatus_call
                               (get_default data "status" (PStr "identified"))
                             = Ok (status risk))
            \/ (exists e, from_dict (PDict data) = Err e
                          /\ ((exists k, e = KeyError k /\ In k required_keys
                                         /\ dict_get data k = None)
                              \/ (exists cls v, e = InvalidEnumValue cls v)
                              \/ (e = TypeError "id is not a str"
                                  /\ forall key, In key required_keys ->
                                                 dict_get data key <> None)))).
  { unfold from_dict, getitem, required_keys.
    destruct (dict_get data "id") as [idv|] eqn:E1; cbn [bind].
    2:{ right. eexists. split; [reflexivity|]. left. exists "id".
        split; [reflexivity|split; [simpl; tauto|assumption]]. }
    destruct (dict_get data "category") as [cv|] eqn:E2; cbn [bind].
    2:{ right. eexists. split; [reflexivity|]. left. exists "category".
        split; [reflexivity|split; [simpl; tauto|assumption]]. }
    destruct (RiskCategory_call cv) as [c|e] eqn:Ec; cbn [bind].
    2:{ right. eexists. split; [reflexivity|]. right. left.
        apply RiskCategory_call_error in Ec. eauto. }
    destruct (dict_get data "title") as [tv|] eqn:E3; cbn [bind].
    2:{ right. eexists. split; [reflexivity|]. left. exists "title".
        split; [reflexivity|split; [simpl; tauto|assumption]]. }
    destruct (dict_get data "description") as [dv|] eqn:E4; cbn [bind].
    2:{ right. eexists. split; [reflexivity|]. left. exists "description".
        split; [reflexivity|split; [simpl; tauto|assumption]]. }
    destruct (dict_get data "severity") as [sv|] eqn:E5; cbn [bind].
    2:{ right. eexists. split; [reflexivity|]. left. exists "severity".
        split; [reflexivity|split; [simpl; tauto|assumption]]. }
    destruct (Severity_call sv) as [s|e] eqn:Es; cbn [bind].
    2:{ right. eexists. split; [reflexivity|]. right. left.
        apply Severity_call_error in Es. eauto. }
    destruct (dict_get data "likelihood") as [lv|] eqn:E6; cbn [bind].
    2:{ right. eexists. split; [reflexivity|]. left. exists "likelihood".
        split; [reflexivity|split; [simpl; tauto|assumption]]. }
    destruct (Likelihood_call lv) as [l|e] eqn:El; cbn [bind].
    2:{ right. eexists. split; [reflexivity|]. right. left.
        apply Likelihood_call_error in El. eauto. }
    destruct (RiskStatus_call _) as [st|e] eqn:Est; cbn [bind].
    2:{ right. eexists. split; [reflexivity|]. right. left.
        apply RiskStatus_call_error in Est. eauto. }
    assert (Hall : forall key,
               In key ["id"; "category"; "title"; "description"; "severity";
                       "likelihood"] -> dict_get data key <> None).
    { intros key [<-|[<-|[<-|[<-|[<-|[<-|[]]]]]]]; congruence. }
    destruct (as_id idv) as [i|e] eqn:Ei; cbn [bind].
    - left. eexists. split; [reflexivity|]. simpl. auto 10.
    - right. eexists. split; [reflexivity|]. right. right. split; [|exact Hall].
      destruct idv; simpl in Ei; inversion Ei; reflexivity. }
  split; [|split].
  - intros key Hin Hnone.
    destruct Hshape as [(risk & _ & Hall & _)|(e & He & Hcase)].
    + now contradiction (Hall key Hin).
    + exists e. split; [exact He|].
      destruct Hcase as [H|[H|[_ Hall]]]; [now left|now right|].
      now contradiction (Hall key Hin).
  - intros Hnone. unfold from_dict, getitem. now rewrite Hnone.
  - intros risk Hok.
    destruct Hshape as [(risk' & Hok' & _ & Hm & Ho & Hmd & Hst)|(e & He & _)];
      [|congruence].
    rewrite Hok in Hok'. inversion Hok'; subst risk'.
    repeat split; try assumption.
    intros Hnone. unfold get_default in Hst. rewrite Hnone in Hst.
    simpl in Hst. now inversion Hst.
Qed.

Lemma from_dict_requires_six_keys_witness :
  from_dict (PDict [("category", PStr "bias"); ("title", PStr "No id")])
  = Err (KeyError "id")
  /\ status Examples.record_ok_risk = PStatus RiskStatus.IDENTIFIED.
Proof.
  destruct (from_dict_requires_six_keys
              [("category", PStr "bias"); ("title", PStr "No id")])
    as (_ & Hid & _).
  destruct (from_dict_requires_six_keys Examples.record_ok)
    as (_ & _ & Hdefaults).
  split; [exact (Hid eq_refl)|].
  exact (proj2 (proj2 (proj2 (Hdefaults Examples.record_ok_risk eq_refl)))
               eq_refl).
Defined.

Lemma RiskCategory_call_str s v :
  RiskCategory_call (PStr s) = Ok v ->
  exists c, v = PCategory c /\ RiskCategory.value c = s.
Proof.
  cbn [RiskCategory_call]. unfold RiskCategory.of_value.
  destruct (find _ RiskCategory.members) as [c|] eqn:E; [|discriminate].
  intros [= <-]. exists c. split; [reflexivity|].
  apply find_some in E. now apply String.eqb_eq.
Qed.

Lemma Severity_call_str s v :
  Severity_call (PStr s) = Ok v ->
  exists c, v = PSeverity c /\ Severity.value c = s.
Proof.
  cbn [Severity_call]. unfold Severity.of_value.
  destruct (find _ Severity.members) as [c|] eqn:E; [|discriminate].
  intros [= <-]. exists c. split; [reflexivity|].
  apply find_some in E. now apply String.eqb_eq.
Qed.

Lemma Likelihood_call_str s v :
  Likelihood_call (PStr s) = Ok v ->
  exists c, v = PLikelihood c /\ Likelihood.value c = s.
Proof.
  cbn [Likelihood_call]. unfold Likelihood.of_value.
  destruct (find _ Likelihood.members) as [c|] eqn:E; [|discriminate].
  intros [= <-]. exists c. split; [reflexivity|].
  apply find_some in E. now apply String.eqb_eq.
Qed.

Lemma RiskStatus_call_str s v :
  RiskStatus_call (PStr s) = Ok v ->
  exists c, v = PStatus c /\ RiskStatus.value c = s.
Proof.
  cbn [RiskStatus_call]. unfold RiskStatus.of_value.
  destruct (find _ RiskStatus.members) as [c|] eqn:E; [|discriminate].
  intros [= <-]. exists c. split; [reflexivity|].
  apply find_some in E. now apply String.eqb_eq.
Qed.

(** What [from_dict] makes of a record [to_dict] wrote. *)
Lemma from_dict_of_to_dict r d r' :
  to_dict r = Ok d -> from_dict (PDict d) = Ok r' ->
  exists c s l st,
    r' = mkRisk (id r) (PCategory c) (title r) (description r) (PSeverity s)
                (PLikelihood l) (mitigations r) (owner r) (PStatus st)
                (metadata r)
    /\ enum_value (category r) = Ok (RiskCategory.value c)
    /\ enum_value (severity r) = Ok (Severity.value s)
    /\ enum_value (likelihood r) = Ok (Likelihood.value l)
    /\ enum_value (status r) = Ok (RiskStatus.value st).
Proof.
  unfold to_dict.
  destruct (enum_value (category r)) as [cv|] eqn:Ec; cbn [bind];
    [|discriminate].
  destruct (enum_value (severity r)) as [sv|] eqn:Es; cbn [bind];
    [|discriminate].
  destruct (enum_value (likelihood r)) as [lv|] eqn:El; cbn [bind];
    [|discriminate].
  destruct (enum_value (status r)) as [stv|] eqn:Est; cbn [bind];
    [|discriminate].
  intros [= <-]. unfold from_dict, getitem, get_default, as_id.
  cbn [dict_get String.eqb Ascii.eqb Bool.eqb bind].
  destruct (RiskCategory_call (PStr cv)) as [c'|] eqn:Hc; cbn [bind];
    [|discriminate].
  destruct (Severity_call (PStr sv)) as [s'|] eqn:Hs; cbn [bind];
    [|discriminate].
  destruct (Likelihood_call (PStr lv)) as [l'|] eqn:Hl; cbn [bind];
    [|discriminate].
  destruct (RiskStatus_call (PStr stv)) as [st'|] eqn:Hst; cbn [bind];
    [|discriminate].
  intros [= <-].
  apply RiskCategory_call_str in Hc. destruct Hc as (c & -> & <-).
  apply Severity_call_str in Hs. destruct Hs as (s & -> & <-).
  apply Likelihood_call_str in Hl. destruct Hl as (l & -> & <-).
  apply RiskStatus_call_str in Hst. destruct Hst as (st & -> & <-).
  exists c, s, l, st. auto.
Qed.

(** X9.  [from_dict] gives back the risk [to_dict] was applied to exactly
    when the four enumeration fields of the risk hold members of their own
    enumerations.  Whenever both return, the rebuilt risk has the id, title,
    description, mitigations, owner and metadata of the risk and, in each
    enumeration field, the member of that field's own enumeration that has
    the value of what the risk held there. *)
Theorem from_dict_inverts_to_dict :
  forall r,
    ((exists d, to_dict r = Ok d /\ from_dict (PDict d) = Ok r)
     <-> own_enums r = true)
    /\ forall d r',
        to_dict r = Ok d -> from_dict (PDict d) = Ok r' ->
        id r' = id r /\ title r' = title r
        /\ description r' = description r
        /\ mitigations r' = mitigations r /\ owner r' = owner r
        /\ metadata r' = metadata r
        /\ own_enums r' = true
        /\ enum_value (category r') = enum_value (category r)
        /\ enum_value (severity r') = enum_value (severity r)
        /\ enum_value (likelihood r') = enum_value (likelihood r)
        /\ enum_value (status r') = enum_value (status r).
Proof.
  intros r. split; [split|].
  - intros (d & Hd & Hf).
    destruct (from_dict_of_to_dict r d r Hd Hf) as (c & s & l & st & Hr & _).
    rewrite Hr. reflexivity.
  - destruct r as [i c t d s l m o st md]. unfold own_enums. cbn.
    destruct c; try discriminate. destruct s; try discriminate.
    destruct l; try discriminate. destruct st; try discriminate.
    intros _. eexists. split; [reflexivity|].
    unfold from_dict, getitem, get_default. simpl dict_get. cbn [bind].
    unfold RiskCategory_call, Severity_call, Likelihood_call, RiskStatus_call.
    rewrite RiskCategory_of_value_value, Severity_of_value_value,
      Likelihood_of_value_value, RiskStatus_of_value_value.
    reflexivity.
  - intros d r' Hd Hf.
    destruct (from_dict_of_to_dict r d r' Hd Hf)
      as (c & s & l & st & -> & Hc & Hs & Hl & Hst).
    cbn. rewrite Hc, Hs, Hl, Hst. repeat split; reflexivity.
Qed.

(** *** Registries that can be written and read back *)

Lemma persistable_round_trips self :
  keyed self -> all_persistable self -> round_trips self.
Proof.
  intros Hk Hp.
  destruct (export_risks_round_trip self Hp) as (docs & He & Hjs & Hall).
  exists (PDict [("risks", PList docs)]). split.
  - unfold to_json. rewrite He. cbn [bind].
    cbn [json_serializable forallb snd]. now rewrite Hjs.
  - unfold load_from_json, py_get, get_default. simpl.
    now apply (load_records_rebuilds [] self docs).
Qed.

Lemma all_persistable_dict_set self i risk :
  all_persistable self -> persistable risk = true ->
  all_persistable (dict_set self i risk).
Proof.
  intros Hp Hr k r Hin. apply in_dict_set in Hin.
  destruct Hin as [Heq|Hin]; [now inversion Heq; subst|now apply (Hp k)].
Qed.

Lemma load_records_persistable self records :
  all_persistable self ->
  forallb json_serializable records = true ->
  all_persistable (fst (load_records self records)).
Proof.
  revert self. induction records as [|doc records IH]; intros self Hp Hj;
    cbn [load_records]; [exact Hp|].
  cbn [forallb] in Hj. apply andb_prop in Hj. destruct Hj as [Hdoc Hrest].
  destruct (from_dict doc) as [risk|] eqn:Hf; [|exact Hp].
  apply IH; [|exact Hrest].
  apply all_persistable_dict_set; [exact Hp|].
  now apply from_dict_persistable with doc.
Qed.

Lemma chars_json s : forallb json_serializable (chars s) = true.
Proof. induction s as [|c s IH]; [reflexivity|exact IH]. Qed.

Lemma py_iter_json v items :
  json_serializable v = true -> py_iter v = Ok items ->
  forallb json_serializable items = true.
Proof.
  destruct v as [| | | |s|l|d| | | |]; cbn [py_iter]; try discriminate;
    intros Hj H; inversion H; subst; clear H.
  - apply chars_json.
  - exact Hj.
  - clear Hj. induction d as [|kv d IH]; [reflexivity|exact IH].
Qed.

Lemma load_from_json_persistable self data :
  all_persistable self -> json_serializable data = true ->
  all_persistable (fst (load_from_json self data)).
Proof.
  intros Hp Hj. unfold load_from_json, py_get.
  destruct data as [| | | | | |d| | | |]; try exact Hp. cbn [bind].
  destruct (py_iter (get_default d "risks" (PList []))) as [records|] eqn:Hi;
    [|exact Hp].
  apply load_records_persistable; [exact Hp|].
  apply (py_iter_json (get_default d "risks" (PList []))); [|exact Hi].
  now apply json_serializable_get_default.
Qed.

(** X10.  A registry built through its own operations from values of the
    annotated types can be written as JSON and read back unchanged.  From a
    registry whose risks are all persistable (the empty registry is one),
    [add_risk] with members of the four enumerations and JSON values in the
    other arguments, and a load of any parsed JSON document whose records
    have strs as ids, whether the load returns or raises, again give a
    registry that [to_json] accepts and that loading the written document
    into a fresh registry rebuilds. *)
Theorem registry_built_by_api_round_trips :
  forall self,
    keyed self -> all_persistable self ->
    round_trips self
    /\ (forall i c t d s l m o st md,
           json_serializable t = true -> json_serializable d = true ->
           json_serializable m = true -> json_serializable o = true ->
           json_serializable md = true ->
           round_trips
             (fst (add_risk self i (PCategory c) t d (PSeverity s)
                            (PLikelihood l) m o (PStatus st) md)))
    /\ (forall data,
           json_serializable data = true -> str_ids data = true ->
           round_trips (fst (load_from_json self data))
           /\ round_trips (fst (load_from_yaml self data))).
Proof.
  intros self Hk Hp. split; [now apply persistable_round_trips|]. split.
  - intros i c t d s l m o st md Ht Hd Hm Ho Hmd.
    apply persistable_round_trips; [now apply add_risk_keyed|].
    pose proof (add_risk_persistable self i c t d s l m o st md) as Hadd.
    unfold add_risk in *. destruct (dict_mem self i); [exact Hp|].
    cbn [fst snd] in *. apply all_persistable_dict_set; [exact Hp|].
    now apply (Hadd _ Ht Hd Hm Ho Hmd eq_refl).
  - intros data Hj _.
    assert (H : round_trips (fst (load_from_json self data))).
    { apply persistable_round_trips.
      - unfold load_from_json. destruct (bind _ _);
          [now apply load_records_keyed|exact Hk].
      - now apply load_from_json_persistable. }
    split; exact H.
Qed.

Lemma registry_built_by_api_round_trips_witness :
  round_trips (fst (load_from_json init (PDict Examples.document))).
Proof.
  apply (proj2 (proj2 (registry_built_by_api_round_trips
                         init keyed_init
                         (fun k r (H : In (k, r) init) =>
                            match H with end)))
               (PDict Examples.document) eq_refl eq_refl).
Defined.

(** X28.  Only such registries are read back unchanged: when writing the
    registry and loading the document into a fresh registry gives the
    registry back, every risk of it is stored under its own id, holds
    members of their own enumerations in its four enumeration fields, and
    holds only values JSON carries in its other fields. *)
Theorem round_trip_only_if_keyed_and_persistable :
  forall self, round_trips self -> keyed self /\ all_persistable self.
Proof.
  intros self (data & Hj & Hl).
  assert (Hser : json_serializable data = true).
  { unfold to_json in Hj.
    destruct (export_risks_to_dict self) as [docs|]; cbn [bind] in Hj;
      [|discriminate].
    destruct (json_serializable (PDict [("risks", PList docs)])) eqn:E;
      [|discriminate].
    now inversion Hj; subst. }
  replace self with (fst (load_from_json init data)) by now rewrite Hl.
  split.
  - unfold load_from_json.
    destruct (bind _ _); [apply load_records_keyed|]; apply keyed_init.
  - apply load_from_json_persistable; [intros k r []|exact Hser].
Qed.

Lemma round_trip_only_if_keyed_and_persistable_witness :
  round_trips Examples.registry
  /\ keyed Examples.registry /\ all_persistable Examples.registry.
Proof.
  assert (H : round_trips Examples.registry).
  { eexists. split; reflexivity. }
  split; [exact H|].
  exact (round_trip_only_if_keyed_and_persistable Examples.registry H).
Defined.

End RiskRegistryProps.

(** ** The policy checker *)

Module PolicyCheckerProps.
Import PolicyChecker.

(** C6. Checking the empty policy returns normally, whatever the checker
    held before.  The issues of severity [error] are exactly the six
    required-section errors, one per required section in the order of
    [REQUIRED_SECTIONS]; the other issues are the six recommended-section
    warnings, so no per-section check contributes anything. *)
Theorem check_empty_policy_six_errors :
  forall self,
    exists issues,
      check_policy self (PDict []) = (issues, Ok issues)
      /\ issues_of "error" issues
         = map required_section_error REQUIRED_SECTIONS
      /\ map section (issues_of "error" issues)
         = ["scope"; "responsibilities"; "data_handling";
            "incident_response"; "monitoring"; "escalation"]
      /\ errors (get_summary issues) = 6
      /\ length issues = 12
      /\ issues_of "warning" issues
         = map (fun s => mkIssue "warning" s
                           ("Recommended section '" ++ s ++ "' is missing"))
               RECOMMENDED_SECTIONS.
Proof.
  intros self. eexists. split; [reflexivity|].
  repeat split.
Qed.

(** C7. What [check_policy] returns, and the state it leaves, do not depend
    on the state of the checker before the call: they are those of a fresh
    checker on the same document, also after any number of earlier runs on
    other documents. *)
Theorem check_policy_independent_of_history :
  forall self policy,
    check_policy self policy = check_policy init policy
    /\ forall earlier,
        check_policy (run_checks init earlier) policy
        = check_policy init policy.
Proof.
  intros self policy. split; [reflexivity|]. intros earlier. reflexivity.
Qed.

Lemma runs_ret {A : Type} (a : A) : runs (ret a) [] (Ok a).
Proof. intros self. unfold ret. now rewrite app_nil_r. Qed.

Lemma runs_lift {A : Type} (r : result A) : runs (lift r) [] r.
Proof. intros self. unfold lift. now rewrite app_nil_r. Qed.

Lemma runs_append issue : runs (append issue) [issue] (Ok tt).
Proof. intros self. reflexivity. Qed.

Lemma runs_append_if cond issue :
  runs (append_if cond issue) (if cond then [issue] else []) (Ok tt).
Proof. destruct cond; [apply runs_append|apply runs_ret]. Qed.

Lemma runs_bind_ok {A B : Type} (m : M A) (k : A -> M B) l1 a l2 r :
  runs m l1 (Ok a) -> runs (k a) l2 r -> runs (mbind m k) (l1 ++ l2) r.
Proof.
  intros Hm Hk self. unfold mbind. rewrite Hm, Hk. now rewrite app_assoc.
Qed.

Lemma runs_bind_err {A B : Type} (m : M A) (k : A -> M B) l1 e :
  runs m l1 (Err e) -> runs (mbind m k) l1 (Err e).
Proof. intros Hm self. unfold mbind. now rewrite Hm. Qed.

Lemma py_contains_container v key :
  container v = true -> exists b, py_contains v key = Ok b.
Proof. destruct v; simpl; try discriminate; eauto. Qed.

Lemma py_contains_scalar v key :
  container v = false ->
  py_contains v key = Err (TypeError "argument is not iterable").
Proof. destruct v; simpl; try discriminate; reflexivity. Qed.

Lemma require_key_container v key issue b :
  py_contains v key = Ok b ->
  runs (require_key v key issue) (if b then [] else [issue]) (Ok tt).
Proof.
  intros H. unfold require_key. rewrite H.
  change (if b then [] else [issue])
    with ([] ++ (if b then [] else [issue])).
  apply runs_bind_ok with b; [apply runs_lift|].
  destruct b; [apply runs_ret|apply runs_append].
Qed.

Lemma require_key_scalar v key issue :
  container v = false ->
  runs (require_key v key issue) []
       (Err (TypeError "argument is not iterable")).
Proof.
  intros H. unfold require_key. rewrite (py_contains_scalar _ _ H).
  apply runs_bind_err, runs_lift.
Qed.

(** *** Every issue has one of the three severities *)

Lemma sound_runs {A : Type} (m : M A) l r :
  runs m l r -> Forall known_severity l -> sound m.
Proof. intros Hm Hl self. exists l. now rewrite Hm. Qed.

Lemma sound_ret {A : Type} (a : A) : sound (ret a).
Proof. apply sound_runs with [] (Ok a); [apply runs_ret|constructor]. Qed.

Lemma sound_lift {A : Type} (r : result A) : sound (lift r).
Proof. apply sound_runs with [] r; [apply runs_lift|constructor]. Qed.

Lemma sound_get_issues : sound get_issues.
Proof. intros self. exists []. now rewrite app_nil_r. Qed.

Lemma sound_append_if cond issue :
  known_severity issue -> sound (append_if cond issue).
Proof.
  intros H. eapply sound_runs; [apply runs_append_if|].
  destruct cond; [constructor; [exact H|constructor]|constructor].
Qed.

Lemma sound_bind {A B : Type} (m : M A) (k : A -> M B) :
  sound m -> (forall a, sound (k a)) -> sound (mbind m k).
Proof.
  intros Hm Hk self. unfold mbind.
  destruct (Hm self) as (l1 & H1 & HF1).
  destruct (m self) as [self1 [a|e]]; cbn [fst] in H1; subst self1.
  - destruct (Hk a (self ++ l1)) as (l2 & H2 & HF2).
    exists (l1 ++ l2). rewrite H2, app_assoc. split; [reflexivity|].
    apply Forall_app. now split.
  - now exists l1.
Qed.

Ltac known := unfold known_severity; simpl; tauto.

Lemma sound_require_key v key issue :
  known_severity issue -> sound (require_key v key issue).
Proof.
  intros H. unfold require_key. apply sound_bind; [apply sound_lift|].
  intros b. now apply sound_append_if.
Qed.

Lemma sound_check_required policy sections :
  sound (check_required policy sections).
Proof.
  induction sections as [|s rest IH]; cbn [check_required];
    [apply sound_ret|].
  apply sound_bind; [apply sound_lift|]. intros miss.
  apply sound_bind; [apply sound_append_if; known|]. intros _. exact IH.
Qed.

Lemma sound_check_recommended policy sections :
  sound (check_recommended policy sections).
Proof.
  induction sections as [|s rest IH]; cbn [check_recommended];
    [apply sound_ret|].
  apply sound_bind; [apply sound_lift|]. intros miss.
  apply sound_bind; [apply sound_append_if; known|]. intros _. exact IH.
Qed.

Lemma sound_check_roles v roles : sound (check_roles v roles).
Proof.
  induction roles as [|s rest IH]; cbn [check_roles]; [apply sound_ret|].
  apply sound_bind; [apply sound_require_key; known|]. intros _. exact IH.
Qed.

Ltac sound_section :=
  match goal with
  | |- sound (if ?c then _ else _) => destruct c; [apply sound_ret|]
  end;
  repeat first
    [ apply sound_require_key; known
    | apply sound_check_roles
    | apply sound_bind; [|intros _] ].

Lemma sound_check_scope v : sound (_check_scope v).
Proof. unfold _check_scope. sound_section. Qed.

Lemma sound_check_responsibilities v : sound (_check_responsibilities v).
Proof. unfold _check_responsibilities. sound_section. Qed.

Lemma sound_check_data_handling v : sound (_check_data_handling v).
Proof. unfold _check_data_handling. sound_section. Qed.

Lemma sound_check_incident_response v : sound (_check_incident_response v).
Proof. unfold _check_incident_response. sound_section. Qed.

Lemma sound_check_monitoring v : sound (_check_monitoring v).
Proof. unfold _check_monitoring. sound_section. Qed.

Lemma filter_severity_length (issues : list PolicyIssue) :
  Forall known_severity issues ->
  length issues
  = length (issues_of "error" issues) + length (issues_of "warning" issues)
    + length (issues_of "info" issues).
Proof.
  induction 1 as [|i l Hi _ IH]; [reflexivity|].
  unfold issues_of in *. cbn [filter length].
  destruct Hi as [H|[H|[H|[]]]]; rewrite <- H; cbn; rewrite IH;
    rewrite ?Nat.add_succ_r; reflexivity.
Qed.

(** X11.  Whatever the policy and whether the call returns or raises, every
    issue [check_policy] leaves in the checker has severity [error], [warning]
    or [info], so the three counts of [get_summary] add up to its total. *)
Theorem check_policy_severities_partition_issues :
  forall self policy,
    let issues := fst (check_policy self policy) in
    Forall known_severity issues
    /\ total_issues (get_summary issues)
       = errors (get_summary issues) + warnings (get_summary issues)
         + info (get_summary issues).
Proof.
  intros self policy issues.
  assert (H : Forall known_severity issues).
  { subst issues. unfold check_policy, check_policy_body.
    unfold mbind at 1. cbn [set_issues].
    match goal with
    | |- Forall _ (fst (?m [])) =>
        assert (Hs : sound m)
    end.
    { apply sound_bind; [apply sound_check_required|]. intros _.
      apply sound_bind; [apply sound_check_recommended|]. intros _.
      apply sound_bind; [apply sound_lift|]. intros v1.
      apply sound_bind; [apply sound_check_scope|]. intros _.
      apply sound_bind; [apply sound_lift|]. intros v2.
      apply sound_bind; [apply sound_check_responsibilities|]. intros _.
      apply sound_bind; [apply sound_lift|]. intros v3.
      apply sound_bind; [apply sound_check_data_handling|]. intros _.
      apply sound_bind; [apply sound_lift|]. intros v4.
      apply sound_bind; [apply sound_check_incident_response|]. intros _.
      apply sound_bind; [apply sound_lift|]. intros v5.
      apply sound_bind; [apply sound_check_monitoring|]. intros _.
      apply sound_get_issues. }
    destruct (Hs []) as (l & -> & Hl). exact Hl. }
  split; [exact H|]. unfold get_summary. cbn [total_issues errors warnings info].
  now apply filter_severity_length.
Qed.

(** *** What [check_policy] does on a dict *)

Lemma missing_or_empty_dict d section :
  missing_or_empty (PDict d) section = Ok (section_missing d section).
Proof.
  unfold missing_or_empty, section_missing, py_contains, py_getitem, dict_mem.
  cbn [bind]. now destruct (dict_get d section).
Qed.

Lemma check_required_dict d sections :
  runs (check_required (PDict d) sections)
       (map required_section_error (filter (section_missing d) sections))
       (Ok tt).
Proof.
  induction sections as [|s rest IH]; cbn [check_required filter map].
  - apply runs_ret.
  - rewrite missing_or_empty_dict.
    replace (map required_section_error
               (if section_missing d s
                then s :: filter (section_missing d) rest
                else filter (section_missing d) rest))
      with ([] ++ (if section_missing d s
                   then [required_section_error s] else [])
               ++ map required_section_error
                    (filter (section_missing d) rest))
      by (now destruct (section_missing d s)).
    eapply runs_bind_ok; [apply runs_lift|].
    eapply runs_bind_ok; [apply runs_append_if|]. exact IH.
Qed.

Lemma check_recommended_dict d sections :
  runs (check_recommended (PDict d) sections)
       (map recommended_section_warning (filter (section_missing d) sections))
       (Ok tt).
Proof.
  induction sections as [|s rest IH]; cbn [check_recommended filter map].
  - apply runs_ret.
  - rewrite missing_or_empty_dict.
    replace (map recommended_section_warning
               (if section_missing d s
                then s :: filter (section_missing d) rest
                else filter (section_missing d) rest))
      with ([] ++ (if section_missing d s
                   then [recommended_section_warning s] else [])
               ++ map recommended_section_warning
                    (filter (section_missing d) rest))
      by (now destruct (section_missing d s)).
    eapply runs_bind_ok; [apply runs_lift|].
    eapply runs_bind_ok; [apply runs_append_if|]. exact IH.
Qed.

Lemma issues_of_app sev l1 l2 :
  issues_of sev (l1 ++ l2) = issues_of sev l1 ++ issues_of sev l2.
Proof. apply filter_app. Qed.

Lemma errors_of_required sections :
  issues_of "error" (map required_section_error sections)
  = map required_section_error sections.
Proof. induction sections as [|s l IH]; [reflexivity|]. cbn. now f_equal. Qed.

Lemma errors_of_recommended sections :
  issues_of "error" (map recommended_section_warning sections) = [].
Proof. induction sections as [|s l IH]; [reflexivity|]. exact IH. Qed.

(** A [require_key] step on a section value: what it appends and how it
    ends. *)
Lemma require_key_runs v key issue :
  runs (require_key v key issue)
       (if lacks v key then [issue] else [])
       (if container v then Ok tt
        else Err (TypeError "argument is not iterable")).
Proof.
  unfold lacks. destruct (container v) eqn:Hc.
  - destruct (py_contains_container v key Hc) as [b Hb]. rewrite Hb.
    pose proof (require_key_container v key issue b Hb) as H.
    now destruct b.
  - rewrite (py_contains_scalar v key Hc). now apply require_key_scalar.
Qed.

Lemma lacks_scalar v key : container v = false -> lacks v key = false.
Proof. intros H. unfold lacks. now rewrite (py_contains_scalar v key H). Qed.

Lemma check_roles_runs v roles :
  exists l,
    runs (check_roles v roles) l
         (match roles with
          | [] => Ok tt
          | _ => if container v then Ok tt
                 else Err (TypeError "argument is not iterable")
          end)
    /\ issues_of "error" l = [].
Proof.
  induction roles as [|role rest (l & Hl & He)]; cbn [check_roles].
  - exists []. split; [apply runs_ret|reflexivity].
  - pose proof (require_key_runs v role
                  (mkIssue "info" "responsibilities"
                     ("Consider defining '" ++ role ++ "' role"))) as H.
    destruct (container v) eqn:Hc.
    + eexists. split.
      * eapply runs_bind_ok; [exact H|].
        destruct rest; exact Hl.
      * rewrite issues_of_app, He. now destruct (lacks v role).
    + eexists. split; [eapply runs_bind_err; exact H|].
      now rewrite (lacks_scalar v role Hc).
Qed.

(** The four per-section checks that report no error: they return on a
    falsy value and on a container, raise on any other value, and append no
    issue of severity [error]. *)
Lemma quiet_section_runs (m : pyval -> M unit) v :
  m = _check_scope \/ m = _check_responsibilities
  \/ m = _check_data_handling \/ m = _check_monitoring ->
  exists l,
    runs (m v) l (section_outcome v) /\ issues_of "error" l = [].
Proof.
  unfold section_outcome, scalar_section.
  intros [-> | [-> | [-> | ->]]];
    unfold _check_scope, _check_responsibilities, _check_data_handling,
           _check_monitoring;
    destruct (truthy v); cbn [negb andb];
    try (exists []; split; [apply runs_ret|reflexivity]).
  - destruct (container v) eqn:Hc; cbn [negb].
    + eexists. split.
      * eapply runs_bind_ok; [|pose proof (require_key_runs v) as H;
                                rewrite Hc in H; apply H].
        pose proof (require_key_runs v) as H; rewrite Hc in H; apply H.
      * rewrite issues_of_app.
        destruct (lacks v "system_description"), (lacks v "boundaries");
          reflexivity.
    + eexists. split.
      * eapply runs_bind_err.
        pose proof (require_key_runs v) as H; rewrite Hc in H; apply H.
      * now rewrite lacks_scalar.
  - destruct (check_roles_runs v
                ["system_owner"; "incident_responder"; "data_steward"])
      as (l & Hl & He).
    exists l. split; [|exact He]. now destruct (container v).
  - destruct (container v) eqn:Hc; cbn [negb].
    + eexists. split.
      * eapply runs_bind_ok;
          [pose proof (require_key_runs v) as H; rewrite Hc in H; apply H|].
        eapply runs_bind_ok;
          pose proof (require_key_runs v) as H; rewrite Hc in H; apply H.
      * rewrite !issues_of_app.
        destruct (lacks v "retention_policy"), (lacks v "privacy_measures"),
          (lacks v "data_classification"); reflexivity.
    + eexists. split.
      * eapply runs_bind_err.
        pose proof (require_key_runs v) as H; rewrite Hc in H; apply H.
      * now rewrite lacks_scalar.
  - destruct (container v) eqn:Hc; cbn [negb].
    + eexists. split.
      * eapply runs_bind_ok;
          pose proof (require_key_runs v) as H; rewrite Hc in H; apply H.
      * rewrite issues_of_app.
        destruct (lacks v "metrics"), (lacks v "alerting"); reflexivity.
    + eexists. split.
      * eapply runs_bind_err.
        pose proof (require_key_runs v) as H; rewrite Hc in H; apply H.
      * now rewrite lacks_scalar.
Qed.

(** [_check_incident_response]: the same outcomes; its one error is
    reported exactly when the value is truthy and lacks
    [response_procedures]. *)
Lemma incident_response_runs v :
  exists l,
    runs (_check_incident_response v) l (section_outcome v)
    /\ issues_of "error" l
       = if truthy v && lacks v "response_procedures"
         then [response_procedures_error] else [].
Proof.
  unfold section_outcome, scalar_section, _check_incident_response.
  destruct (truthy v); cbn [negb andb];
    try (exists []; split; [apply runs_ret|reflexivity]).
  destruct (container v) eqn:Hc; cbn [negb].
  - eexists. split.
    + eapply runs_bind_ok;
        [pose proof (require_key_runs v) as H; rewrite Hc in H; apply H|].
      eapply runs_bind_ok;
        pose proof (require_key_runs v) as H; rewrite Hc in H; apply H.
    + rewrite !issues_of_app.
      destruct (lacks v "severity_levels"), (lacks v "response_procedures"),
        (lacks v "escalation_path"); reflexivity.
  - eexists. split.
    + eapply runs_bind_err.
      pose proof (require_key_runs v) as H; rewrite Hc in H; apply H.
    + now rewrite !lacks_scalar.
Qed.

Lemma step {A B : Type} (m : M A) (k : A -> M B) l r self :
  runs m l r ->
  mbind m k self
  = match r with
    | Ok a => k a (self ++ l)
    | Err e => (self ++ l, Err e)
    end.
Proof. intros H. unfold mbind. rewrite H. now destruct r. Qed.

Lemma step_lift {A B : Type} (a : A) (k : A -> M B) self :
  mbind (lift (Ok a)) k self = k a self.
Proof. reflexivity. Qed.

(** [check_policy] on a dict: the required-section errors and the
    recommended-section warnings come first; the per-section checks follow
    until one of them raises. *)
Lemma check_policy_dict self d :
  exists rest r,
    check_policy self (PDict d)
    = (map required_section_error
           (filter (section_missing d) REQUIRED_SECTIONS)
         ++ map recommended_section_warning
              (filter (section_missing d) RECOMMENDED_SECTIONS)
         ++ rest, r)
    /\ ((forall s, In s CHECKED_SECTIONS ->
                   scalar_section (RiskRegistry.get_default d s PNone) = false)
        /\ r = Ok (map required_section_error
                       (filter (section_missing d) REQUIRED_SECTIONS)
                     ++ map recommended_section_warning
                          (filter (section_missing d) RECOMMENDED_SECTIONS)
                     ++ rest)
        /\ issues_of "error" rest
           = (if truthy (RiskRegistry.get_default d "incident_response" PNone)
                 && lacks (RiskRegistry.get_default d "incident_response" PNone)
                          "response_procedures"
              then [response_procedures_error] else [])
        \/ (exists s, In s CHECKED_SECTIONS
                      /\ scalar_section (RiskRegistry.get_default d s PNone) = true)
           /\ r = Err (TypeError "argument is not iterable")).
Proof.
  destruct (quiet_section_runs _check_scope (RiskRegistry.get_default d "scope" PNone))
    as (l1 & H1 & E1); [tauto|].
  destruct (quiet_section_runs _check_responsibilities
              (RiskRegistry.get_default d "responsibilities" PNone))
    as (l2 & H2 & E2); [tauto|].
  destruct (quiet_section_runs _check_data_handling
              (RiskRegistry.get_default d "data_handling" PNone))
    as (l3 & H3 & E3); [tauto|].
  destruct (incident_response_runs (RiskRegistry.get_default d "incident_response" PNone))
    as (l4 & H4 & E4).
  destruct (quiet_section_runs _check_monitoring
              (RiskRegistry.get_default d "monitoring" PNone))
    as (l5 & H5 & E5); [tauto|].
  unfold section_outcome in *.
  unfold check_policy, check_policy_body.
  unfold mbind at 1. cbn [set_issues].
  unfold _check_required_sections, _check_recommended_sections.
  rewrite (step _ _ _ _ _ (check_required_dict d REQUIRED_SECTIONS)).
  rewrite (step _ _ _ _ _ (check_recommended_dict d RECOMMENDED_SECTIONS)).
  cbn [policy_get RiskRegistry.py_get app].
  set (req := map required_section_error _).
  set (rec := map recommended_section_warning _).
  rewrite step_lift, (step _ _ _ _ _ H1).
  destruct (scalar_section (RiskRegistry.get_default d "scope" PNone)) eqn:S1.
  { exists l1, (Err (TypeError "argument is not iterable")).
    split; [now rewrite <- app_assoc|]. right. split; [|reflexivity].
    exists "scope". split; [simpl; tauto|exact S1]. }
  rewrite step_lift, (step _ _ _ _ _ H2).
  destruct (scalar_section (RiskRegistry.get_default d "responsibilities" PNone)) eqn:S2.
  { exists (l1 ++ l2), (Err (TypeError "argument is not iterable")).
    split; [now rewrite <- !app_assoc|]. right. split; [|reflexivity].
    exists "responsibilities". split; [simpl; tauto|exact S2]. }
  rewrite step_lift, (step _ _ _ _ _ H3).
  destruct (scalar_section (RiskRegistry.get_default d "data_handling" PNone)) eqn:S3.
  { exists (l1 ++ l2 ++ l3), (Err (TypeError "argument is not iterable")).
    split; [now rewrite <- !app_assoc|]. right. split; [|reflexivity].
    exists "data_handling". split; [simpl; tauto|exact S3]. }
  rewrite step_lift, (step _ _ _ _ _ H4).
  destruct (scalar_section (RiskRegistry.get_default d "incident_response" PNone)) eqn:S4.
  { exists (l1 ++ l2 ++ l3 ++ l4), (Err (TypeError "argument is not iterable")).
    split; [now rewrite <- !app_assoc|]. right. split; [|reflexivity].
    exists "incident_response". split; [simpl; tauto|exact S4]. }
  rewrite step_lift, (step _ _ _ _ _ H5).
  destruct (scalar_section (RiskRegistry.get_default d "monitoring" PNone)) eqn:S5.
  { exists (l1 ++ l2 ++ l3 ++ l4 ++ l5),
      (Err (TypeError "argument is not iterable")).
    split; [now rewrite <- !app_assoc|]. right. split; [|reflexivity].
    exists "monitoring". split; [simpl; tauto|exact S5]. }
  exists (l1 ++ l2 ++ l3 ++ l4 ++ l5). eexists.
  unfold get_issues. rewrite <- !app_assoc. split; [reflexivity|].
  left. split; [|split; [reflexivity|]].
  - intros s [<-|[<-|[<-|[<-|[<-|[]]]]]]; assumption.
  - rewrite !issues_of_app, E1, E2, E3, E4, E5. now rewrite app_nil_r.
Qed.

Lemma filter_nil_iff {A : Type} (f : A -> bool) (l : list A) :
  filter f l = [] <-> forall x, In x l -> f x = false.
Proof.
  induction l as [|a l IH]; cbn [filter].
  - split; [intros _ x []|reflexivity].
  - destruct (f a) eqn:Ha.
    + split; [discriminate|]. intros H.
      specialize (H a (or_introl eq_refl)). congruence.
    + rewrite IH. split.
      * intros H x [<-|Hx]; [exact Ha|now apply H].
      * intros H x Hx. apply H. now right.
Qed.

(** X12.  When [check_policy] returns on a dict, the errors it found are the
    required-section error of every required section that is absent or falsy,
    in the order of [REQUIRED_SECTIONS], followed by the [response_procedures]
    error when the incident response section is truthy and has no
    [response_procedures]; the other per-section checks report warnings and
    infos only.  So the summary says [passed] exactly when all six required
    sections are present and truthy and the incident response section contains
    [response_procedures]. *)
Theorem check_policy_passes_iff_required_content :
  forall self d issues,
    check_policy self (PDict d) = (issues, Ok issues) ->
    issues_of "error" issues
    = map required_section_error
          (filter (section_missing d) REQUIRED_SECTIONS)
        ++ (if truthy (RiskRegistry.get_default d "incident_response" PNone)
               && lacks (RiskRegistry.get_default d "incident_response" PNone)
                        "response_procedures"
            then [response_procedures_error] else [])
    /\ (passed (get_summary issues) = true
        <-> (forall s, In s REQUIRED_SECTIONS ->
                       exists v, dict_get d s = Some v /\ truthy v = true)
            /\ exists ir,
                dict_get d "incident_response" = Some ir
                /\ py_contains ir "response_procedures" = Ok true).
Proof.
  intros self d issues Hrun.
  destruct (check_policy_dict self d) as (rest & r & Hcp & Hcase).
  rewrite Hrun in Hcp.
  destruct Hcase as [(Hsc & Hr & Herr)|(_ & Hr)];
    [|rewrite Hr in Hcp; inversion Hcp].
  assert (Hissues : issues_of "error" issues
                    = map required_section_error
                          (filter (section_missing d) REQUIRED_SECTIONS)
                        ++ (if truthy (RiskRegistry.get_default d "incident_response" PNone)
                               && lacks (RiskRegistry.get_default d "incident_response" PNone)
                                        "response_procedures"
                            then [response_procedures_error] else [])).
  { inversion Hcp as [[Hi Hr']]. clear Hr'.
    rewrite !issues_of_app, errors_of_required, errors_of_recommended, Herr.
    reflexivity. }
  split; [exact Hissues|].
  unfold get_summary. cbn [passed]. rewrite Hissues.
  rewrite Nat.eqb_eq, length_zero_iff_nil.
  assert (Hscal : scalar_section (RiskRegistry.get_default d "incident_response" PNone)
                  = false).
  { apply Hsc. simpl. tauto. }
  split.
  - intros Happ. apply app_eq_nil in Happ. destruct Happ as [Hreq Hir].
    apply map_eq_nil in Hreq. rewrite filter_nil_iff in Hreq.
    assert (Hall : forall s, In s REQUIRED_SECTIONS ->
                             exists v, dict_get d s = Some v
                                       /\ truthy v = true).
    { intros s Hs. specialize (Hreq s Hs). unfold section_missing in Hreq.
      destruct (dict_get d s) as [v|]; [|discriminate].
      exists v. split; [reflexivity|]. now destruct (truthy v). }
    split; [exact Hall|].
    destruct (Hall "incident_response") as (ir & Hget & Htr);
      [simpl; tauto|].
    exists ir. split; [exact Hget|].
    unfold RiskRegistry.get_default in Hir, Hscal. rewrite Hget in Hir, Hscal.
    unfold scalar_section in Hscal. rewrite Htr in Hir, Hscal.
    cbn [andb] in Hir, Hscal. apply negb_false_iff in Hscal.
    destruct (py_contains_container ir "response_procedures" Hscal)
      as [b Hb].
    unfold lacks in Hir. rewrite Hb in Hir. rewrite Hb.
    destruct b; [reflexivity|discriminate].
  - intros (Hall & ir & Hget & Hin).
    assert (Hreq : filter (section_missing d) REQUIRED_SECTIONS = []).
    { apply filter_nil_iff. intros s Hs.
      destruct (Hall s Hs) as (v & Hv & Htr). unfold section_missing.
      now rewrite Hv, Htr. }
    rewrite Hreq. cbn [map app].
    unfold RiskRegistry.get_default. rewrite Hget. unfold lacks. rewrite Hin.
    now rewrite andb_false_r.
Qed.

Lemma check_policy_passes_iff_required_content_witness :
  passed (get_summary
            (fst (check_policy init
                    (PDict [("scope", PStr "chat assistant");
                            ("responsibilities", PList [PStr "system_owner"]);
                            ("data_handling", PStr "none stored");
                            ("incident_response",
                             PStr "response_procedures: see runbook");
                            ("monitoring", PDict [("metrics", PList [])]);
                            ("escalation", PBool true)]))))
  = true.
Proof.
  apply (proj2 (check_policy_passes_iff_required_content
                  init
                  [("scope", PStr "chat assistant");
                   ("responsibilities", PList [PStr "system_owner"]);
                   ("data_handling", PStr "none stored");
                   ("incident_response",
                    PStr "response_procedures: see runbook");
                   ("monitoring", PDict [("metrics", PList [])]);
                   ("escalation", PBool true)]
                  _ eq_refl)).
  split.
  - intros s [<-|[<-|[<-|[<-|[<-|[<-|[]]]]]]];
      eexists; (split; [reflexivity|reflexivity]).
  - eexists. split; reflexivity.
Defined.

(** *** When [check_policy] returns *)

Lemma never_returns_bind_left {A B : Type} (m : M A) (k : A -> M B) :
  never_returns m -> never_returns (mbind m k).
Proof.
  intros H self. unfold mbind. destruct (H self) as [e He].
  destruct (m self) as [s [a|e']]; cbn [snd] in *; [discriminate|eauto].
Qed.

Lemma never_returns_bind_right {A B : Type} (m : M A) (k : A -> M B) :
  (forall a, never_returns (k a)) -> never_returns (mbind m k).
Proof.
  intros H self. unfold mbind.
  destruct (m self) as [s [a|e']]; cbn [snd]; [apply H|eauto].
Qed.

Lemma returns_issues_bind {A : Type} (m : M A) k :
  (forall a, returns_issues (k a)) -> returns_issues (mbind m k).
Proof.
  intros H self issues r. unfold mbind.
  destruct (m self) as [s [a|e]]; [apply H|discriminate].
Qed.

Lemma returns_issues_get : returns_issues get_issues.
Proof. intros self issues r H. now inversion H. Qed.

Lemma check_policy_returns_issues policy :
  returns_issues (check_policy_body policy).
Proof.
  unfold check_policy_body.
  repeat (apply returns_issues_bind; intros ?).
  apply returns_issues_get.
Qed.

Lemma check_policy_needs_get policy :
  (forall d, policy <> PDict d) -> never_returns (check_policy_body policy).
Proof.
  intros Hnot. unfold check_policy_body.
  do 3 (apply never_returns_bind_right; intros ?).
  apply never_returns_bind_left. intros self. unfold lift, policy_get.
  destruct policy; cbn; eauto. now contradiction (Hnot d).
Qed.

Lemma in_required_prefix d s (rec rest : list PolicyIssue) :
  In s REQUIRED_SECTIONS -> section_missing d s = true ->
  In (required_section_error s)
     (map required_section_error
          (filter (section_missing d) REQUIRED_SECTIONS) ++ rec ++ rest).
Proof.
  intros Hs Hm. apply in_or_app. left. apply in_map, filter_In. now split.
Qed.

(** X13.  [check_policy] returns only on a dict, and what it returns is the
    list it leaves in the checker.  On a dict it returns exactly when none of
    the five sections it looks into holds a truthy value that is not a dict, a
    list or a str; otherwise it raises [TypeError], and the checker keeps the
    issues found until then, among them the error of every required section
    that is absent or falsy. *)
Theorem check_policy_returns_iff_sections_are_containers :
  forall self,
    (forall policy issues r,
        check_policy self policy = (issues, Ok r) ->
        r = issues /\ exists d, policy = PDict d)
    /\ forall d,
        ((exists issues, check_policy self (PDict d) = (issues, Ok issues))
         <-> (forall s v,
                 In s CHECKED_SECTIONS -> dict_get d s = Some v ->
                 truthy v = true -> container v = true))
        /\ (forall issues e,
               check_policy self (PDict d) = (issues, Err e) ->
               e = TypeError "argument is not iterable"
               /\ forall s,
                   In s REQUIRED_SECTIONS -> section_missing d s = true ->
                   In (required_section_error s) issues).
Proof.
  intros self. split.
  - intros policy issues r H. split.
    + exact (check_policy_returns_issues policy self issues r H).
    + destruct policy as [| | | | | |d| | | |]; [..|now exists d| | | |];
        exfalso;
        (match type of H with
         | check_policy _ ?p = _ =>
             assert (Hnot : forall d, p <> PDict d) by (intros d; discriminate);
             destruct (check_policy_needs_get p Hnot self) as [e He]
         end);
        unfold check_policy in H; rewrite H in He; discriminate He.
  - intros d.
    destruct (check_policy_dict self d) as (rest & r & Hcp & Hcase).
    split; [split|].
    + intros [issues Hok]. rewrite Hok in Hcp.
      destruct Hcase as [(Hsc & _)|(_ & Hr)];
        [|rewrite Hr in Hcp; inversion Hcp].
      intros s v Hs Hv Htr. specialize (Hsc s Hs).
      unfold RiskRegistry.get_default in Hsc. rewrite Hv in Hsc.
      unfold scalar_section in Hsc. rewrite Htr in Hsc.
      now destruct (container v).
    + intros Hall.
      destruct Hcase as [(_ & Hr & _)|((s & Hs & Hsc) & _)].
      * eexists. rewrite Hcp, Hr. reflexivity.
      * exfalso. unfold scalar_section, RiskRegistry.get_default in Hsc.
        destruct (dict_get d s) as [v|] eqn:Hv; [|discriminate Hsc].
        apply andb_true_iff in Hsc. destruct Hsc as [Htr Hc].
        rewrite (Hall s v Hs Hv Htr) in Hc. discriminate Hc.
    + intros issues e Herr. rewrite Herr in Hcp.
      destruct Hcase as [(_ & Hr & _)|(_ & Hr)];
        rewrite Hr in Hcp; inversion Hcp.
      split; [reflexivity|]. intros s Hs Hm. now apply in_required_prefix.
Qed.

Lemma check_policy_returns_iff_sections_are_containers_witness :
  In (required_section_error "escalation")
     (fst (check_policy init (PDict [("scope", PInt 3)]))).
Proof.
  apply (proj2 (proj2 (proj2 (check_policy_returns_iff_sections_are_containers
                                init)
                             [("scope", PInt 3)])
                      _ _ eq_refl)).
  - simpl. tauto.
  - reflexivity.
Defined.

End PolicyCheckerProps.

(** ** The uncertainty tags *)

Module UncertaintyTagsProps.
Import UncertaintyTags.

Lemma replace_absent old new s :
  substring_of old s = false -> replace s old new = s.
Proof.
  unfold replace. induction s as [|c s IH]; [reflexivity|].
  cbn [substring_of replace_from]. intros H.
  apply orb_false_elim in H. destruct H as [Hp Hs].
  rewrite Hp. now rewrite IH.
Qed.

Lemma not_tagged_no_tag text tag :
  is_tagged text = false -> In tag ALL_TAGS -> substring_of tag text = false.
Proof.
  unfold is_tagged. intros H Hin.
  destruct (substring_of tag text) eqn:E; [|reflexivity].
  assert (Hex : existsb (contains text) ALL_TAGS = true).
  { apply existsb_exists. exists tag. now split. }
  congruence.
Qed.

(** After a space, a tag can only occur further on. *)
Lemma tag_after_space text tag :
  In tag ALL_TAGS -> substring_of tag text = false ->
  substring_of tag (String " " text) = false.
Proof.
  intros Hin H. cbn [substring_of]. rewrite H.
  simpl in Hin.
  repeat (destruct Hin as [<-|Hin]; [reflexivity|]). contradiction.
Qed.

Lemma strip_markers_of_tagged text :
  is_tagged text = false ->
  fold_left (fun result tag => replace result tag "") ALL_TAGS (tag_fact text)
  = String " " text.
Proof.
  intros H.
  assert (Hfact : replace (tag_fact text) TAG_FACT "" = String " " text).
  { unfold replace, tag_fact, TAG_FACT. simpl.
    fold (replace text "[FACT]" "").
    rewrite replace_absent; [reflexivity|].
    apply (not_tagged_no_tag text TAG_FACT H). now left. }
  assert (Hother : forall tag, In tag ALL_TAGS ->
                                replace (String " " text) tag ""
                                = String " " text).
  { intros tag Hin. apply replace_absent. apply tag_after_space; [exact Hin|].
    now apply not_tagged_no_tag. }
  unfold ALL_TAGS. cbn [fold_left]. rewrite Hfact.
  rewrite (Hother TAG_ESTIMATE) by (simpl; auto 10).
  rewrite (Hother TAG_UNKNOWN) by (simpl; auto 10).
  rewrite (Hother TAG_ASSUMPTION) by (simpl; auto 10).
  now rewrite (Hother TAG_SPECULATION) by (simpl; auto 10).
Qed.

Lemma lstrip_collapse_from text :
  lstrip (collapse_from true text) = lstrip (collapse_from false text).
Proof.
  destruct text as [|c text]; [reflexivity|].
  cbn [collapse_from]. destruct (isspace c); reflexivity.
Qed.

Lemma normalize_after_space text :
  normalize_whitespace (String " " text) = normalize_whitespace text.
Proof.
  unfold normalize_whitespace, strip, collapse. cbn [collapse_from].
  change (isspace " ") with true. cbn [lstrip].
  change (isspace " ") with true. cbn iota.
  now rewrite lstrip_collapse_from.
Qed.

(** C8, as the code has it.  For a text in which none of the five markers
    occurs, stripping the tags of [tag_fact text] returns the text with its
    whitespace normalized: every run of whitespace collapsed to one space,
    leading and trailing whitespace removed. *)
Theorem strip_tags_tag_fact_marker_free :
  forall text,
    is_tagged text = false ->
    strip_tags (tag_fact text) = normalize_whitespace text.
Proof.
  intros text H. unfold strip_tags.
  rewrite (strip_markers_of_tagged text H).
  apply normalize_after_space.
Qed.

(** On a marker-free text that is already tidy (no whitespace at its ends,
    no whitespace other than single spaces) the round trip is the
    identity. *)
Corollary strip_tags_tag_fact_tidy text :
  is_tagged text = false -> collapse text = text -> strip text = text ->
  strip_tags (tag_fact text) = text.
Proof.
  intros Hfree Hc Hs. unfold strip_tags.
  rewrite (strip_markers_of_tagged text Hfree).
  transitivity (normalize_whitespace text); [apply normalize_after_space|].
  unfold normalize_whitespace. now rewrite Hc.
Qed.

(** C8, as the specification words it, fails on a text that carries a marker
    of its own: the marker is stripped with the one [tag_fact] added, so the
    result is not the text, whether whitespace is normalized at the ends
    only or throughout. *)
Lemma strip_tags_tag_fact_loses_inner_marker :
  strip_tags (tag_fact "[ESTIMATE] x") = "x"
  /\ strip_tags (tag_fact "[ESTIMATE] x") <> "[ESTIMATE] x"
  /\ strip_tags (tag_fact "[ESTIMATE] x") <> strip "[ESTIMATE] x"
  /\ normalize_whitespace (strip_tags (tag_fact "[ESTIMATE] x"))
     <> normalize_whitespace "[ESTIMATE] x".
Proof.
  repeat split; try reflexivity; vm_compute; discriminate.
Qed.

Lemma strip_tags_tag_fact_marker_free_witness :
  is_tagged "The earth is round" = false
  /\ strip_tags (tag_fact "The earth is round") = "The earth is round".
Proof.
  split; [reflexivity|].
  exact (strip_tags_tag_fact_marker_free "The earth is round" eq_refl).
Defined.

(** *** Counting and membership *)

Lemma count_positive_iff_contains text sub :
  sub <> "" -> (0 < count text sub <-> contains text sub = true).
Proof.
  intros Hsub. unfold count, contains. induction text as [|c s IH].
  - cbn [count_from substring_of]. split; [intros H; inversion H|].
    intros H. apply String.eqb_eq in H. contradiction.
  - cbn [count_from substring_of].
    destruct (String.prefix sub (String c s)); cbn [orb].
    + split; [reflexivity|intros _; apply Nat.lt_0_succ].
    + exact IH.
Qed.

Lemma count_tags_table text :
  count_tags text = map (fun tag => (tag, count text tag)) ALL_TAGS.
Proof. reflexivity. Qed.

Lemma count_tags_get text tag :
  In tag ALL_TAGS -> dict_get (count_tags text) tag = Some (count text tag).
Proof.
  rewrite count_tags_table.
  intros [<-|[<-|[<-|[<-|[<-|[]]]]]]; reflexivity.
Qed.

Lemma count_tags_get_inv text tag n :
  dict_get (count_tags text) tag = Some n ->
  In tag ALL_TAGS /\ n = count text tag.
Proof.
  rewrite count_tags_table. unfold ALL_TAGS. cbn [map dict_get].
  repeat match goal with
         | |- context [String.eqb tag ?t] =>
             destruct (String.eqb_spec tag t) as [->|_];
             [intros H; inversion H; split; [simpl; tauto|reflexivity]|]
         end.
  discriminate.
Qed.

Lemma tag_nonempty tag : In tag ALL_TAGS -> tag <> "".
Proof. intros [<-|[<-|[<-|[<-|[<-|[]]]]]]; discriminate. Qed.

(** X14.  [is_tagged] and [count_tags] agree: a text is tagged exactly when
    [count_tags] gives some tag a count above zero; the table of [count_tags]
    has the five tags as its keys, in the order of [ALL_TAGS]. *)
Theorem is_tagged_iff_some_count_positive :
  forall text,
    dict_keys (count_tags text) = ALL_TAGS
    /\ (is_tagged text = true
        <-> exists tag n, dict_get (count_tags text) tag = Some n /\ 0 < n)
    /\ (is_tagged text = false
        <-> forall tag n, dict_get (count_tags text) tag = Some n -> n = 0).
Proof.
  intros text.
  assert (Hpos : is_tagged text = true
                 <-> exists tag n,
                      dict_get (count_tags text) tag = Some n /\ 0 < n).
  { unfold is_tagged. rewrite existsb_exists. split.
    - intros (tag & Hin & Hc). exists tag, (count text tag).
      split; [now apply count_tags_get|].
      apply count_positive_iff_contains; [now apply tag_nonempty|exact Hc].
    - intros (tag & n & Hget & Hn).
      apply count_tags_get_inv in Hget. destruct Hget as [Hin ->].
      exists tag. split; [exact Hin|].
      apply count_positive_iff_contains; [now apply tag_nonempty|exact Hn]. }
  split; [reflexivity|]. split; [exact Hpos|].
  split.
  - intros Hf tag n Hget. destruct n as [|n]; [reflexivity|].
    assert (Ht : is_tagged text = true).
    { apply Hpos. exists tag, (S n). split; [exact Hget|apply Nat.lt_0_succ]. }
    congruence.
  - intros Hall. destruct (is_tagged text) eqn:E; [|reflexivity].
    destruct (proj1 Hpos eq_refl) as (tag & n & Hget & Hn).
    rewrite (Hall tag n Hget) in Hn. inversion Hn.
Qed.

Lemma count_tagged_text text t tag :
  In t ALL_TAGS -> In tag ALL_TAGS ->
  count (t ++ " " ++ text) tag
  = (if String.eqb tag t then 1 else 0) + count text tag.
Proof.
  intros [<-|[<-|[<-|[<-|[<-|[]]]]]] [<-|[<-|[<-|[<-|[<-|[]]]]]];
    reflexivity.
Qed.

(** X15.  Tagging a text adds one to the count of the tag used and leaves the
    counts of the four other tags as they are in the text. *)
Theorem count_tags_of_tagged_text :
  forall text t tag,
    In t ALL_TAGS -> In tag ALL_TAGS ->
    exists n,
      dict_get (count_tags text) tag = Some n
      /\ dict_get (count_tags (t ++ " " ++ text)) tag
         = Some ((if String.eqb tag t then 1 else 0) + n).
Proof.
  intros text t tag Ht Htag. exists (count text tag).
  split; [now apply count_tags_get|].
  rewrite (count_tags_get _ _ Htag). f_equal.
  now apply count_tagged_text.
Qed.

Lemma count_tags_of_tagged_text_witness :
  exists n,
    dict_get (count_tags "[FACT] Data. [ESTIMATE] Approx.") TAG_FACT = Some n
    /\ dict_get (count_tags (tag_fact "[FACT] Data. [ESTIMATE] Approx."))
                TAG_FACT
       = Some (1 + n).
Proof.
  apply (count_tags_of_tagged_text "[FACT] Data. [ESTIMATE] Approx."
           TAG_FACT TAG_FACT); simpl; tauto.
Defined.

(** *** What [strip_tags] returns *)

Lemma strip_markers_absent text :
  is_tagged text = false ->
  fold_left (fun result tag => replace result tag "") ALL_TAGS text = text.
Proof.
  intros H.
  assert (Habs : forall tag, In tag ALL_TAGS -> replace text tag "" = text).
  { intros tag Hin. apply replace_absent. now apply not_tagged_no_tag. }
  unfold ALL_TAGS in *. cbn [fold_left].
  rewrite (Habs TAG_FACT) by (simpl; tauto).
  rewrite (Habs TAG_ESTIMATE) by (simpl; tauto).
  rewrite (Habs TAG_UNKNOWN) by (simpl; tauto).
  rewrite (Habs TAG_ASSUMPTION) by (simpl; tauto).
  now rewrite (Habs TAG_SPECULATION) by (simpl; tauto).
Qed.

Lemma replace_tagged_head text t new :
  In t ALL_TAGS ->
  replace (t ++ " " ++ text) t new = (new ++ " " ++ replace text t new)%string.
Proof.
  intros [<-|[<-|[<-|[<-|[<-|[]]]]]]; reflexivity.
Qed.

Lemma tagged_has_no_other_tag text t tag :
  In t ALL_TAGS -> In tag ALL_TAGS -> tag <> t ->
  substring_of tag text = false ->
  substring_of tag (t ++ " " ++ text) = false.
Proof.
  intros [<-|[<-|[<-|[<-|[<-|[]]]]]] [<-|[<-|[<-|[<-|[<-|[]]]]]] Hne H;
    try (now contradiction Hne); cbn; exact H.
Qed.

Lemma strip_markers_of_any_tagged text t :
  In t ALL_TAGS -> is_tagged text = false ->
  fold_left (fun result tag => replace result tag "") ALL_TAGS
            (t ++ " " ++ text)%string
  = String " " text.
Proof.
  intros Ht H.
  assert (Habs : forall tag, In tag ALL_TAGS -> substring_of tag text = false).
  { intros tag Hin. now apply not_tagged_no_tag. }
  assert (Hsp : forall tag, In tag ALL_TAGS ->
                            replace (String " " text) tag ""
                            = String " " text).
  { intros tag Hin. apply replace_absent, tag_after_space; auto. }
  assert (Hkeep : forall tag, In tag ALL_TAGS -> tag <> t ->
                              replace (t ++ " " ++ text) tag ""
                              = (t ++ " " ++ text)%string).
  { intros tag Hin Hne. apply replace_absent.
    apply tagged_has_no_other_tag; auto. }
  assert (Hhit : replace (t ++ " " ++ text) t "" = String " " text).
  { rewrite replace_tagged_head by exact Ht.
    rewrite replace_absent by auto. reflexivity. }
  unfold ALL_TAGS in *. cbn [fold_left].
  destruct Ht as [<-|[<-|[<-|[<-|[<-|[]]]]]];
    repeat first
      [ rewrite Hhit
      | rewrite Hsp by (simpl; tauto)
      | rewrite Hkeep by (first [simpl; tauto | discriminate]) ];
    reflexivity.
Qed.

(** X16.  On a text in which none of the five markers occurs, [strip_tags]
    only normalizes whitespace, and it undoes each of the five tagging
    functions up to that normalization. *)
Theorem strip_tags_undoes_every_tagger :
  forall text,
    is_tagged text = false ->
    strip_tags text = normalize_whitespace text
    /\ Forall (fun tagger => strip_tags (tagger text)
                             = normalize_whitespace text) taggers.
Proof.
  intros text H. split.
  - unfold strip_tags. now rewrite strip_markers_absent.
  - assert (Hone : forall t, In t ALL_TAGS ->
                             strip_tags (t ++ " " ++ text)
                             = normalize_whitespace text).
    { intros t Ht. unfold strip_tags.
      rewrite (strip_markers_of_any_tagged text t Ht H).
      apply normalize_after_space. }
    unfold taggers.
    repeat (constructor; [apply Hone; simpl; tauto|]). constructor.
Qed.

Lemma strip_tags_undoes_every_tagger_witness :
  is_tagged "about   85%  " = false
  /\ strip_tags (tag_estimate "about   85%  ") = "about 85%".
Proof.
  split; [reflexivity|].
  exact (Forall_inv
           (Forall_inv_tail
              (proj2 (strip_tags_undoes_every_tagger "about   85%  "
                        eq_refl)))).
Defined.

(** *** The whitespace of the result *)

Lemma collapse_from_single_spaced s :
  forall in_run,
    single_spaced (collapse_from in_run s) = true
    /\ (in_run = true -> starts_with_space (collapse_from in_run s) = false).
Proof.
  induction s as [|c s IH]; intros in_run; cbn [collapse_from].
  - split; reflexivity.
  - destruct (isspace c) eqn:Hc.
    + destruct in_run.
      * apply IH.
      * split; [|discriminate]. cbn [single_spaced].
        change (isspace " ") with true. cbn iota.
        destruct (IH true) as [H1 H2]. rewrite H1, (H2 eq_refl).
        reflexivity.
    + cbn [single_spaced starts_with_space]. rewrite Hc.
      split; [apply IH|reflexivity].
Qed.

Lemma single_spaced_tail c s :
  single_spaced (String c s) = true -> single_spaced s = true.
Proof.
  cbn [single_spaced]. intros H. now apply andb_true_iff in H.
Qed.

Lemma lstrip_single_spaced s :
  single_spaced s = true -> single_spaced (lstrip s) = true.
Proof.
  induction s as [|c s IH]; [reflexivity|]. intros H. cbn [lstrip].
  destruct (isspace c); [|exact H]. apply IH.
  now apply single_spaced_tail with c.
Qed.

Lemma lstrip_no_leading_space s : starts_with_space (lstrip s) = false.
Proof.
  induction s as [|c s IH]; [reflexivity|]. cbn [lstrip].
  destruct (isspace c) eqn:Hc; [exact IH|exact Hc].
Qed.

Lemma rstrip_keeps_start s :
  starts_with_space s = false -> starts_with_space (rstrip s) = false.
Proof.
  destruct s as [|c s]; [reflexivity|]. cbn [starts_with_space rstrip].
  intros Hc. destruct (rstrip s); [now rewrite Hc|exact Hc].
Qed.


Lemma rstrip_single_spaced s :
  single_spaced s = true -> single_spaced (rstrip s) = true.
Proof.
  induction s as [|c s IH]; [reflexivity|]. intros H.
  pose proof (IH (single_spaced_tail c s H)) as Hr.
  cbn [single_spaced] in H. apply andb_true_iff in H. destruct H as [Hc _].
  cbn [rstrip]. destruct (rstrip s) as [|c' r] eqn:Er.
  - destruct (isspace c) eqn:Ec; [reflexivity|].
    cbn [single_spaced]. now rewrite Ec.
  - cbn [single_spaced] in *. rewrite Hr, andb_true_r.
    destruct (isspace c) eqn:Ec; [|reflexivity].
    apply andb_true_iff in Hc. destruct Hc as [Hsp Hst].
    rewrite Hsp. cbn [andb].
    apply negb_true_iff in Hst.
    pose proof (rstrip_keeps_start s Hst) as Hk. rewrite Er in Hk.
    cbn [starts_with_space] in *. now rewrite Hk.
Qed.

Lemma rstrip_no_trailing_space s : ends_with_space (rstrip s) = false.
Proof.
  induction s as [|c s IH]; [reflexivity|]. cbn [rstrip].
  destruct (rstrip s) as [|c' r].
  - destruct (isspace c) eqn:Ec; [reflexivity|exact Ec].
  - exact IH.
Qed.

Lemma collapse_from_fixed s :
  forall in_run,
    single_spaced s = true ->
    (in_run = true -> starts_with_space s = false) ->
    collapse_from in_run s = s.
Proof.
  induction s as [|c s IH]; intros in_run Hs Hrun; [reflexivity|].
  cbn [collapse_from]. cbn [single_spaced] in Hs.
  apply andb_true_iff in Hs. destruct Hs as [Hc Hs].
  cbn [starts_with_space] in Hrun.
  destruct (isspace c) eqn:Ec.
  - destruct in_run; [now specialize (Hrun eq_refl)|].
    apply andb_true_iff in Hc. destruct Hc as [Hsp Hst].
    apply Ascii.eqb_eq in Hsp. subst c.
    rewrite IH; [reflexivity|exact Hs|]. intros _.
    now apply negb_true_iff in Hst.
  - rewrite IH; [reflexivity|exact Hs|discriminate].
Qed.

Lemma lstrip_fixed s : starts_with_space s = false -> lstrip s = s.
Proof.
  destruct s as [|c s]; [reflexivity|]. cbn [starts_with_space lstrip].
  now intros ->.
Qed.

Lemma rstrip_fixed s : ends_with_space s = false -> rstrip s = s.
Proof.
  induction s as [|c s IH]; [reflexivity|].
  cbn [ends_with_space rstrip]. destruct s as [|c' s'].
  - cbn [rstrip]. now intros ->.
  - intros H. now rewrite (IH H).
Qed.

(** X17.  Whatever the text, the result of [strip_tags] has no whitespace
    other than single spaces between other characters: none at its ends, no
    two in a row, no tab or line break.  Normalizing its whitespace again
    changes nothing. *)
Theorem strip_tags_result_is_tidy :
  forall text,
    single_spaced (strip_tags text) = true
    /\ starts_with_space (strip_tags text) = false
    /\ ends_with_space (strip_tags text) = false
    /\ normalize_whitespace (strip_tags text) = strip_tags text.
Proof.
  intros text. unfold strip_tags.
  set (s := fold_left _ ALL_TAGS text).
  assert (H1 : single_spaced (strip (collapse s)) = true).
  { unfold strip, collapse.
    apply rstrip_single_spaced, lstrip_single_spaced.
    apply (collapse_from_single_spaced s false). }
  assert (H2 : starts_with_space (strip (collapse s)) = false).
  { unfold strip. apply rstrip_keeps_start, lstrip_no_leading_space. }
  assert (H3 : ends_with_space (strip (collapse s)) = false).
  { unfold strip. apply rstrip_no_trailing_space. }
  repeat split; try assumption.
  unfold normalize_whitespace, collapse.
  rewrite collapse_from_fixed by (assumption || discriminate).
  unfold strip at 1. rewrite lstrip_fixed by exact H2.
  now apply rstrip_fixed.
Qed.

(** *** Replacing a tag *)

Lemma replace_tag_nonempty text old new :
  old <> "" -> replace_tag text old new = replace text old new.
Proof.
  intros H. unfold replace_tag.
  destruct (String.eqb_spec old ""); [contradiction|reflexivity].
Qed.

(** X18.  [replace_tag] leaves a text without the old tag as it is, whatever
    the two tags are; on a text tagged with one of the five tags it replaces
    the leading tag and goes on in the rest, so that retagging a text that the
    old tag does not occur in gives the text tagged with the new tag. *)
Theorem replace_tag_retags_tagged_text :
  forall text old new,
    (old <> "" -> contains text old = false ->
     replace_tag text old new = text)
    /\ (In old ALL_TAGS ->
        replace_tag (old ++ " " ++ text) old new
        = (new ++ " " ++ replace_tag text old new)%string)
    /\ (In old ALL_TAGS -> contains text old = false ->
        replace_tag (old ++ " " ++ text) old new
        = (new ++ " " ++ text)%string).
Proof.
  intros text old new.
  assert (H1 : old <> "" -> contains text old = false ->
               replace_tag text old new = text).
  { intros Hne Hc. rewrite replace_tag_nonempty by exact Hne.
    now apply replace_absent. }
  assert (H2 : In old ALL_TAGS ->
               replace_tag (old ++ " " ++ text) old new
               = (new ++ " " ++ replace_tag text old new)%string).
  { intros Hin. rewrite !replace_tag_nonempty by (now apply tag_nonempty).
    now apply replace_tagged_head. }
  split; [exact H1|]. split; [exact H2|].
  intros Hin Hc. rewrite (H2 Hin), H1; [reflexivity| |exact Hc].
  now apply tag_nonempty.
Qed.

Lemma replace_tag_retags_tagged_text_witness :
  replace_tag (tag_estimate "About 85%") TAG_ESTIMATE TAG_FACT
  = tag_fact "About 85%".
Proof.
  apply (proj2 (proj2 (replace_tag_retags_tagged_text
                         "About 85%" TAG_ESTIMATE TAG_FACT))).
  - simpl. tauto.
  - reflexivity.
Defined.

(** *** Detecting tags *)

Lemma run_before_bracket_no_bracket s :
  no_bracket (run_before_bracket s) = true.
Proof.
  induction s as [|c s IH]; [reflexivity|]. cbn [run_before_bracket].
  destruct (Ascii.eqb c "[") eqn:E; [reflexivity|].
  cbn [no_bracket]. now rewrite E, IH.
Qed.

Lemma run_before_bracket_all s :
  no_bracket s = true -> run_before_bracket s = s.
Proof.
  induction s as [|c s IH]; [reflexivity|]. cbn [no_bracket run_before_bracket].
  intros H. apply andb_true_iff in H. destruct H as [Hc Hs].
  apply negb_true_iff in Hc. now rewrite Hc, IH.
Qed.

Lemma no_bracket_tail c s : no_bracket (String c s) = true -> no_bracket s = true.
Proof. cbn [no_bracket]. intros H. now apply andb_true_iff in H. Qed.

Lemma lstrip_no_bracket s : no_bracket s = true -> no_bracket (lstrip s) = true.
Proof.
  induction s as [|c s IH]; [reflexivity|]. intros H. cbn [lstrip].
  destruct (isspace c); [|exact H]. apply IH. now apply no_bracket_tail with c.
Qed.

Lemma rstrip_no_bracket s : no_bracket s = true -> no_bracket (rstrip s) = true.
Proof.
  induction s as [|c s IH]; [reflexivity|]. intros H.
  pose proof (IH (no_bracket_tail c s H)) as Hr.
  cbn [no_bracket] in H. apply andb_true_iff in H. destruct H as [Hc _].
  cbn [rstrip]. destruct (rstrip s) as [|c' r].
  - destruct (isspace c); [reflexivity|]. cbn [no_bracket]. now rewrite Hc.
  - cbn [no_bracket] in *. now rewrite Hc, Hr.
Qed.

Lemma last_char_no_bracket s :
  no_bracket s = true -> no_bracket (last_char s) = true.
Proof.
  induction s as [|c s IH]; [reflexivity|]. intros H. cbn [last_char].
  destruct s as [|c' s']; [exact H|]. apply IH. now apply no_bracket_tail with c.
Qed.

Lemma group_content_no_bracket run :
  no_bracket run = true -> no_bracket (group_content run) = true.
Proof.
  intros H. unfold group_content.
  pose proof (lstrip_no_bracket run H) as Hl.
  destruct (lstrip run); [now apply last_char_no_bracket|exact Hl].
Qed.

Lemma lstrip_lstrip s : lstrip (lstrip s) = lstrip s.
Proof. apply lstrip_fixed, lstrip_no_leading_space. Qed.

Lemma lstrip_empty_last_char s :
  lstrip s = "" -> lstrip (last_char s) = "".
Proof.
  induction s as [|c s IH]; [reflexivity|]. cbn [lstrip last_char].
  destruct (isspace c) eqn:Ec; [|discriminate]. intros H.
  destruct s as [|c' s']; [|now apply IH].
  cbn [lstrip]. now rewrite Ec.
Qed.

(** Stripping the second group gives the run stripped. *)
Lemma strip_group_content run : strip (group_content run) = strip run.
Proof.
  unfold group_content, strip. destruct (lstrip run) as [|c r] eqn:E.
  - now rewrite lstrip_empty_last_char.
  - now rewrite <- E, lstrip_lstrip.
Qed.

Lemma findall_from_done s :
  forall skip, String.length s <= skip -> findall_from skip s = [].
Proof.
  induction s as [|c s IH]; intros skip H; [reflexivity|].
  cbn [findall_from]. cbn [String.length] in H.
  destruct skip as [|k]; [inversion H|]. apply IH. now apply le_S_n.
Qed.

Lemma find_tag_in s tag :
  find (fun tag => String.prefix tag s) ALL_TAGS = Some tag ->
  In tag ALL_TAGS.
Proof. intros H. now apply find_some in H. Qed.

Lemma match_at_sound s tag content len :
  match_at s = Some (tag, content, len) ->
  In tag ALL_TAGS /\ no_bracket content = true.
Proof.
  unfold match_at.
  destruct (find _ ALL_TAGS) as [t|] eqn:Hf; [|discriminate].
  pose proof (run_before_bracket_no_bracket (drop (String.length t) s)) as Hn.
  destruct (run_before_bracket _) as [|c r] eqn:Er; [discriminate|].
  intros H. inversion H; subst. split; [now apply find_tag_in with s|].
  now apply group_content_no_bracket.
Qed.

Lemma findall_from_sound s :
  forall skip tag content,
    In (tag, content) (findall_from skip s) ->
    In tag ALL_TAGS /\ no_bracket content = true.
Proof.
  induction s as [|c s IH]; intros skip tag content; [intros []|].
  cbn [findall_from]. destruct skip as [|k]; [|apply IH].
  destruct (match_at (String c s)) as [[[t ct] len]|] eqn:Hm; [|apply IH].
  intros [H|H]; [|now apply IH with (len - 1)].
  inversion H; subst. now apply match_at_sound with (String c s) len.
Qed.

Lemma match_at_tagged text tag :
  In tag ALL_TAGS -> no_bracket text = true ->
  match_at (tag ++ " " ++ text)
  = Some (tag, group_content (String " " text),
          String.length tag + S (String.length text)).
Proof.
  intros Hin Hnb.
  pose proof (run_before_bracket_all text Hnb) as Hrun.
  destruct Hin as [<-|[<-|[<-|[<-|[<-|[]]]]]]; unfold match_at;
    cbn -[group_content]; rewrite Hrun; reflexivity.
Qed.

(** X19.  Every item [detect_tags] returns has the two keys [tag] and
    [content]; the tag is one of the five, the content has no opening bracket
    and no whitespace at its ends.  On a text without an opening bracket that
    one of the five tagging functions tagged, [detect_tags] returns one item:
    the tag and the text stripped. *)
Theorem detect_tags_recovers_tag_and_content :
  forall text,
    (forall item,
        In item (detect_tags text) ->
        exists tag content,
          item = [("tag", tag); ("content", content)]
          /\ In tag ALL_TAGS
          /\ no_bracket content = true
          /\ starts_with_space content = false
          /\ ends_with_space content = false)
    /\ (no_bracket text = true ->
        forall tag,
          In tag ALL_TAGS ->
          detect_tags (tag ++ " " ++ text)
          = [[("tag", tag); ("content", strip text)]]).
Proof.
  intros text. split.
  - intros item Hin. unfold detect_tags in Hin. apply in_map_iff in Hin.
    destruct Hin as ([tag content] & <- & Hin).
    apply findall_from_sound in Hin. destruct Hin as [Htag Hnb].
    exists tag, (strip content). split; [reflexivity|].
    split; [exact Htag|]. unfold strip. split; [|split].
    + now apply rstrip_no_bracket, lstrip_no_bracket.
    + apply rstrip_keeps_start, lstrip_no_leading_space.
    + apply rstrip_no_trailing_space.
  - intros Hnb tag Hin. unfold detect_tags, findall.
    pose proof (match_at_tagged text tag Hin Hnb) as Hm.
    assert (Hshape : exists c rest,
               (tag ++ " " ++ text)%string = String c rest
               /\ String.length rest
                  = String.length tag + S (String.length text) - 1).
    { destruct Hin as [<-|[<-|[<-|[<-|[<-|[]]]]]];
        eexists; eexists; (split; [reflexivity|]);
        cbn [String.length TAG_FACT TAG_ESTIMATE TAG_UNKNOWN TAG_ASSUMPTION
             TAG_SPECULATION String.append Nat.add Nat.sub];
        rewrite ?Nat.sub_0_r; reflexivity. }
    destruct Hshape as (c & rest & Heq & Hlen).
    rewrite Heq in *. cbn [findall_from]. rewrite Hm.
    rewrite findall_from_done by (rewrite Hlen; apply Nat.le_refl).
    cbn [map]. rewrite strip_group_content.
    unfold strip at 1. cbn [lstrip]. change (isspace " ") with true.
    cbn iota. reflexivity.
Qed.

Lemma detect_tags_recovers_tag_and_content_witness :
  detect_tags (tag_estimate "85% accuracy. ")
  = [[("tag", "[ESTIMATE]"); ("content", "85% accuracy.")]].
Proof.
  apply (proj2 (detect_tags_recovers_tag_and_content "85% accuracy. ")
               eq_refl TAG_ESTIMATE).
  simpl. tauto.
Defined.

(** *** Counted and detected tags *)

Lemma tag_needs_bracket tag c s :
  In tag ALL_TAGS -> Ascii.eqb c "[" = false ->
  String.prefix tag (String c s) = false.
Proof.
  intros Hin Hc.
  destruct Hin as [<-|[<-|[<-|[<-|[<-|[]]]]]]; cbn [String.prefix TAG_FACT
    TAG_ESTIMATE TAG_UNKNOWN TAG_ASSUMPTION TAG_SPECULATION];
    (destruct (ascii_dec "[" c) as [<-|_]; [discriminate Hc|reflexivity]).
Qed.

Ltac tag_chars H s :=
  repeat (destruct s as [|? s]; [discriminate H|];
          cbn [String.prefix] in H;
          match type of H with
          | context [ascii_dec ?a ?b] =>
              destruct (ascii_dec a b) as [<-|]; [|discriminate H]
          end).

Lemma tag_tail_clear tag c s :
  In tag ALL_TAGS -> String.prefix tag (String c s) = true ->
  clear_of_bracket (String.length tag - 1) s = true.
Proof.
  intros Hin H.
  destruct Hin as [<-|[<-|[<-|[<-|[<-|[]]]]]];
    cbn [String.prefix TAG_FACT TAG_ESTIMATE TAG_UNKNOWN TAG_ASSUMPTION
         TAG_SPECULATION] in H;
    (destruct (ascii_dec "[" c) as [<-|]; [|discriminate H]);
    tag_chars H s; reflexivity.
Qed.

Lemma count_from_occurrences tag s :
  In tag ALL_TAGS ->
  forall skip,
    clear_of_bracket skip s = true ->
    count_from tag skip s = occurrences tag s.
Proof.
  intros Hin. induction s as [|c s IH]; intros skip Hclear; [reflexivity|].
  cbn [count_from occurrences]. destruct skip as [|k].
  - destruct (String.prefix tag (String c s)) eqn:Hp.
    + cbn [Nat.add]. f_equal. apply IH. now apply tag_tail_clear with c.
    + apply IH. reflexivity.
  - cbn [clear_of_bracket] in Hclear. apply andb_true_iff in Hclear.
    destruct Hclear as [Hc Hk]. apply negb_true_iff in Hc.
    rewrite (tag_needs_bracket tag c s Hin Hc). now apply IH.
Qed.

Lemma count_occurrences text tag :
  In tag ALL_TAGS -> count text tag = occurrences tag text.
Proof. intros Hin. now apply count_from_occurrences. Qed.

Lemma match_at_tag s tag content len :
  match_at s = Some (tag, content, len) ->
  existsb (fun tag => String.prefix tag s) ALL_TAGS = true.
Proof.
  unfold match_at.
  destruct (find _ ALL_TAGS) as [t|] eqn:Hf; [|discriminate].
  intros _. apply find_some in Hf. apply existsb_exists. now exists t.
Qed.

Lemma findall_from_bound s :
  forall skip,
    length (findall_from skip s)
    <= list_sum (map (fun tag => occurrences tag s) ALL_TAGS).
Proof.
  unfold ALL_TAGS, list_sum. cbn [map fold_right].
  induction s as [|c s IH]; intros skip; [apply Nat.le_0_l|].
  cbn [findall_from occurrences].
  destruct skip as [|k]; [|specialize (IH k); lia].
  destruct (match_at (String c s)) as [[[t ct] len]|] eqn:Hm;
    [|specialize (IH 0); lia].
  apply match_at_tag in Hm. unfold ALL_TAGS in Hm. cbn [existsb] in Hm.
  cbn [length]. specialize (IH (len - 1)).
  destruct (String.prefix TAG_FACT (String c s));
    destruct (String.prefix TAG_ESTIMATE (String c s));
    destruct (String.prefix TAG_UNKNOWN (String c s));
    destruct (String.prefix TAG_ASSUMPTION (String c s));
    destruct (String.prefix TAG_SPECULATION (String c s));
    try discriminate Hm; lia.
Qed.

(** X20.  [detect_tags] never returns more items than [count_tags] counts
    tags: every item begins at an occurrence of its tag, and [count_tags]
    counts every occurrence of every tag.  So the listing of
    [uncertainty_report] is never longer than the total it prints; it is
    shorter when a tag is followed by an opening bracket or by the end of the
    text. *)
Theorem detect_tags_within_counted_total :
  forall text,
    length (detect_tags text) <= total_tags text
    /\ (forall tag, In tag ALL_TAGS ->
                    dict_get (count_tags text) tag
                    = Some (occurrences tag text))
    /\ (forall tag, In tag ALL_TAGS ->
                    detect_tags (tag ++ "[") = []
                    /\ detect_tags tag = []
                    /\ total_tags tag = 1).
Proof.
  intros text. split; [|split].
  - unfold detect_tags, findall, total_tags. rewrite length_map.
    eapply Nat.le_trans; [apply findall_from_bound|].
    rewrite count_tags_table, map_map. cbn [snd].
    unfold ALL_TAGS. cbn [map].
    rewrite !count_occurrences by (simpl; tauto). apply Nat.le_refl.
  - intros tag Hin. rewrite (count_tags_get text tag Hin).
    now rewrite count_occurrences.
  - intros tag [<-|[<-|[<-|[<-|[<-|[]]]]]]; repeat split; reflexivity.
Qed.

(** *** The uncertainty report *)

Lemma untagged_counts_zero text :
  is_tagged text = false
  <-> forall tag, In tag ALL_TAGS -> count text tag = 0.
Proof.
  split.
  - intros H tag Hin.
    pose proof (count_positive_iff_contains text tag (tag_nonempty tag Hin))
      as Hc.
    destruct (count text tag) as [|n]; [reflexivity|].
    pose proof (proj1 Hc (Nat.lt_0_succ n)) as Ht.
    unfold contains in Ht. rewrite (not_tagged_no_tag text tag H Hin) in Ht.
    discriminate Ht.
  - intros H. unfold is_tagged.
    destruct (existsb (contains text) ALL_TAGS) eqn:E; [|reflexivity].
    apply existsb_exists in E. destruct E as (tag & Hin & Hc).
    apply (count_positive_iff_contains text tag (tag_nonempty tag Hin)) in Hc.
    rewrite (H tag Hin) in Hc. inversion Hc.
Qed.

Lemma item_lines_total (found : list (string * string)) :
  map_result item_line
    (map (fun '(tag, content) => [("tag", tag); ("content", strip content)])
         found)
  = Ok (map (fun '(tag, content) => (tag ++ " " ++ strip content)%string)
            found).
Proof.
  induction found as [|[tag content] found IH]; [reflexivity|].
  cbn [map map_result]. rewrite IH. reflexivity.
Qed.

Lemma count_lines_table text :
  length (count_lines (count_tags text)) <= 5
  /\ (count_lines (count_tags text) = []
      <-> forall tag, In tag ALL_TAGS -> count text tag = 0).
Proof.
  rewrite count_tags_table. unfold ALL_TAGS, count_lines.
  cbn [map flat_map]. split.
  - rewrite !length_app.
    destruct (Nat.ltb 0 (count text TAG_FACT)),
      (Nat.ltb 0 (count text TAG_ESTIMATE)),
      (Nat.ltb 0 (count text TAG_UNKNOWN)),
      (Nat.ltb 0 (count text TAG_ASSUMPTION)),
      (Nat.ltb 0 (count text TAG_SPECULATION)); cbn; lia.
  - split.
    + intros H tag Hin.
      destruct (Nat.ltb 0 (count text TAG_FACT)) eqn:E1; [discriminate H|].
      destruct (Nat.ltb 0 (count text TAG_ESTIMATE)) eqn:E2;
        [discriminate H|].
      destruct (Nat.ltb 0 (count text TAG_UNKNOWN)) eqn:E3;
        [discriminate H|].
      destruct (Nat.ltb 0 (count text TAG_ASSUMPTION)) eqn:E4;
        [discriminate H|].
      destruct (Nat.ltb 0 (count text TAG_SPECULATION)) eqn:E5;
        [discriminate H|].
      apply Nat.ltb_ge in E1, E2, E3, E4, E5.
      destruct Hin as [<-|[<-|[<-|[<-|[<-|[]]]]]]; lia.
    + intros H.
      rewrite (H TAG_FACT), (H TAG_ESTIMATE), (H TAG_UNKNOWN),
        (H TAG_ASSUMPTION), (H TAG_SPECULATION) by (simpl; tauto).
      reflexivity.
Qed.

Lemma total_tags_zero text :
  total_tags text = 0 <-> forall tag, In tag ALL_TAGS -> count text tag = 0.
Proof.
  unfold total_tags. rewrite count_tags_table, map_map. cbn [snd].
  unfold ALL_TAGS, list_sum. cbn [map fold_right]. split.
  - intros H tag [<-|[<-|[<-|[<-|[<-|[]]]]]]; lia.
  - intros H.
    rewrite (H TAG_FACT), (H TAG_ESTIMATE), (H TAG_UNKNOWN),
      (H TAG_ASSUMPTION), (H TAG_SPECULATION) by (simpl; tauto).
    reflexivity.
Qed.

End UncertaintyTagsProps.

(** ** The report builder *)

Module ReportBuilderProps.
Import ReportBuilder.

Lemma map_result_total {A B : Type} (f : A -> result B) xs :
  (forall x, In x xs -> exists y, f x = Ok y) ->
  exists ys, map_result f xs = Ok ys.
Proof.
  induction xs as [|x xs IH]; intros H; simpl.
  - now exists [].
  - destruct (H x (or_introl eq_refl)) as [y Hy]. rewrite Hy.
    destruct IH as [ys Hys]; [intros x' Hin; apply H; now right|].
    rewrite Hys. now exists (y :: ys).
Qed.

Lemma filter_result_subset {A : Type} (f : A -> result bool) xs ys :
  filter_result f xs = Ok ys -> forall y, In y ys -> In y xs.
Proof.
  revert ys. induction xs as [|x xs IH]; intros ys; simpl.
  - intros H. inversion H. contradiction.
  - destruct (f x) as [b|e]; cbn [bind]; [|discriminate].
    destruct (filter_result f xs) as [ys'|e]; cbn [bind]; [|discriminate].
    intros H y Hin. inversion H; subst.
    destruct b.
    + destruct Hin as [->|Hin]; [now left|right; now apply (IH ys')].
    + right. now apply (IH ys').
Qed.

Lemma filter_result_total {A : Type} (f : A -> result bool) xs :
  (forall x, In x xs -> exists b, f x = Ok b) ->
  exists ys, filter_result f xs = Ok ys.
Proof.
  induction xs as [|x xs IH]; intros H; simpl.
  - now exists [].
  - destruct (H x (or_introl eq_refl)) as [b Hb]. rewrite Hb.
    destruct IH as [ys Hys]; [intros x' Hin; apply H; now right|].
    rewrite Hys. cbn [bind]. eauto.
Qed.

Lemma count_risks_total rs a b c :
  (forall r, In r rs ->
             has_value (RiskRegistry.category r)
             /\ has_value (RiskRegistry.severity r)
             /\ has_value (RiskRegistry.status r)) ->
  exists x, RiskRegistry.count_risks rs a b c = Ok x.
Proof.
  revert a b c. induction rs as [|r rs IH]; intros a b c H; simpl.
  - eauto.
  - destruct (H r (or_introl eq_refl)) as ([cat Hc] & [sev Hs] & [sta Ht]).
    rewrite Hs, Ht, Hc. cbn [bind]. apply IH.
    intros r' Hin. apply H. now right.
Qed.

Lemma in_dict_values {V : Type} (d : list (string * V)) v :
  In v (dict_values d) -> exists k, In (k, v) d.
Proof.
  unfold dict_values. intros H. apply in_map_iff in H.
  destruct H as ([k v'] & Hv & Hin). simpl in Hv. subst. eauto.
Qed.

Lemma get_summary_total registry :
  (forall k r, In (k, r) registry ->
               has_value (RiskRegistry.category r)
               /\ has_value (RiskRegistry.severity r)
               /\ has_value (RiskRegistry.status r)) ->
  exists sm, RiskRegistry.get_summary registry = Ok sm.
Proof.
  intros H. unfold RiskRegistry.get_summary.
  destruct (count_risks_total (dict_values registry) [] [] []) as [[[x y] z] Hx].
  { intros r Hin. destruct (in_dict_values _ _ Hin) as [k Hk]. eauto. }
  rewrite Hx. cbn [bind]. eauto.
Qed.

Lemma in_insert_by_key x y l :
  In y (insert_by_key x l) -> y = x \/ In y l.
Proof.
  induction l as [|z l IH]; simpl.
  - intros [<-|[]]. now left.
  - destruct (key_lt (fst z) (fst x)); simpl.
    + intros [<-|Hin]; [right; now left|].
      destruct (IH Hin); [now left|right; now right].
    + intros [<-|Hin]; [now left|now right].
Qed.

Lemma in_insertion_sorted y l :
  In y (fold_right insert_by_key [] l) -> In y l.
Proof.
  induction l as [|x l IH]; simpl; [tauto|].
  intros H. apply in_insert_by_key in H. destruct H; [now left|right; auto].
Qed.

Lemma sorted_by_severity_id_subset rs out :
  sorted_by_severity_id rs = Ok out -> forall r, In r out -> In r rs.
Proof.
  unfold sorted_by_severity_id.
  destruct (map_result _ rs) as [keyed|] eqn:E; cbn [bind]; [|discriminate].
  intros H r Hin. inversion H; subst; clear H.
  apply in_map_iff in Hin. destruct Hin as ([key r'] & Hr & Hin).
  simpl in Hr. subst r'. apply in_insertion_sorted in Hin.
  revert keyed E Hin. induction rs as [|r0 rs IH]; intros keyed E Hin.
  - simpl in E. inversion E; subst. contradiction.
  - simpl in E.
    destruct (RiskRegistry.enum_value _); cbn [bind] in E; [|discriminate].
    destruct (map_result _ rs) as [keyed'|]; cbn [bind] in E; [|discriminate].
    inversion E; subst; clear E. destruct Hin as [Heq|Hin].
    + inversion Heq; subst. now left.
    + right. now apply (IH keyed').
Qed.

Section RenderTotal.
Variable format_value : pyval -> string.

Lemma executive_summary_total self :
  renderable self -> exists lines, _build_executive_summary self = Ok lines.
Proof.
  unfold renderable, _build_executive_summary.
  destruct (risk_registry self) as [registry|]; intros H.
  - destruct (get_summary_total registry H) as [sm Hsm]. rewrite Hsm.
    cbn [bind]. eauto.
  - cbn [bind]. eauto.
Qed.

Lemma recommendations_total self :
  renderable self -> exists lines, _build_recommendations self = Ok lines.
Proof.
  unfold renderable, _build_recommendations.
  destruct (risk_registry self) as [registry|]; intros H.
  - destruct (get_summary_total registry H) as [sm Hsm]. rewrite Hsm.
    cbn [bind].
    destruct (filter_result_total
                (fun r => bind (RiskRegistry.enum_value (RiskRegistry.status r))
                               (fun v => Ok (String.eqb v "identified")))
                (dict_values registry)) as [ys Hys].
    { intros r Hin. destruct (in_dict_values _ _ Hin) as [k Hk].
      destruct (H k r Hk) as (_ & _ & [v Hv]). rewrite Hv. cbn [bind]. eauto. }
    rewrite Hys. cbn [bind]. eauto.
  - cbn [bind]. eauto.
Qed.

Lemma risk_section_total self :
  renderable self ->
  exists lines, _build_risk_section format_value self = Ok lines.
Proof.
  unfold renderable, _build_risk_section.
  destruct (risk_registry self) as [registry|]; intros H; [|eauto].
  destruct (get_summary_total registry H) as [sm Hsm]. rewrite Hsm.
  cbn [bind].
  assert (Hvals : forall r,
             In r (RiskRegistry.list_risks registry None None None None) ->
             has_value (RiskRegistry.severity r)
             /\ has_value (RiskRegistry.status r)).
  { intros r Hin. unfold RiskRegistry.list_risks in Hin.
    destruct (in_dict_values _ _ Hin) as [k Hk].
    destruct (H k r Hk) as (_ & Hs & Ht). now split. }
  destruct (filter_result_total
              (fun r => bind (RiskRegistry.enum_value (RiskRegistry.severity r))
                             (fun v => Ok (existsb (String.eqb v)
                                                   ["critical"; "high"])))
              (RiskRegistry.list_risks registry None None None None))
    as [high Hhigh].
  { intros r Hin. destruct (Hvals r Hin) as ([v Hv] & _).
    rewrite Hv. cbn [bind]. eauto. }
  rewrite Hhigh. cbn [bind].
  destruct high as [|r0 high]; [eauto|].
  assert (Hsub := filter_result_subset _ _ _ Hhigh).
  destruct (map_result_total
              (fun r => bind (RiskRegistry.enum_value (RiskRegistry.severity r))
                             (fun sev => Ok ((sev, RiskRegistry.id r), r)))
              (r0 :: high)) as [keyed Hkeyed].
  { intros r Hin. destruct (Hvals r (Hsub r Hin)) as ([v Hv] & _).
    rewrite Hv. cbn [bind]. eauto. }
  assert (Hsorted : sorted_by_severity_id (r0 :: high)
                    = Ok (map snd (fold_right insert_by_key [] keyed))).
  { unfold sorted_by_severity_id. now rewrite Hkeyed. }
  rewrite Hsorted. cbn [bind].
  destruct (map_result_total (risk_row format_value)
              (map snd (fold_right insert_by_key [] keyed))) as [rows Hrows].
  { intros r Hin.
    apply (sorted_by_severity_id_subset _ _ Hsorted) in Hin.
    destruct (Hvals r (Hsub r Hin)) as ([v Hv] & [w Hw]).
    unfold risk_row. rewrite Hv, Hw. cbn [bind]. eauto. }
  rewrite Hrows. cbn [bind]. eauto.
Qed.

Lemma build_markdown_lines_total self now :
  renderable self ->
  exists lines, build_markdown_lines format_value self now = Ok lines.
Proof.
  intros H. unfold build_markdown_lines.
  destruct (executive_summary_total self H) as [sl Hsl]. rewrite Hsl.
  destruct (recommendations_total self H) as [recl Hrecl]. rewrite Hrecl.
  destruct (risk_section_total self H) as [rl Hrl]. rewrite Hrl.
  cbn [bind]. destruct (risk_registry self); cbn [bind]; eauto.
Qed.

End RenderTotal.

Lemma checker_issues_set self :
  checker_issues self <> None
  <-> exists issues, policy_checker self = Some issues /\ issues <> [].
Proof.
  unfold checker_issues. destruct (policy_checker self) as [[|i issues]|]; split.
  - intros H. now contradiction H.
  - intros (issues & H & Hne). inversion H; subst. now contradiction Hne.
  - intros _. exists (i :: issues). split; [reflexivity|discriminate].
  - discriminate.
  - intros H. now contradiction H.
  - intros (issues & H & _). discriminate.
Qed.

(** *** The lines of the returned text *)

Lemma lines_of_single s : single_line s = true -> lines_of s = [s].
Proof.
  induction s as [|c s IH]; [reflexivity|].
  cbn [single_line lines_of]. intros H. apply andb_prop in H.
  destruct H as [Hc Hs]. apply negb_true_iff in Hc. rewrite Hc.
  now rewrite (IH Hs).
Qed.

Lemma example_builder_renderable : renderable Examples.builder.
Proof.
  intros k r [H|[H|[]]]; inversion H; subst;
    repeat split; eexists; reflexivity.
Defined.

(** *** The order of the high-priority table *)

Lemma compare_refl s : String.compare s s = Eq.
Proof.
  pose proof (String.compare_antisym s s) as H.
  destruct (String.compare s s); simpl in H; congruence.
Qed.

Lemma compare_lt_trans a b c :
  String.compare a b = Lt -> String.compare b c = Lt ->
  String.compare a c = Lt.
Proof.
  intros H1 H2.
  apply OrderedTypeEx.String_as_OT.cmp_lt.
  apply OrderedTypeEx.String_as_OT.lt_trans with b;
    now apply OrderedTypeEx.String_as_OT.cmp_lt.
Qed.

Lemma ltb_false_iff a b :
  String.ltb a b = false <-> String.compare a b <> Lt.
Proof.
  unfold String.ltb. destruct (String.compare a b); split; congruence.
Qed.

Lemma compare_le_trans a b c :
  String.compare a b <> Gt -> String.compare b c <> Gt ->
  String.compare a c <> Gt.
Proof.
  intros H1 H2.
  destruct (String.compare a b) eqn:E1; [| |congruence].
  - apply String.compare_eq_iff in E1. now subst.
  - destruct (String.compare b c) eqn:E2; [| |congruence].
    + apply String.compare_eq_iff in E2. subst. congruence.
    + rewrite (compare_lt_trans a b c E1 E2). discriminate.
Qed.

Lemma compare_gt_lt a b : String.compare a b = Gt <-> String.compare b a = Lt.
Proof.
  rewrite (String.compare_antisym a b).
  destruct (String.compare b a); simpl; split; congruence.
Qed.

(** [key_le] in terms of the comparison of the two components. *)
Lemma key_le_compare a b :
  key_le a b
  <-> match String.compare (fst a) (fst b) with
      | Lt => True
      | Eq => String.compare (snd a) (snd b) <> Gt
      | Gt => False
      end.
Proof.
  unfold key_le, key_lt.
  destruct (String.eqb_spec (fst b) (fst a)) as [Heq|Hne].
  - rewrite Heq, compare_refl, ltb_false_iff.
    rewrite <- compare_gt_lt. reflexivity.
  - rewrite ltb_false_iff, <- compare_gt_lt.
    destruct (String.compare (fst a) (fst b)) eqn:E.
    + apply String.compare_eq_iff in E. now contradiction Hne.
    + split; [trivial|discriminate].
    + split; [congruence|contradiction].
Qed.

Lemma key_le_trans a b c : key_le a b -> key_le b c -> key_le a c.
Proof.
  rewrite !key_le_compare.
  destruct (String.compare (fst a) (fst b)) eqn:E1; [| |contradiction].
  - apply String.compare_eq_iff in E1. rewrite E1.
    destruct (String.compare (fst b) (fst c)); [|trivial|contradiction].
    apply compare_le_trans.
  - destruct (String.compare (fst b) (fst c)) eqn:E2; [| |contradiction].
    + apply String.compare_eq_iff in E2. rewrite <- E2, E1. trivial.
    + rewrite (compare_lt_trans _ _ _ E1 E2). trivial.
Qed.

Lemma ltb_asym a b : String.ltb a b = true -> String.ltb b a = false.
Proof.
  unfold String.ltb. rewrite (String.compare_antisym b a).
  destruct (String.compare a b); simpl; congruence.
Qed.

Lemma key_lt_le a b : key_lt a b = true -> key_le a b.
Proof.
  unfold key_le, key_lt. rewrite (String.eqb_sym (fst b) (fst a)).
  destruct (String.eqb (fst a) (fst b)); apply ltb_asym.
Qed.

Lemma insert_by_key_perm x l :
  Permutation.Permutation (x :: l) (insert_by_key x l).
Proof.
  induction l as [|y l IH]; cbn [insert_by_key].
  - apply Permutation.Permutation_refl.
  - destruct (key_lt (fst y) (fst x)).
    + eapply Permutation.perm_trans; [apply Permutation.perm_swap|].
      now apply Permutation.perm_skip.
    + apply Permutation.Permutation_refl.
Qed.

Lemma insertion_sort_perm l :
  Permutation.Permutation l (fold_right insert_by_key [] l).
Proof.
  induction l as [|x l IH]; cbn [fold_right].
  - apply Permutation.perm_nil.
  - eapply Permutation.perm_trans; [|apply insert_by_key_perm].
    now apply Permutation.perm_skip.
Qed.

Lemma insert_by_key_sorted x l :
  Sorted.StronglySorted (fun a b => key_le (fst a) (fst b)) l ->
  Sorted.StronglySorted (fun a b => key_le (fst a) (fst b))
                        (insert_by_key x l).
Proof.
  induction 1 as [|y l Hs IH Hy]; cbn [insert_by_key].
  - constructor; constructor.
  - destruct (key_lt (fst y) (fst x)) eqn:E.
    + constructor; [exact IH|].
      apply Forall_forall. intros z Hz.
      apply in_insert_by_key in Hz. destruct Hz as [->|Hz].
      * now apply key_lt_le.
      * rewrite Forall_forall in Hy. now apply Hy.
    + constructor; [now constructor|].
      constructor; [exact E|].
      apply Forall_forall. intros z Hz. rewrite Forall_forall in Hy.
      apply key_le_trans with (fst y); [exact E|now apply Hy].
Qed.

Lemma insertion_sort_sorted l :
  Sorted.StronglySorted (fun a b => key_le (fst a) (fst b))
                        (fold_right insert_by_key [] l).
Proof.
  induction l as [|x l IH]; cbn [fold_right]; [constructor|].
  now apply insert_by_key_sorted.
Qed.

Lemma keyed_rows rs keyed :
  map_result
    (fun r =>
       bind (RiskRegistry.enum_value (RiskRegistry.severity r))
            (fun sev => Ok ((sev, RiskRegistry.id r), r))) rs = Ok keyed ->
  map snd keyed = rs /\ Forall (fun kr => fst kr = sort_key (snd kr)) keyed.
Proof.
  revert keyed. induction rs as [|r rs IH]; intros keyed H; cbn in H.
  - inversion H. split; [reflexivity|constructor].
  - destruct (RiskRegistry.enum_value (RiskRegistry.severity r)) as [sev|]
      eqn:Es; cbn [bind] in H; [|discriminate].
    destruct (map_result _ rs) as [keyed'|]; cbn [bind] in H; [|discriminate].
    inversion H; subst; clear H. destruct (IH keyed' eq_refl) as [Hm Hf].
    split; [cbn; now rewrite Hm|].
    constructor; [|exact Hf]. unfold sort_key. cbn [fst snd]. now rewrite Es.
Qed.

Lemma strongly_sorted_map_snd keyed :
  Forall (fun kr => fst kr = sort_key (snd kr)) keyed ->
  Sorted.StronglySorted (fun a b => key_le (fst a) (fst b)) keyed ->
  Sorted.StronglySorted row_le (map snd keyed).
Proof.
  intros Hk Hs. induction Hs as [|kr l Hs IH Hall]; cbn [map]; [constructor|].
  inversion Hk as [|? ? Hkr Hl]; subst.
  constructor; [now apply IH|].
  apply Forall_forall. intros r Hr. apply in_map_iff in Hr.
  destruct Hr as (kr' & <- & Hin). rewrite Forall_forall in Hall, Hl.
  unfold row_le. rewrite <- Hkr, <- (Hl kr' Hin). now apply Hall.
Qed.

Lemma sorted_rows rs out :
  sorted_by_severity_id rs = Ok out ->
  Permutation.Permutation rs out /\ Sorted.StronglySorted row_le out.
Proof.
  unfold sorted_by_severity_id.
  destruct (map_result _ rs) as [keyed|] eqn:E; cbn [bind]; [|discriminate].
  intros H. inversion H; subst; clear H.
  destruct (keyed_rows rs keyed E) as [Hm Hk]. split.
  - rewrite <- Hm at 1. apply Permutation.Permutation_map.
    apply insertion_sort_perm.
  - apply strongly_sorted_map_snd; [|apply insertion_sort_sorted].
    rewrite Forall_forall in *. intros kr Hin. apply Hk.
    now apply in_insertion_sorted.
Qed.

(** X22.  The rows of the high-priority table are the risks given, each once,
    ordered by severity value and then by id: every row is no later in that
    order than every row below it.  As [critical] sorts before [high], a
    critical risk is never below a high one.  The sort raises exactly when the
    severity of one of the risks has no value. *)
Theorem high_priority_rows_are_sorted :
  forall rs,
    (forall out,
        sorted_by_severity_id rs = Ok out ->
        Permutation.Permutation rs out
        /\ Sorted.StronglySorted row_le out)
    /\ ((exists out, sorted_by_severity_id rs = Ok out)
        <-> Forall (fun r => has_value (RiskRegistry.severity r)) rs)
    /\ (forall a b,
           RiskRegistry.severity a = PSeverity Severity.CRITICAL ->
           RiskRegistry.severity b = PSeverity Severity.HIGH ->
           row_le a b /\ ~ row_le b a).
Proof.
  intros rs. split; [|split].
  3:{ intros a b Ha Hb. unfold row_le, sort_key, key_le, key_lt.
      rewrite Ha, Hb. cbn. split; [reflexivity|discriminate]. }
  - intros out H. now apply sorted_rows.
  - unfold sorted_by_severity_id. split.
    + intros [out H].
      destruct (map_result _ rs) as [keyed|] eqn:E; cbn [bind] in H;
        [|discriminate].
      clear H out. revert keyed E.
      induction rs as [|r rs IH]; intros keyed E; [constructor|].
      cbn in E.
      destruct (RiskRegistry.enum_value (RiskRegistry.severity r)) as [sev|]
        eqn:Es; cbn [bind] in E; [|discriminate].
      destruct (map_result _ rs) as [keyed'|]; cbn [bind] in E;
        [|discriminate].
      constructor; [now exists sev|]. now apply (IH keyed').
    + intros Hall.
      destruct (map_result_total
                  (fun r =>
                     bind (RiskRegistry.enum_value (RiskRegistry.severity r))
                          (fun sev => Ok ((sev, RiskRegistry.id r), r))) rs)
        as [keyed Hk].
      { intros r Hin. rewrite Forall_forall in Hall.
        destruct (Hall r Hin) as [v Hv]. rewrite Hv. cbn [bind]. eauto. }
      rewrite Hk. cbn [bind]. eauto.
Qed.

Lemma high_priority_rows_are_sorted_witness :
  sorted_by_severity_id [Examples.risk_001; Examples.risk_002]
  = Ok [Examples.risk_002; Examples.risk_001]
  /\ Sorted.StronglySorted row_le [Examples.risk_002; Examples.risk_001].
Proof.
  split; [reflexivity|].
  exact (proj2 (proj1 (high_priority_rows_are_sorted
                         [Examples.risk_001; Examples.risk_002])
                      _ eq_refl)).
Defined.

(** *** The recommendations *)

Lemma filter_result_filter {A : Type} (f : A -> result bool) xs ys :
  filter_result f xs = Ok ys ->
  ys = filter (fun x => match f x with Ok b => b | Err _ => false end) xs.
Proof.
  revert ys. induction xs as [|x xs IH]; intros ys H; cbn in H.
  - now inversion H.
  - destruct (f x) as [b|] eqn:Ef; cbn [bind] in H; [|discriminate].
    destruct (filter_result f xs) as [ys'|]; cbn [bind] in H; [|discriminate].
    inversion H; subst; clear H. cbn [filter]. rewrite Ef.
    now rewrite (IH ys' eq_refl).
Qed.

Lemma tally_zero f rs v :
  RiskRegistry.tally f rs v = 0
  <-> forall r, In r rs -> RiskRegistry.enum_value (f r) <> Ok v.
Proof.
  unfold RiskRegistry.tally. rewrite length_zero_iff_nil, PolicyCheckerProps.filter_nil_iff.
  split; intros H r Hin; specialize (H r Hin).
  - destruct (RiskRegistry.enum_value (f r)) as [s|]; [|discriminate].
    intros Heq. inversion Heq; subst. now rewrite String.eqb_refl in H.
  - destruct (RiskRegistry.enum_value (f r)) as [s|]; [|reflexivity].
    apply String.eqb_neq. intros ->. now apply H.
Qed.

Lemma summary_critical registry sm :
  RiskRegistry.get_summary registry = Ok sm ->
  count_of (RiskRegistry.by_severity sm) "critical"
  = RiskRegistry.tally RiskRegistry.severity (dict_values registry) "critical".
Proof.
  unfold RiskRegistry.get_summary.
  destruct (RiskRegistry.count_risks _ [] [] []) as [[[a b] c]|] eqn:E;
    cbn [bind]; [|discriminate].
  intros H. inversion H; subst; clear H. cbn [RiskRegistry.by_severity].
  destruct (RiskRegistryProps.count_risks_tallies _ _ _ _ _ _ _ E "critical")
    as (Ha & _). exact Ha.
Qed.

Lemma identified_none (rs ys : list RiskRegistry.Risk) :
  filter_result
    (fun r =>
       bind (RiskRegistry.enum_value (RiskRegistry.status r))
            (fun v => Ok (String.eqb v "identified"))) rs = Ok ys ->
  (ys = [] <-> forall r, In r rs ->
                         RiskRegistry.enum_value (RiskRegistry.status r)
                         <> Ok "identified").
Proof.
  intros H. apply filter_result_filter in H. subst ys. rewrite PolicyCheckerProps.filter_nil_iff.
  split; intros H r Hin; specialize (H r Hin).
  - destruct (RiskRegistry.enum_value (RiskRegistry.status r)) as [s|];
      [|discriminate].
    cbn [bind] in H. intros Heq. inversion Heq; subst. discriminate H.
  - destruct (RiskRegistry.enum_value (RiskRegistry.status r)) as [s|];
      [|reflexivity].
    cbn [bind]. apply String.eqb_neq. intros ->. now apply H.
Qed.

Lemma bulleted_prefix recs :
  Forall (fun line => String.prefix "- " line = true)
         (map (fun rec => ("- " ++ rec)%string) recs).
Proof.
  induction recs as [|rec recs IH]; cbn [map]; [constructor|].
  constructor; [now destruct rec|assumption].
Qed.

Lemma ltb_0_false n : Nat.ltb 0 n = false <-> n = 0.
Proof.
  destruct n; cbn; split; try reflexivity; try discriminate.
Qed.

(** X23.  Whenever [_build_recommendations] returns, the list is not empty and
    every entry is a bullet; at most four recommendations are made.  The list
    is the pair of default recommendations exactly when no risk of the
    registry is critical or still identified and the checker, if it holds
    issues, holds no error and at most five warnings. *)
Theorem recommendations_default_iff_nothing_urgent :
  forall self lines,
    _build_recommendations self = Ok lines ->
    lines <> []
    /\ length lines <= 4
    /\ Forall (fun line => String.prefix "- " line = true) lines
    /\ (lines = DEFAULT_RECOMMENDATIONS <-> nothing_urgent self).
Proof.
  intros self lines. unfold _build_recommendations, nothing_urgent.
  set (policy_recs :=
         match checker_issues self with
         | Some issues => _
         | None => []
         end).
  assert (Hpol : (policy_recs = []
                  <-> forall issues,
                      checker_issues self = Some issues ->
                      PolicyChecker.issues_of "error" issues = []
                      /\ length (PolicyChecker.issues_of "warning" issues) <= 5)
                 /\ length policy_recs <= 2
                 /\ forall rest, map (fun rec => ("- " ++ rec)%string)
                                     (policy_recs ++ rest)
                                 = DEFAULT_RECOMMENDATIONS ->
                                 policy_recs = []).
  { subst policy_recs. destruct (checker_issues self) as [issues|].
    - unfold PolicyChecker.get_summary.
      cbn [PolicyChecker.errors PolicyChecker.warnings].
      split; [|split].
      + split.
        * intros H issues' Heq. inversion Heq; subst issues'.
          apply app_eq_nil in H. destruct H as [He Hw].
          destruct (Nat.ltb 0 (length (PolicyChecker.issues_of "error" issues)))
            eqn:E1; [discriminate|].
          destruct (Nat.ltb 5 (length (PolicyChecker.issues_of "warning" issues)))
            eqn:E2; [discriminate|].
          apply ltb_0_false, length_zero_iff_nil in E1.
          apply Nat.ltb_ge in E2. now split.
        * intros H. destruct (H issues eq_refl) as [He Hw].
          apply Nat.ltb_ge in Hw. rewrite Hw, He. reflexivity.
      + destruct (Nat.ltb 0 _), (Nat.ltb 5 _); cbn; auto.
      + intros rest.
        destruct (Nat.ltb 0 _), (Nat.ltb 5 _); cbn; intros H;
          try reflexivity; discriminate H.
    - split; [|split; [cbn; auto|reflexivity]].
      split; [discriminate|reflexivity]. }
  destruct Hpol as (Hpol & Hplen & Hpdef). clearbody policy_recs.
  destruct (risk_registry self) as [registry|].
  - destruct (RiskRegistry.get_summary registry) as [sm|] eqn:Hsm;
      cbn [bind]; [|discriminate].
    destruct (filter_result _ (dict_values registry)) as [identified|] eqn:Hid;
      cbn [bind]; [|discriminate].
    pose proof (summary_critical registry sm Hsm) as Hcrit.
    pose proof (identified_none _ _ Hid) as Hident.
    set (critical_count := count_of (RiskRegistry.by_severity sm) "critical")
      in *.
    clearbody critical_count.
    set (risk_recs :=
           ((if Nat.ltb 0 critical_count then _ else []) ++ _) : list string).
    assert (Hrisk : (risk_recs = []
                     <-> forall r, In r (dict_values registry) ->
                                   RiskRegistry.enum_value (RiskRegistry.severity r)
                                   <> Ok "critical"
                                   /\ RiskRegistry.enum_value
                                        (RiskRegistry.status r)
                                      <> Ok "identified")
                    /\ length risk_recs <= 2
                    /\ forall rest, map (fun rec => ("- " ++ rec)%string)
                                        (risk_recs ++ rest)
                                    = DEFAULT_RECOMMENDATIONS ->
                                    risk_recs = []).
    { subst risk_recs. split; [|split].
      - split.
        + intros H. apply app_eq_nil in H. destruct H as [Hc Hi].
          destruct (Nat.ltb 0 critical_count) eqn:E1; [discriminate|].
          apply ltb_0_false in E1. rewrite E1 in Hcrit. symmetry in Hcrit.
          rewrite tally_zero in Hcrit.
          assert (Hnil : identified = [])
            by (destruct identified; [reflexivity|discriminate]).
          intros r Hin. split; [now apply Hcrit|].
          now apply (proj1 Hident Hnil).
        + intros H.
          assert (Hz : critical_count = 0).
          { rewrite Hcrit. apply tally_zero. intros r Hin. now apply H. }
          assert (Hnil : identified = []).
          { apply Hident. intros r Hin. now apply H. }
          rewrite Hz, Hnil. reflexivity.
      - destruct (Nat.ltb 0 critical_count), identified; cbn; auto.
      - intros rest.
        destruct (Nat.ltb 0 critical_count), identified; cbn; intros H;
          try reflexivity; discriminate H. }
    destruct Hrisk as (Hrisk & Hrlen & Hrdef).
    intros H. inversion H; subst lines; clear H.
    destruct (risk_recs ++ policy_recs) as [|rec recs] eqn:Hrecs.
    + apply app_eq_nil in Hrecs. destruct Hrecs as [Hr Hp].
      split; [discriminate|]. split; [cbn; auto|].
      split; [apply bulleted_prefix|].
      split; [intros _|reflexivity]. split.
      * intros registry' r Heq. inversion Heq; subst registry'.
        now apply Hrisk.
      * now apply Hpol.
    + split; [discriminate|]. split.
      { rewrite <- Hrecs, length_map, length_app.
        apply (Nat.add_le_mono _ 2 _ 2); assumption. }
      split; [apply bulleted_prefix|].
      split.
      * intros Hdef. exfalso. rewrite <- Hrecs in Hdef.
        pose proof (Hrdef _ Hdef) as Hr. rewrite Hr in Hdef, Hrecs.
        cbn [app] in Hdef, Hrecs.
        rewrite <- (app_nil_r policy_recs) in Hdef.
        pose proof (Hpdef _ Hdef) as Hp. rewrite Hp in Hrecs.
        discriminate Hrecs.
      * intros [Hr Hp]. exfalso.
        assert (Hr' : risk_recs = []).
        { apply Hrisk. intros r Hin. now apply (Hr registry). }
        assert (Hp' : policy_recs = []) by now apply Hpol.
        rewrite Hr', Hp' in Hrecs. discriminate Hrecs.
  - cbn [bind app]. intros H. inversion H; subst lines; clear H.
    destruct policy_recs as [|rec recs] eqn:Hrecs.
    + split; [discriminate|]. split; [cbn; auto|].
      split; [apply bulleted_prefix|].
      split; [intros _|reflexivity]. split; [discriminate|].
      now apply Hpol.
    + split; [discriminate|]. split.
      { rewrite length_map. apply Nat.le_trans with 2; [exact Hplen|auto]. }
      split; [apply bulleted_prefix|]. split.
      * intros Hdef. exfalso.
        rewrite <- (app_nil_r (rec :: recs)) in Hdef.
        discriminate (Hpdef _ Hdef).
      * intros [_ Hp]. exfalso.
        assert (Hp' : rec :: recs = []) by now apply Hpol.
        discriminate Hp'.
Qed.

Lemma recommendations_default_iff_nothing_urgent_witness :
  exists lines,
    _build_recommendations Examples.builder = Ok lines
    /\ length lines = 4 /\ lines <> DEFAULT_RECOMMENDATIONS.
Proof.
  eexists. split; [reflexivity|]. split; [reflexivity|].
  intros Hdef.
  destruct (proj1 (proj2 (proj2 (proj2
              (recommendations_default_iff_nothing_urgent
                 Examples.builder _ eq_refl))))
            Hdef) as [Hrisk _].
  destruct (Hrisk Examples.registry Examples.risk_002 eq_refl
                  (or_intror (or_introl eq_refl))) as [Hcrit _].
  now apply Hcrit.
Defined.

(** *** The high-priority table *)

Section RiskTable.
Variable format_value : pyval -> string.

Lemma summary_lines_no_table_heading (sm : RiskRegistry.summary) :
  Forall (fun line => line <> "### High Priority Risks")
         ([ "### Risk Summary"; "";
            ("Total Risks: " ++ str_of_nat (RiskRegistry.total sm))%string;
            ""; "**By Severity:**" ]
            ++ map (fun '(severity, count) =>
                      ("- " ++ title severity ++ ": "
                         ++ str_of_nat count)%string)
                   (RiskRegistry.by_severity sm)
            ++ [ ""; "**By Category:**" ]
            ++ map (fun '(category, count) =>
                      ("- " ++ title (UncertaintyTags.replace category "_" " ")
                         ++ ": " ++ str_of_nat count)%string)
                   (RiskRegistry.by_category sm)
            ++ [ "" ]).
Proof.
  repeat first
    [ apply Forall_app; split
    | apply Forall_cons; [discriminate|]
    | apply Forall_nil
    | apply Forall_forall; intros line Hin; apply in_map_iff in Hin;
      destruct Hin as ([k n] & <- & _); discriminate ].
Qed.

(** X24.  The risk section ends with the high-priority table exactly when
    some risk of the registry is critical or high.  The table then has one
    row per such risk and none for any other: the rows are those of the
    critical and high risks, each once, ordered by severity value and id.
    Nothing before the table is its heading. *)
Theorem risk_section_table_lists_critical_and_high :
  forall self registry lines,
    risk_registry self = Some registry ->
    _build_risk_section format_value self = Ok lines ->
    exists summary_lines,
      Forall (fun line => line <> "### High Priority Risks") summary_lines
      /\ match filter high_priority (dict_values registry) with
         | [] => lines = summary_lines
         | high =>
             exists ordered rows,
               lines = summary_lines ++ TABLE_HEAD ++ rows ++ [ "" ]
               /\ Permutation.Permutation high ordered
               /\ Sorted.StronglySorted row_le ordered
               /\ map_result (risk_row format_value) ordered = Ok rows
               /\ length rows = length high
         end.
Proof.
  intros self registry lines Hreg. unfold _build_risk_section. rewrite Hreg.
  destruct (RiskRegistry.get_summary registry) as [sm|]; cbn [bind];
    [|discriminate].
  destruct (filter_result _ _) as [high|] eqn:Hhigh; cbn [bind];
    [|discriminate].
  assert (Hfilter : high = filter high_priority (dict_values registry)).
  { apply filter_result_filter in Hhigh. rewrite Hhigh.
    apply filter_ext. intros r. unfold high_priority.
    now destruct (RiskRegistry.enum_value (RiskRegistry.severity r)). }
  rewrite <- Hfilter. intros Hlines.
  eexists. split; [apply (summary_lines_no_table_heading sm)|].
  destruct high as [|r0 high]; [now inversion Hlines|].
  destruct (sorted_by_severity_id (r0 :: high)) as [ordered|] eqn:Hsort;
    cbn [bind] in Hlines; [|discriminate].
  destruct (map_result (risk_row format_value) ordered) as [rows|] eqn:Hrows;
    cbn [bind] in Hlines; [|discriminate].
  inversion Hlines; subst lines; clear Hlines.
  destruct (sorted_rows _ _ Hsort) as [Hperm Hsorted].
  exists ordered, rows. split; [reflexivity|].
  split; [exact Hperm|]. split; [exact Hsorted|]. split; [exact Hrows|].
  assert (Hlen : forall xs ys, map_result (risk_row format_value) xs = Ok ys ->
                               length ys = length xs).
  { induction xs as [|x xs IH]; intros ys Hm; cbn in Hm.
    - now inversion Hm.
    - destruct (risk_row format_value x); cbn [bind] in Hm; [|discriminate].
      destruct (map_result _ xs) as [ys'|]; cbn [bind] in Hm; [|discriminate].
      inversion Hm; subst. cbn. now rewrite (IH ys' eq_refl). }
  rewrite (Hlen _ _ Hrows). symmetry. now apply Permutation.Permutation_length.
Qed.

End RiskTable.

Lemma risk_section_table_lists_critical_and_high_witness :
  exists lines summary_lines rows,
    _build_risk_section (fun _ => "") Examples.builder = Ok lines
    /\ lines = summary_lines ++ TABLE_HEAD ++ rows ++ [ "" ]
    /\ length rows = 2.
Proof.
  destruct (risk_section_table_lists_critical_and_high
              (fun _ => "") Examples.builder Examples.registry _
              eq_refl eq_refl)
    as (summary_lines & _ & H).
  cbn [filter dict_values map snd Examples.registry] in H.
  change (high_priority Examples.risk_001) with true in H.
  change (high_priority Examples.risk_002) with true in H.
  cbn iota in H. destruct H as (ordered & rows & Hl & _ & _ & _ & Hlen).
  eexists. exists summary_lines, rows.
  split; [reflexivity|]. split; [exact Hl|exact Hlen].
Defined.

(** *** When a report can be built *)

Lemma count_risks_values rs a b c x :
  RiskRegistry.count_risks rs a b c = Ok x ->
  forall r, In r rs ->
            has_value (RiskRegistry.category r)
            /\ has_value (RiskRegistry.severity r)
            /\ has_value (RiskRegistry.status r).
Proof.
  revert a b c. induction rs as [|r0 rs IH]; intros a b c H r Hin;
    [contradiction|]. cbn [RiskRegistry.count_risks] in H.
  destruct (RiskRegistry.enum_value (RiskRegistry.severity r0)) as [sev|]
    eqn:Es; cbn [bind] in H; [|discriminate].
  destruct (RiskRegistry.enum_value (RiskRegistry.status r0)) as [sta|]
    eqn:Et; cbn [bind] in H; [|discriminate].
  destruct (RiskRegistry.enum_value (RiskRegistry.category r0)) as [cat|]
    eqn:Ec; cbn [bind] in H; [|discriminate].
  destruct Hin as [<-|Hin]; [|now apply (IH _ _ _ H)].
  unfold has_value. repeat split; eexists; eassumption.
Qed.

Lemma get_summary_values registry sm :
  RiskRegistry.get_summary registry = Ok sm ->
  forall k r, In (k, r) registry ->
              has_value (RiskRegistry.category r)
              /\ has_value (RiskRegistry.severity r)
              /\ has_value (RiskRegistry.status r).
Proof.
  unfold RiskRegistry.get_summary.
  destruct (RiskRegistry.count_risks _ [] [] []) as [x|] eqn:E;
    cbn [bind]; [|discriminate].
  intros _ k r Hin. apply (count_risks_values _ _ _ _ _ E).
  unfold dict_values. apply in_map_iff. now exists (k, r).
Qed.

Lemma count_risks_error rs a b c e :
  RiskRegistry.count_risks rs a b c = Err e -> e = AttributeError "value".
Proof.
  revert a b c. induction rs as [|r0 rs IH]; intros a b c H;
    cbn [RiskRegistry.count_risks] in H; [discriminate|].
  destruct (RiskRegistry.enum_value (RiskRegistry.severity r0)) as [sev|e1]
    eqn:Es; cbn [bind] in H;
    [|inversion H; subst; now apply RiskRegistryProps.enum_value_error in Es].
  destruct (RiskRegistry.enum_value (RiskRegistry.status r0)) as [sta|e1]
    eqn:Et; cbn [bind] in H;
    [|inversion H; subst; now apply RiskRegistryProps.enum_value_error in Et].
  destruct (RiskRegistry.enum_value (RiskRegistry.category r0)) as [cat|e1]
    eqn:Ec; cbn [bind] in H;
    [|inversion H; subst; now apply RiskRegistryProps.enum_value_error in Ec].
  now apply (IH _ _ _ H).
Qed.

Lemma get_summary_error registry e :
  RiskRegistry.get_summary registry = Err e -> e = AttributeError "value".
Proof.
  unfold RiskRegistry.get_summary.
  destruct (RiskRegistry.count_risks _ [] [] []) as [[[a b] c]|e'] eqn:E;
    cbn [bind]; [discriminate|].
  intros H. inversion H; subst. now apply count_risks_error in E.
Qed.

(** X25.  [build_markdown] returns a text exactly when every risk of the
    registry holds members of enumerations in its category, severity and
    status (the likelihood is not read); otherwise it raises the
    [AttributeError] of the first [.value] that fails, before any line is
    returned. *)
Theorem build_markdown_returns_iff_renderable :
  forall format_value self now,
    ((exists text, build_markdown format_value self now = Ok text)
     <-> renderable self)
    /\ (forall e, build_markdown format_value self now = Err e ->
                  e = AttributeError "value").
Proof.
  intros format_value self now.
  assert (Hok : renderable self ->
                exists text, build_markdown format_value self now = Ok text).
  { intros H. unfold build_markdown.
    destruct (build_markdown_lines_total format_value self now H) as [l Hl].
    rewrite Hl. cbn [bind]. eauto. }
  assert (Hcases : renderable self
                   \/ build_markdown format_value self now
                      = Err (AttributeError "value")).
  { unfold renderable, build_markdown, build_markdown_lines,
      _build_executive_summary.
    destruct (risk_registry self) as [registry|]; [|now left].
    destruct (RiskRegistry.get_summary registry) as [sm|e] eqn:Hsm.
    - left. now apply get_summary_values with sm.
    - right. cbn [bind]. now rewrite (get_summary_error _ _ Hsm). }
  split; [split; [|exact Hok]|].
  - intros [text Ht]. destruct Hcases as [H|H]; [exact H|congruence].
  - intros e He. destruct Hcases as [H|H]; [|congruence].
    destruct (Hok H) as [text Ht]. congruence.
Qed.

Lemma export_total registry :
  (forall k r, In (k, r) registry ->
               exists d, RiskRegistry.to_dict r = Ok d) ->
  exists docs, RiskRegistry.export_risks_to_dict registry = Ok docs.
Proof.
  intros H. unfold RiskRegistry.export_risks_to_dict.
  apply map_result_total. intros r Hin.
  destruct (in_dict_values _ _ Hin) as [k Hk].
  destruct (H k r Hk) as [d Hd]. rewrite Hd. cbn [bind]. eauto.
Qed.

Lemma to_dict_values r :
  (exists d, RiskRegistry.to_dict r = Ok d)
  <-> has_value (RiskRegistry.category r)
      /\ has_value (RiskRegistry.severity r)
      /\ has_value (RiskRegistry.likelihood r)
      /\ has_value (RiskRegistry.status r).
Proof.
  unfold RiskRegistry.to_dict, has_value.
  destruct (RiskRegistry.enum_value (RiskRegistry.category r)) as [c|];
    cbn [bind].
  2:{ split; [intros [d H]; discriminate|intros ([c H] & _); discriminate]. }
  destruct (RiskRegistry.enum_value (RiskRegistry.severity r)) as [s|];
    cbn [bind].
  2:{ split; [intros [d H]; discriminate|intros (_ & [c' H] & _); discriminate]. }
  destruct (RiskRegistry.enum_value (RiskRegistry.likelihood r)) as [l|];
    cbn [bind].
  2:{ split; [intros [d H]; discriminate
             |intros (_ & _ & [c' H] & _); discriminate]. }
  destruct (RiskRegistry.enum_value (RiskRegistry.status r)) as [st|];
    cbn [bind].
  2:{ split; [intros [d H]; discriminate
             |intros (_ & _ & _ & [c' H]); discriminate]. }
  split; intros _; eauto 10.
Qed.

Lemma export_values registry docs :
  RiskRegistry.export_risks_to_dict registry = Ok docs ->
  forall k r, In (k, r) registry -> exists d, RiskRegistry.to_dict r = Ok d.
Proof.
  unfold RiskRegistry.export_risks_to_dict, dict_values.
  revert docs. induction registry as [|[k0 r0] registry IH];
    intros docs H k r Hin; [contradiction|].
  cbn in H.
  destruct (RiskRegistry.to_dict r0) as [d|] eqn:Ed; cbn [bind] in H;
    [|discriminate].
  destruct (map_result _ (map snd registry)) as [docs'|] eqn:E;
    cbn [bind] in H; [|discriminate].
  destruct Hin as [Heq|Hin].
  - inversion Heq; subst. eauto.
  - now apply (IH docs' eq_refl k r).
Qed.

Lemma export_error registry e :
  RiskRegistry.export_risks_to_dict registry = Err e ->
  e = AttributeError "value".
Proof.
  unfold RiskRegistry.export_risks_to_dict.
  induction (dict_values registry) as [|r rs IH]; cbn; [discriminate|].
  destruct (RiskRegistry.to_dict r) as [d|e'] eqn:Ed; cbn [bind].
  - destruct (map_result _ rs) as [docs|e'']; cbn [bind]; [discriminate|].
    intros H. inversion H; subst. now apply IH.
  - intros H. inversion H; subst.
    now apply RiskRegistryProps.to_dict_error in Ed.
Qed.

(** [build_dict] either returns, on a registry whose risks can all be
    exported, or raises [AttributeError]. *)
Lemma build_dict_outcome self now :
  (exportable self /\ exists report, build_dict self now = Ok report)
  \/ (~ exportable self
      /\ build_dict self now = Err (AttributeError "value")).
Proof.
  unfold build_dict, exportable.
  destruct (risk_registry self) as [registry|]; [|left; cbn [bind]; eauto].
  destruct (RiskRegistry.get_summary registry) as [sm|e1] eqn:Hsm;
    cbn [bind].
  - destruct (RiskRegistry.export_risks_to_dict registry) as [docs|e2]
      eqn:Hex; cbn [bind].
    + left. split; [|eauto]. intros k r Hin. apply to_dict_values.
      now apply (export_values registry docs Hex k r).
    + right. split; [|now rewrite (export_error _ _ Hex)].
      intros Hall.
      destruct (export_total registry) as [docs Hdocs]; [|congruence].
      intros k r Hin. apply to_dict_values. now apply (Hall k r).
  - right. split; [|now rewrite (get_summary_error _ _ Hsm)].
    intros Hall.
    destruct (get_summary_total registry) as [sm Hsm']; [|congruence].
    intros k r Hin. destruct (Hall k r Hin). tauto.
Qed.

(** X26.  [build_dict] returns a report exactly when every risk of the
    registry holds members of enumerations in all four enumeration fields, the
    likelihood included: it can raise where [build_markdown] returns, never
    the other way round.  What it raises is an [AttributeError].  A report it
    returns has the five keys of the literal in their order; [risks] is [None]
    exactly when no registry is set, [policy] exactly when no checker is set
    or the checker holds no issue. *)
Theorem build_dict_returns_iff_exportable :
  forall self now,
    ((exists report, build_dict self now = Ok report) <-> exportable self)
    /\ (exportable self -> renderable self)
    /\ (forall e, build_dict self now = Err e -> e = AttributeError "value")
    /\ (forall report,
           build_dict self now = Ok report ->
           exists risks policy,
             report
             = PDict [ ("system",
                        PDict [ ("name", PStr (system_name self));
                                ("version", PStr (system_version self)) ]);
                       ("generated_at", PStr now);
                       ("risks", risks);
                       ("policy", policy);
                       ("notes", PList (map PStr (manual_notes self))) ]
             /\ (risks = PNone <-> risk_registry self = None)
             /\ (policy = PNone <-> checker_issues self = None)).
Proof.
  intros self now.
  pose proof (build_dict_outcome self now) as Hout.
  split; [|split; [|split]].
  - split.
    + intros [report H]. destruct Hout as [[Hexp _]|[_ Herr]];
        [exact Hexp|congruence].
    + intros Hexp. destruct Hout as [[_ Hret]|[Hnot _]];
        [exact Hret|contradiction].
  - unfold exportable, renderable.
    destruct (risk_registry self) as [registry|]; [|trivial].
    intros Hall k r Hin. destruct (Hall k r Hin). tauto.
  - intros e H. destruct Hout as [[_ [report Hret]]|[_ Herr]]; congruence.
  - unfold build_dict. intros report H.
    destruct (risk_registry self) as [registry|].
    + destruct (RiskRegistry.get_summary registry) as [sm|]; cbn [bind] in H;
        [|discriminate].
      destruct (RiskRegistry.export_risks_to_dict registry) as [docs|];
        cbn [bind] in H; [|discriminate].
      inversion H; subst; clear H.
      eexists. eexists. split; [reflexivity|].
      split; [split; discriminate|].
      destruct (checker_issues self); split; congruence.
    + cbn [bind] in H. inversion H; subst; clear H.
      eexists. eexists. split; [reflexivity|].
      split; [split; reflexivity|].
      destruct (checker_issues self); split; congruence.
Qed.

Lemma build_dict_returns_iff_exportable_witness :
  exists report,
    build_dict Examples.builder "2024-01-15T10:30:00" = Ok report.
Proof.
  apply (proj1 (build_dict_returns_iff_exportable
                  Examples.builder "2024-01-15T10:30:00")).
  unfold exportable. cbn [risk_registry Examples.builder add_note
                          set_policy_checker set_risk_registry].
  intros k r [H|[H|[]]]; inversion H; subst;
    repeat split; eexists; reflexivity.
Defined.

(** *** Writing the report as JSON *)

Lemma to_dict_json r d :
  RiskRegistry.to_dict r = Ok d ->
  RiskRegistry.json_serializable (PDict d) = json_fields r.
Proof.
  unfold RiskRegistry.to_dict, json_fields.
  destruct (RiskRegistry.enum_value (RiskRegistry.category r));
    cbn [bind]; [|discriminate].
  destruct (RiskRegistry.enum_value (RiskRegistry.severity r));
    cbn [bind]; [|discriminate].
  destruct (RiskRegistry.enum_value (RiskRegistry.likelihood r));
    cbn [bind]; [|discriminate].
  destruct (RiskRegistry.enum_value (RiskRegistry.status r));
    cbn [bind]; [|discriminate].
  intros H. inversion H; subst; clear H.
  cbn [RiskRegistry.json_serializable forallb snd].
  destruct (RiskRegistry.json_serializable (RiskRegistry.title r)),
    (RiskRegistry.json_serializable (RiskRegistry.description r)),
    (RiskRegistry.json_serializable (RiskRegistry.mitigations r)),
    (RiskRegistry.json_serializable (RiskRegistry.owner r)),
    (RiskRegistry.json_serializable (RiskRegistry.metadata r));
    reflexivity.
Qed.

Lemma export_json registry docs :
  RiskRegistry.export_risks_to_dict registry = Ok docs ->
  forallb RiskRegistry.json_serializable docs
  = forallb json_fields (dict_values registry).
Proof.
  unfold RiskRegistry.export_risks_to_dict.
  revert docs. induction (dict_values registry) as [|r rs IH];
    intros docs H; cbn in H.
  - now inversion H.
  - destruct (RiskRegistry.to_dict r) as [d|] eqn:Ed; cbn [bind] in H;
      [|discriminate].
    destruct (map_result _ rs) as [docs'|]; cbn [bind] in H; [|discriminate].
    inversion H; subst; clear H. cbn [forallb].
    rewrite (IH docs' eq_refl). f_equal. now apply to_dict_json.
Qed.

Lemma counts_value_json d :
  RiskRegistry.json_serializable (counts_value d) = true.
Proof.
  unfold counts_value. cbn [RiskRegistry.json_serializable].
  induction d as [|[k n] d IH]; [reflexivity|exact IH].
Qed.

Lemma issues_json issues :
  forallb RiskRegistry.json_serializable (map issue_to_dict issues) = true.
Proof. induction issues as [|i l IH]; [reflexivity|exact IH]. Qed.

Lemma notes_json notes :
  forallb RiskRegistry.json_serializable (map PStr notes) = true.
Proof. induction notes as [|n l IH]; [reflexivity|exact IH]. Qed.

(** X27.  [save_json] writes a document exactly when [build_dict] returns a
    report and the fields [to_dict] passes on as they are (title, description,
    mitigations, owner and the open metadata) hold only what JSON can carry,
    in every risk of the registry.  The document is the report of
    [build_dict].  A member of an enumeration in the metadata of a risk makes
    [json.dump] raise [TypeError], though [build_dict] and [build_markdown]
    return. *)
Theorem save_json_writes_iff_fields_are_json :
  forall self now,
    ((exists doc, save_json self now = Ok doc)
     <-> exportable self
         /\ forall registry k r,
             risk_registry self = Some registry -> In (k, r) registry ->
             json_fields r = true)
    /\ (forall doc, save_json self now = Ok doc ->
                    build_dict self now = Ok doc)
    /\ (forall e, save_json self now = Err e ->
                  e = AttributeError "value"
                  \/ e = TypeError "Object is not JSON serializable").
Proof.
  intros self now.
  assert (Hret : exportable self ->
                 exists report, build_dict self now = Ok report).
  { intros Hexp. destruct (build_dict_outcome self now) as [[_ H]|[Hnot _]];
      [exact H|contradiction]. }
  assert (Hexp : forall report, build_dict self now = Ok report ->
                                exportable self).
  { intros report H. destruct (build_dict_outcome self now) as [[He _]|[_ He]];
      [exact He|congruence]. }
  assert (Herr : forall e, build_dict self now = Err e ->
                           e = AttributeError "value").
  { intros e H.
    destruct (build_dict_outcome self now) as [[_ [report Hr]]|[_ He]];
      congruence. }
  unfold save_json.
  assert (Hjson : forall report,
             build_dict self now = Ok report ->
             (RiskRegistry.json_serializable report = true
              <-> forall registry k r,
                  risk_registry self = Some registry -> In (k, r) registry ->
                  json_fields r = true)).
  { intros report. unfold build_dict.
    destruct (risk_registry self) as [registry|].
    - destruct (RiskRegistry.get_summary registry) as [sm|]; cbn [bind];
        [|discriminate].
      destruct (RiskRegistry.export_risks_to_dict registry) as [docs|] eqn:Hex;
        cbn [bind]; [|discriminate].
      intros H. inversion H; subst; clear H.
      unfold risk_summary_value.
      cbn [RiskRegistry.json_serializable forallb snd].
      rewrite !counts_value_json, notes_json, (export_json _ _ Hex).
      assert (Hpol : RiskRegistry.json_serializable
                       match checker_issues self with
                       | Some issues =>
                           PDict [ ("summary",
                                    policy_summary_value
                                      (PolicyChecker.get_summary issues));
                                   ("issues", PList (map issue_to_dict issues)) ]
                       | None => PNone
                       end = true).
      { destruct (checker_issues self); [|reflexivity].
        cbn [RiskRegistry.json_serializable forallb snd policy_summary_value].
        now rewrite issues_json. }
      rewrite Hpol. cbn [andb]. rewrite !andb_true_r.
      rewrite forallb_forall. split.
      + intros H registry' k r Heq Hin. inversion Heq; subst registry'.
        apply H. unfold dict_values. apply in_map_iff. now exists (k, r).
      + intros H r Hin. destruct (in_dict_values _ _ Hin) as [k Hk].
        now apply (H registry k r).
    - cbn [bind]. intros H. inversion H; subst; clear H.
      cbn [RiskRegistry.json_serializable forallb snd].
      rewrite notes_json.
      assert (Hpol : RiskRegistry.json_serializable
                       match checker_issues self with
                       | Some issues =>
                           PDict [ ("summary",
                                    policy_summary_value
                                      (PolicyChecker.get_summary issues));
                                   ("issues", PList (map issue_to_dict issues)) ]
                       | None => PNone
                       end = true).
      { destruct (checker_issues self); [|reflexivity].
        cbn [RiskRegistry.json_serializable forallb snd policy_summary_value].
        now rewrite issues_json. }
      rewrite Hpol. split; [intros _ registry k r Heq; discriminate Heq|].
      reflexivity. }
  destruct (build_dict self now) as [report|e] eqn:Hb; cbn [bind].
  - specialize (Hjson report eq_refl).
    destruct (RiskRegistry.json_serializable report) eqn:Hj.
    + split; [|split].
      * split; [intros _|eauto].
        split; [now apply Hexp with report|now apply Hjson].
      * intros doc H. exact H.
      * discriminate.
    + split; [|split].
      * split; [intros [doc H]; discriminate H|].
        intros [_ Hf]. apply Hjson in Hf. discriminate Hf.
      * discriminate.
      * intros e H. inversion H. now right.
  - split; [|split].
    + split; [intros [doc H]; discriminate H|].
      intros [He _]. apply Hret in He. destruct He as [r Hr].
      discriminate Hr.
    + discriminate.
    + intros e' H. inversion H; subst. left. now apply Herr.
Qed.

Lemma save_json_writes_iff_fields_are_json_witness :
  exists doc, save_json Examples.builder "2024-01-15T10:30:00" = Ok doc.
Proof.
  apply (proj1 (save_json_writes_iff_fields_are_json
                  Examples.builder "2024-01-15T10:30:00")).
  split.
  - unfold exportable. cbn [risk_registry Examples.builder add_note
                            set_policy_checker set_risk_registry].
    intros k r [H|[H|[]]]; inversion H; subst;
      repeat split; eexists; reflexivity.
  - cbn [risk_registry Examples.builder add_note
         set_policy_checker set_risk_registry].
    intros registry k r Heq. inversion Heq; subst registry.
    intros [H|[H|[]]]; inversion H; subst; reflexivity.
Defined.

(** *** The text of a render and its two conditional sections *)

Lemma lines_of_nonempty s : lines_of s <> [].
Proof.
  destruct s as [|c s]; cbn [lines_of]; [discriminate|].
  destruct (Ascii.eqb _ _); [discriminate|].
  destruct (lines_of s); discriminate.
Qed.

Lemma lines_of_app a b :
  lines_of (a ++ b)
  = removelast (lines_of a)
      ++ (last_line a ++ first_line b)%string :: tl (lines_of b).
Proof.
  unfold last_line, first_line. induction a as [|c a IH].
  - cbn. destruct (lines_of b) eqn:E; [|reflexivity].
    now destruct (lines_of_nonempty b).
  - change (String c a ++ b)%string with (String c (a ++ b)).
    cbn [lines_of]. rewrite IH.
    destruct (lines_of a) as [|l [|r0 r]] eqn:E.
    + now destruct (lines_of_nonempty a).
    + destruct (Ascii.eqb c (ascii_of_nat 10)); reflexivity.
    + destruct (Ascii.eqb c (ascii_of_nat 10)); reflexivity.
Qed.

Lemma append_empty_r s : (s ++ "")%string = s.
Proof. induction s as [|c s IH]; [reflexivity|]. cbn. now rewrite IH. Qed.

Lemma lines_of_app_newline a b :
  lines_of (a ++ newline ++ b) = lines_of a ++ lines_of b.
Proof.
  rewrite lines_of_app. unfold first_line, last_line.
  change (lines_of (newline ++ b)) with ("" :: lines_of b).
  cbn [hd tl]. rewrite append_empty_r.
  rewrite (app_removelast_last "" (lines_of_nonempty a)) at 3.
  now rewrite <- app_assoc.
Qed.

Lemma lines_of_concat_flat lines :
  lines <> [] ->
  lines_of (String.concat newline lines) = flat_map lines_of lines.
Proof.
  induction lines as [|l lines IH]; [congruence|]. intros _.
  destruct lines as [|l' lines].
  - cbn. now rewrite app_nil_r.
  - change (String.concat newline (l :: l' :: lines))
      with (l ++ newline ++ String.concat newline (l' :: lines))%string.
    rewrite lines_of_app_newline. cbn [flat_map]. f_equal.
    apply IH. discriminate.
Qed.

(** *** Texts without a heading line *)

Lemma has_foreign_app a b :
  has_foreign (a ++ b) = has_foreign a || has_foreign b.
Proof.
  induction a as [|c a IH]; [reflexivity|].
  cbn [append has_foreign]. now rewrite IH, orb_assoc.
Qed.

Lemma has_foreign_not_heading s : has_foreign s = true -> is_heading s = false.
Proof.
  intros H. unfold is_heading.
  destruct (String.eqb_spec s "## Policy Compliance") as [->|_];
    [discriminate H|].
  destruct (String.eqb_spec s "## Additional Notes") as [->|_];
    [discriminate H|reflexivity].
Qed.

Lemma forallb_removelast {A : Type} (f : A -> bool) l :
  forallb f l = true -> forallb f (removelast l) = true.
Proof.
  induction l as [|x [|y l] IH]; [reflexivity|reflexivity|].
  intros H. change (forallb f (x :: removelast (y :: l)) = true).
  cbn [forallb] in *. apply andb_prop in H. destruct H as [Hx H].
  rewrite Hx. now apply IH.
Qed.

Lemma lines_of_first_tail s : lines_of s = first_line s :: tl (lines_of s).
Proof.
  unfold first_line. destruct (lines_of s) eqn:E; [|reflexivity].
  now destruct (lines_of_nonempty s).
Qed.

Lemma carries_single s : single_line s = true -> carries_no_heading s = true.
Proof.
  intros Hs. unfold carries_no_heading. now rewrite (lines_of_single s Hs).
Qed.

Lemma carries_app x y :
  carries_no_heading x = true -> guarded y ->
  carries_no_heading (x ++ y) = true.
Proof.
  intros Hx [Hy Hg]. unfold carries_no_heading in *. rewrite lines_of_app.
  assert (Hj : is_heading (last_line x ++ first_line y) = false).
  { apply has_foreign_not_heading. rewrite has_foreign_app, Hg.
    apply orb_true_r. }
  destruct (lines_of x) as [|l [|l' r]] eqn:E.
  - now destruct (lines_of_nonempty x).
  - exact Hy.
  - change (removelast (l :: l' :: r)) with (l :: removelast (l' :: r)).
    cbn [app tl] in *. rewrite forallb_app. cbn [forallb].
    now rewrite (forallb_removelast _ _ Hx), Hj, Hy.
Qed.

Lemma guarded_static p z :
  single_line p = true -> has_foreign p = true ->
  carries_no_heading z = true -> guarded (p ++ z).
Proof.
  intros Hs Hf Hz.
  assert (Hl : lines_of (p ++ z)
               = (p ++ first_line z)%string :: tl (lines_of z)).
  { rewrite lines_of_app. unfold last_line. now rewrite (lines_of_single p Hs). }
  unfold guarded, carries_no_heading, first_line in *. rewrite Hl.
  cbn [tl hd]. split; [exact Hz|].
  rewrite has_foreign_app, Hf. reflexivity.
Qed.

Lemma guarded_end p :
  single_line p = true -> has_foreign p = true -> guarded p.
Proof.
  intros Hs Hf. unfold guarded, first_line.
  rewrite (carries_single p Hs). now rewrite (lines_of_single p Hs).
Qed.

Lemma guarded_carries y : guarded y -> carries_no_heading y = true.
Proof. now intros [H _]. Qed.

Lemma guarded_no_heading y : guarded y -> no_heading y = true.
Proof.
  intros [Hy Hg]. unfold no_heading, carries_no_heading in *.
  rewrite (lines_of_first_tail y). cbn [forallb].
  now rewrite (has_foreign_not_heading _ Hg), Hy.
Qed.

(** Assemble the proof that a line built from fixed text and copied text
    has no heading line ([no_heading_with]), or carries none
    ([carries_with]); the tactic [atom] gives the facts about the copied
    text. *)
Ltac carries_with atom :=
  let rec carried_text :=
    first [ reflexivity
          | atom
          | apply guarded_carries; guarded_text
          | apply carries_app; [first [reflexivity|atom]|guarded_text] ]
  with guarded_text :=
    first [ apply guarded_static; [reflexivity|reflexivity|carried_text]
          | apply guarded_end; reflexivity ]
  in carried_text.

Ltac no_heading_with atom :=
  first [ reflexivity
        | apply guarded_no_heading;
          first [ apply guarded_static;
                  [reflexivity|reflexivity|carries_with atom]
                | apply guarded_end; reflexivity ] ].

Lemma single_line_string_of_uint d :
  single_line (NilEmpty.string_of_uint d) = true.
Proof. induction d; cbn; auto. Qed.

Lemma carries_str_of_nat n : carries_no_heading (str_of_nat n) = true.
Proof. apply carries_single, single_line_string_of_uint. Qed.

Lemma carries_enum_value v s :
  RiskRegistry.enum_value v = Ok s -> carries_no_heading s = true.
Proof.
  destruct v as [ |b|z|f|s0|l|d|c|c|c|c]; try discriminate;
    destruct c; intros H; inversion H; reflexivity.
Qed.

Lemma carries_title_key k :
  enum_valued k ->
  carries_no_heading (title k) = true
  /\ carries_no_heading (title (UncertaintyTags.replace k "_" " ")) = true.
Proof.
  intros [v H].
  destruct v as [ |b|z|f|s0|l|d|c|c|c|c]; try discriminate;
    destruct c; inversion H; split; reflexivity.
Qed.

Lemma dict_set_keys_Forall {V : Type} (P : string -> Prop)
      (d : list (string * V)) k v :
  P k -> Forall P (dict_keys d) -> Forall P (dict_keys (dict_set d k v)).
Proof.
  intros Hk. unfold dict_keys.
  induction d as [|[k0 v0] d IH]; cbn [dict_set map fst]; intros H.
  - now constructor.
  - inversion H as [|? ? H0 Hd]; subst.
    destruct (String.eqb k k0); cbn [map fst]; constructor; auto.
Qed.

Lemma count_risks_keys P rs a b c a' b' c' :
  (forall v s, RiskRegistry.enum_value v = Ok s -> P s) ->
  RiskRegistry.count_risks rs a b c = Ok (a', b', c') ->
  Forall P (dict_keys a) -> Forall P (dict_keys b) -> Forall P (dict_keys c) ->
  Forall P (dict_keys a') /\ Forall P (dict_keys b') /\ Forall P (dict_keys c').
Proof.
  intros HP. revert a b c.
  induction rs as [|r rs IH]; intros a b c H Ha Hb Hc;
    cbn [RiskRegistry.count_risks] in H.
  - inversion H; subst. auto.
  - destruct (RiskRegistry.enum_value (RiskRegistry.severity r)) as [sev|] eqn:Es;
      cbn [bind] in H; [|discriminate].
    destruct (RiskRegistry.enum_value (RiskRegistry.status r)) as [sta|] eqn:Et;
      cbn [bind] in H; [|discriminate].
    destruct (RiskRegistry.enum_value (RiskRegistry.category r)) as [cat|] eqn:Ec;
      cbn [bind] in H; [|discriminate].
    apply (IH _ _ _ H); unfold RiskRegistry.count_up;
      apply dict_set_keys_Forall; eauto.
Qed.

Lemma summary_keys registry sm :
  RiskRegistry.get_summary registry = Ok sm ->
  Forall enum_valued (dict_keys (RiskRegistry.by_severity sm))
  /\ Forall enum_valued (dict_keys (RiskRegistry.by_category sm)).
Proof.
  unfold RiskRegistry.get_summary.
  destruct (RiskRegistry.count_risks _ [] [] []) as [[[a b] c]|] eqn:E;
    cbn [bind]; [|discriminate].
  intros H. inversion H; subst; clear H.
  destruct (count_risks_keys enum_valued _ _ _ _ _ _ _
              (fun v s Hv => ex_intro _ v Hv) E)
    as (Ha & _ & Hc); try apply Forall_nil.
  split; assumption.
Qed.

Ltac basic_atom :=
  first [ assumption
        | apply carries_str_of_nat
        | match goal with
          | |- carries_no_heading (if ?b then _ else _) = true =>
              destruct b; reflexivity
          end ].

Ltac quiet_lines atom :=
  repeat first
    [ apply Forall_app; split
    | apply Forall_nil
    | apply Forall_cons; [no_heading_with atom|]
    | assumption ].

Ltac carried_lines atom :=
  repeat first
    [ apply Forall_app; split
    | apply Forall_nil
    | apply Forall_cons; [carries_with atom|]
    | assumption ].

Lemma bulleted_no_heading recs :
  Forall (fun rec => carries_no_heading rec = true) recs ->
  Forall (fun line => no_heading line = true)
         (map (fun rec => ("- " ++ rec)%string) recs).
Proof.
  intros H. apply Forall_forall. intros line Hin.
  apply in_map_iff in Hin. destruct Hin as (rec & <- & Hin).
  apply guarded_no_heading, guarded_static; [reflexivity|reflexivity|].
  rewrite Forall_forall in H. now apply H.
Qed.

Lemma ok_inv {A : Type} (P : A -> Prop) (e x : A) :
  P e -> Ok e = Ok x -> P x.
Proof. intros H [= <-]. exact H. Qed.

Lemma executive_summary_no_heading self lines :
  _build_executive_summary self = Ok lines ->
  Forall (fun line => no_heading line = true) lines.
Proof.
  unfold _build_executive_summary.
  destruct (risk_registry self) as [registry|].
  - destruct (RiskRegistry.get_summary registry); cbn [bind]; [|discriminate].
    apply (ok_inv (Forall (fun line => no_heading line = true))).
    destruct (checker_issues self); quiet_lines basic_atom.
  - cbn [bind]. apply (ok_inv (Forall (fun line => no_heading line = true))).
    destruct (checker_issues self); quiet_lines basic_atom.
Qed.

Lemma Forall_or_default {A : Type} (Q : A -> Prop) (xs default : list A) :
  Forall Q xs -> Forall Q default ->
  Forall Q match xs with [] => default | _ :: _ => xs end.
Proof. now destruct xs. Qed.

Ltac split_conditions :=
  repeat match goal with
         | |- context [if ?b then _ else _] =>
             match type of b with bool => destruct b end
         end.

Lemma recommendations_no_heading self lines :
  _build_recommendations self = Ok lines ->
  Forall (fun line => no_heading line = true) lines.
Proof.
  unfold _build_recommendations.
  destruct (risk_registry self) as [registry|].
  - destruct (RiskRegistry.get_summary registry); cbn [bind]; [|discriminate].
    destruct (filter_result _ _) as [identified|]; cbn [bind]; [|discriminate].
    apply (ok_inv (Forall (fun line => no_heading line = true))).
    apply bulleted_no_heading.
    apply Forall_or_default; [|carried_lines basic_atom].
    destruct (checker_issues self); split_conditions;
      destruct identified; carried_lines basic_atom.
  - cbn [bind].
    apply (ok_inv (Forall (fun line => no_heading line = true))).
    apply bulleted_no_heading.
    apply Forall_or_default; [|carried_lines basic_atom].
    destruct (checker_issues self); split_conditions;
      carried_lines basic_atom.
Qed.

Lemma map_result_Forall_in {A B : Type} (f : A -> result B) (P : B -> Prop)
      xs ys :
  (forall x y, In x xs -> f x = Ok y -> P y) ->
  map_result f xs = Ok ys -> Forall P ys.
Proof.
  revert ys. induction xs as [|x xs IH]; intros ys Hf; simpl.
  - intros [= <-]. constructor.
  - destruct (f x) as [y|e] eqn:E; cbn [bind]; [|discriminate].
    destruct (map_result f xs) as [ys'|e]; cbn [bind]; [|discriminate].
    intros [= <-]. constructor.
    + apply (Hf x); [now left|exact E].
    + apply IH; [|reflexivity]. intros x' y' Hin. apply Hf. now right.
Qed.

Section RenderText.
Variable format_value : pyval -> string.
Variable self : TrustReportBuilder.
Variable now : string.
Hypothesis Hfree : heading_free format_value self now = true.

Lemma free_text_carries x :
  In x (free_text format_value self now) -> carries_no_heading x = true.
Proof.
  revert x. apply forallb_forall. exact Hfree.
Qed.

Lemma header_carries :
  carries_no_heading (system_name self) = true
  /\ carries_no_heading (system_version self) = true
  /\ carries_no_heading now = true.
Proof.
  repeat split; apply free_text_carries; unfold free_text.
  - now left.
  - right. now left.
  - do 2 right. now left.
Qed.

Lemma note_carries note :
  In note (manual_notes self) -> carries_no_heading note = true.
Proof.
  intros Hin. apply free_text_carries. unfold free_text.
  apply in_or_app. right. apply in_or_app. now left.
Qed.

Lemma issue_carries issues issue :
  checker_issues self = Some issues ->
  In issue (PolicyChecker.issues_of "error" issues
              ++ PolicyChecker.issues_of "warning" issues) ->
  carries_no_heading (PolicyChecker.section issue) = true
  /\ carries_no_heading (PolicyChecker.message issue) = true.
Proof.
  intros Hc Hin.
  split; apply free_text_carries; unfold free_text; rewrite Hc;
    apply in_or_app; right; apply in_or_app; right; apply in_or_app; left;
    apply in_flat_map; exists issue; (split; [exact Hin|cbn; auto]).
Qed.

Lemma risk_carries registry r :
  risk_registry self = Some registry ->
  In r (filter high_priority (dict_values registry)) ->
  carries_no_heading (RiskRegistry.id r) = true
  /\ carries_no_heading (py_str format_value (RiskRegistry.title r)) = true
  /\ carries_no_heading
       (py_str format_value
               (py_or (RiskRegistry.owner r) (PStr "Unassigned")))
     = true.
Proof.
  intros Hr Hin.
  repeat split; apply free_text_carries; unfold free_text; rewrite Hr;
    apply in_or_app; right; apply in_or_app; right; apply in_or_app; right;
    apply in_flat_map; exists r; (split; [exact Hin|cbn; auto]).
Qed.

Lemma risk_row_no_heading registry r row :
  risk_registry self = Some registry ->
  In r (filter high_priority (dict_values registry)) ->
  risk_row format_value r = Ok row -> no_heading row = true.
Proof.
  intros Hr Hin. destruct (risk_carries registry r Hr Hin) as (Hi & Ht & Ho).
  unfold risk_row.
  destruct (RiskRegistry.enum_value (RiskRegistry.severity r)) as [sev|] eqn:Es;
    cbn [bind]; [|discriminate].
  destruct (RiskRegistry.enum_value (RiskRegistry.status r)) as [sta|] eqn:Et;
    cbn [bind]; [|discriminate].
  apply carries_enum_value in Es, Et.
  apply (ok_inv (fun row => no_heading row = true)).
  no_heading_with basic_atom.
Qed.

Lemma summary_lines_no_heading (sm : RiskRegistry.summary) :
  Forall enum_valued (dict_keys (RiskRegistry.by_severity sm)) ->
  Forall enum_valued (dict_keys (RiskRegistry.by_category sm)) ->
  Forall (fun line => no_heading line = true)
         ([ "### Risk Summary"; "";
            ("Total Risks: " ++ str_of_nat (RiskRegistry.total sm))%string;
            ""; "**By Severity:**" ]
            ++ map (fun '(severity, count) =>
                      ("- " ++ title severity ++ ": "
                         ++ str_of_nat count)%string)
                   (RiskRegistry.by_severity sm)
            ++ [ ""; "**By Category:**" ]
            ++ map (fun '(category, count) =>
                      ("- " ++ title (UncertaintyTags.replace category "_" " ")
                         ++ ": " ++ str_of_nat count)%string)
                   (RiskRegistry.by_category sm)
            ++ [ "" ]).
Proof.
  intros Hsev Hcat. rewrite Forall_forall in Hsev, Hcat.
  assert (Hkey : forall (d : list (string * nat)) k n,
             In (k, n) d -> In k (dict_keys d)).
  { intros d k n Hin. unfold dict_keys. now apply (in_map fst) in Hin. }
  repeat first
    [ apply Forall_app; split
    | apply Forall_nil
    | apply Forall_cons; [no_heading_with basic_atom|] ].
  - apply Forall_forall. intros line Hin. apply in_map_iff in Hin.
    destruct Hin as ([k n] & <- & Hin).
    destruct (carries_title_key k (Hsev k (Hkey _ _ _ Hin))) as [Ht _].
    no_heading_with basic_atom.
  - apply Forall_forall. intros line Hin. apply in_map_iff in Hin.
    destruct Hin as ([k n] & <- & Hin).
    destruct (carries_title_key k (Hcat k (Hkey _ _ _ Hin))) as [_ Ht].
    no_heading_with basic_atom.
Qed.

Lemma risk_section_no_heading lines :
  _build_risk_section format_value self = Ok lines ->
  Forall (fun line => no_heading line = true) lines.
Proof.
  unfold _build_risk_section.
  destruct (risk_registry self) as [registry|] eqn:Hreg.
  2:{ intros [= <-]. constructor. }
  destruct (RiskRegistry.get_summary registry) as [sm|] eqn:Hsm; cbn [bind];
    [|discriminate].
  destruct (summary_keys _ _ Hsm) as [Hsev Hcat].
  pose proof (summary_lines_no_heading sm Hsev Hcat) as Hsum.
  destruct (filter_result _ _) as [high|] eqn:Hhigh; cbn [bind];
    [|discriminate].
  assert (Hfilter : high = filter high_priority (dict_values registry)).
  { apply filter_result_filter in Hhigh. rewrite Hhigh.
    apply filter_ext. intros r. unfold high_priority.
    now destruct (RiskRegistry.enum_value (RiskRegistry.severity r)). }
  destruct high as [|r0 high]; [now apply ok_inv|].
  destruct (sorted_by_severity_id (r0 :: high)) as [ordered|] eqn:Hsort;
    cbn [bind]; [|discriminate].
  destruct (map_result (risk_row format_value) ordered) as [rows|] eqn:Hrows;
    cbn [bind]; [|discriminate].
  apply (ok_inv (Forall (fun line => no_heading line = true))).
  assert (Hq : Forall (fun line => no_heading line = true) rows).
  { apply (map_result_Forall_in _ _ _ _ (fun r row Hin => risk_row_no_heading
             registry r row Hreg
             ltac:(rewrite <- Hfilter;
                   exact (sorted_by_severity_id_subset _ _ Hsort r Hin)))
             Hrows). }
  apply Forall_app. split; [exact Hsum|].
  quiet_lines basic_atom.
Qed.

Lemma policy_section_no_heading :
  Forall (fun line => no_heading line = true) (_build_policy_section self).
Proof.
  unfold _build_policy_section.
  destruct (checker_issues self) as [issues|] eqn:Hc;
    [|quiet_lines basic_atom].
  assert (Hbullets : forall sev,
             sev = "error" \/ sev = "warning" ->
             Forall (fun line => no_heading line = true)
                    (map issue_line (PolicyChecker.issues_of sev issues))).
  { intros sev Hsev. apply Forall_forall. intros line Hin.
    apply in_map_iff in Hin. destruct Hin as (issue & <- & Hin).
    destruct (issue_carries issues issue Hc) as [Hs Hm].
    { apply in_or_app. destruct Hsev as [-> | ->]; [now left|now right]. }
    unfold issue_line. no_heading_with basic_atom. }
  pose proof (Hbullets "error" (or_introl eq_refl)) as He.
  pose proof (Hbullets "warning" (or_intror eq_refl)) as Hw.
  destruct (PolicyChecker.issues_of "error" issues);
    destruct (PolicyChecker.issues_of "warning" issues);
    quiet_lines basic_atom.
Qed.

Lemma notes_no_heading :
  Forall (fun line => no_heading line = true)
         (map (fun note => ("- " ++ note)%string) (manual_notes self)).
Proof.
  apply bulleted_no_heading. apply Forall_forall. exact note_carries.
Qed.

End RenderText.

Lemma no_heading_lines ls :
  Forall (fun line => no_heading line = true) ls ->
  Forall (fun line => is_heading line = false) (flat_map lines_of ls).
Proof.
  intros H. apply Forall_forall. intros line Hin.
  apply in_flat_map in Hin. destruct Hin as (l & Hl & Hin).
  rewrite Forall_forall in H. specialize (H l Hl).
  unfold no_heading in H. rewrite forallb_forall in H.
  apply negb_true_iff. now apply H.
Qed.

Lemma not_heading_in heading ls :
  is_heading heading = true ->
  Forall (fun line => is_heading line = false) ls -> ~ In heading ls.
Proof.
  intros Hh H Hin. rewrite Forall_forall in H. specialize (H _ Hin).
  congruence.
Qed.

Section RenderBlocks.
Variable format_value : pyval -> string.

(** The lines of a render: what precedes the two conditional blocks, the
    blocks, what follows them; no line of the text before and after is one
    of the two headings. *)
Lemma build_markdown_lines_blocks self now lines :
  heading_free format_value self now = true ->
  build_markdown_lines format_value self now = Ok lines ->
  exists before after,
    lines = before ++ policy_block self ++ notes_block self ++ after
    /\ before <> []
    /\ Forall (fun line => no_heading line = true) before
    /\ Forall (fun line => no_heading line = true) after.
Proof.
  intros Hfree. unfold build_markdown_lines.
  destruct (header_carries format_value self now Hfree)
    as (Hname & Hver & Hnow).
  destruct (_build_executive_summary self) as [sl|] eqn:Es; cbn [bind];
    [|discriminate].
  apply executive_summary_no_heading in Es.
  destruct (_build_recommendations self) as [recl|] eqn:Er.
  2:{ destruct (risk_registry self);
        [destruct (_build_risk_section format_value self)|];
        cbn [bind]; discriminate. }
  apply recommendations_no_heading in Er.
  destruct (risk_registry self) as [registry|] eqn:Ereg.
  - destruct (_build_risk_section format_value self) as [rl|] eqn:Erl;
      cbn [bind]; [|discriminate].
    apply (risk_section_no_heading format_value self now Hfree) in Erl.
    intros [= <-].
    eexists
      (([("# Trust Report: " ++ system_name self)%string;
         ("**Version**: " ++ system_version self)%string;
         ("**Generated**: " ++ now)%string; ""; "---"; ""]
        ++ ["## Executive Summary"; ""] ++ sl ++ [""])
       ++ ["## Risk Assessment"; ""] ++ rl ++ [""]),
      (["## Recommendations"; ""] ++ recl ++ [""]
       ++ ["---"; "";
           "*This report was generated automatically by TrustByDesign toolkit.*"]).
    split; [|split; [discriminate|split]].
    + unfold policy_block, notes_block.
      destruct (checker_issues self); destruct (manual_notes self);
        repeat first [rewrite <- app_assoc | progress cbn [app]]; reflexivity.
    + quiet_lines basic_atom.
    + quiet_lines basic_atom.
  - cbn [bind]. intros [= <-].
    eexists
      ([("# Trust Report: " ++ system_name self)%string;
        ("**Version**: " ++ system_version self)%string;
        ("**Generated**: " ++ now)%string; ""; "---"; ""]
       ++ ["## Executive Summary"; ""] ++ sl ++ [""]),
      (["## Recommendations"; ""] ++ recl ++ [""]
       ++ ["---"; "";
           "*This report was generated automatically by TrustByDesign toolkit.*"]).
    split; [|split; [discriminate|split]].
    + unfold policy_block, notes_block.
      destruct (checker_issues self); destruct (manual_notes self);
        repeat first [rewrite <- app_assoc | progress cbn [app]]; reflexivity.
    + quiet_lines basic_atom.
    + quiet_lines basic_atom.
Qed.

(** The lines the policy block contributes to the text. *)
Lemma policy_block_lines self now issues :
  heading_free format_value self now = true ->
  checker_issues self = Some issues ->
  exists status details,
    flat_map lines_of (policy_block self)
    = "## Policy Compliance" :: "" :: ("**Status**: " ++ status)%string :: ""
        :: details ++ [""]
    /\ Forall (fun line => is_heading line = false) details
    /\ forall issue,
        In issue issues ->
        In (PolicyChecker.severity issue) ["error"; "warning"] ->
        incl (lines_of (issue_line issue)) details.
Proof.
  intros Hfree Hc.
  pose proof (policy_section_no_heading format_value self now Hfree) as Hq.
  unfold policy_block. unfold _build_policy_section in *. rewrite Hc in *.
  set (errors := PolicyChecker.issues_of "error" issues) in *.
  set (warnings := PolicyChecker.issues_of "warning" issues) in *.
  set (error_lines := match errors with
                      | [] => []
                      | _ :: _ => ["### Errors"; ""] ++ map issue_line errors ++ [""]
                      end) in *.
  set (warning_lines := match warnings with
                        | [] => []
                        | _ :: _ => ["### Warnings"; ""] ++ map issue_line warnings ++ [""]
                        end) in *.
  eexists (if negb (PolicyChecker.passed (PolicyChecker.get_summary issues))
           then _ else _),
          (flat_map lines_of (error_lines ++ warning_lines)).
  split; [|split].
  - cbn [app flat_map]. rewrite flat_map_app.
    destruct (negb _); reflexivity.
  - apply no_heading_lines.
    apply Forall_app in Hq. destruct Hq as [_ Hq]. exact Hq.
  - intros issue Hin Hsev line Hline.
    apply in_flat_map. exists (issue_line issue). split; [|exact Hline].
    apply in_or_app.
    destruct Hsev as [Hsev|[Hsev|[]]]; [left|right].
    + assert (Hi : In issue errors).
      { apply filter_In. split; [exact Hin|]. rewrite <- Hsev.
        apply String.eqb_refl. }
      subst error_lines. destruct errors as [|e errors']; [contradiction|].
      apply in_or_app. right. apply in_or_app. left. now apply in_map.
    + assert (Hi : In issue warnings).
      { apply filter_In. split; [exact Hin|]. rewrite <- Hsev.
        apply String.eqb_refl. }
      subst warning_lines. destruct warnings as [|e warnings']; [contradiction|].
      apply in_or_app. right. apply in_or_app. left. now apply in_map.
Qed.

Lemma notes_block_lines self now :
  heading_free format_value self now = true ->
  manual_notes self <> [] ->
  flat_map lines_of (notes_block self)
  = "## Additional Notes" :: ""
      :: flat_map (fun note => lines_of ("- " ++ note)) (manual_notes self)
      ++ [""]
    /\ Forall (fun line => is_heading line = false)
              (flat_map (fun note => lines_of ("- " ++ note))
                        (manual_notes self)).
Proof.
  intros Hfree Hne.
  pose proof (notes_no_heading format_value self now Hfree) as Hq.
  apply no_heading_lines in Hq.
  assert (Hmap : forall notes,
             flat_map lines_of (map (fun note => ("- " ++ note)%string) notes)
             = flat_map (fun note => lines_of ("- " ++ note)) notes).
  { induction notes as [|n notes IH]; [reflexivity|].
    cbn [map flat_map]. now rewrite IH. }
  rewrite Hmap in Hq. split; [|exact Hq].
  unfold notes_block. destruct (manual_notes self) as [|n notes] eqn:E;
    [congruence|].
  cbn [app flat_map]. rewrite flat_map_app, Hmap. reflexivity.
Qed.

End RenderBlocks.




End ReportBuilderProps.

(** ** The text of the uncertainty report *)

Module UncertaintyReportProps.
Import UncertaintyTags UncertaintyTagsProps.
Import ReportBuilder ReportBuilderProps.

Lemma single_line_app a b :
  single_line (a ++ b) = single_line a && single_line b.
Proof.
  induction a as [|c a IH]; [reflexivity|].
  cbn [append single_line]. now rewrite IH, andb_assoc.
Qed.

Lemma single_line_drop n s : single_line s = true -> single_line (drop n s) = true.
Proof.
  revert s. induction n as [|n IH]; intros [|c s]; cbn; auto.
  intros H. apply andb_prop in H. now apply IH.
Qed.

Lemma single_line_run s :
  single_line s = true -> single_line (run_before_bracket s) = true.
Proof.
  induction s as [|c s IH]; [reflexivity|]. cbn [run_before_bracket single_line].
  intros H. apply andb_prop in H. destruct H as [Hc Hs].
  destruct (Ascii.eqb c "["); [reflexivity|].
  cbn [single_line]. now rewrite Hc, IH.
Qed.

Lemma single_line_lstrip s :
  single_line s = true -> single_line (lstrip s) = true.
Proof.
  induction s as [|c s IH]; [reflexivity|]. cbn [lstrip].
  intros H. destruct (isspace c); [|exact H].
  cbn [single_line] in H. apply andb_prop in H. now apply IH.
Qed.

Lemma single_line_rstrip s :
  single_line s = true -> single_line (rstrip s) = true.
Proof.
  induction s as [|c s IH]; [reflexivity|]. cbn [rstrip single_line].
  intros H. apply andb_prop in H. destruct H as [Hc Hs].
  specialize (IH Hs). destruct (rstrip s) as [|c' r].
  - destruct (isspace c); [reflexivity|]. cbn [single_line]. now rewrite Hc.
  - cbn [single_line] in *. now rewrite Hc, IH.
Qed.

Lemma single_line_last_char s :
  single_line s = true -> single_line (last_char s) = true.
Proof.
  induction s as [|c s IH]; [reflexivity|].
  intros H. cbn [last_char]. destruct s as [|c' s]; [exact H|].
  cbn [single_line] in H. apply andb_prop in H. now apply IH.
Qed.

Lemma single_line_group run :
  single_line run = true -> single_line (group_content run) = true.
Proof.
  intros H. unfold group_content.
  pose proof (single_line_lstrip run H) as Hl.
  destruct (lstrip run); [now apply single_line_last_char|exact Hl].
Qed.

Lemma match_at_single_line s tag content len :
  single_line s = true -> match_at s = Some (tag, content, len) ->
  single_line content = true.
Proof.
  intros Hs. unfold match_at.
  destruct (find _ ALL_TAGS) as [t|]; [|discriminate].
  pose proof (single_line_run _ (single_line_drop (String.length t) s Hs))
    as Hrun.
  destruct (run_before_bracket _) as [|c run]; [discriminate|].
  intros [= <- <- <-]. now apply single_line_group.
Qed.

Lemma match_at_known_tag s tag content len :
  match_at s = Some (tag, content, len) -> In tag ALL_TAGS.
Proof.
  unfold match_at. destruct (find _ ALL_TAGS) as [t|] eqn:E; [|discriminate].
  destruct (run_before_bracket _); [discriminate|].
  intros [= <- <- <-]. now apply find_some in E.
Qed.

Lemma findall_from_single_line skip s :
  single_line s = true ->
  Forall (fun '(tag, content) =>
            In tag ALL_TAGS /\ single_line content = true)
         (findall_from skip s).
Proof.
  revert skip. induction s as [|c s IH]; intros skip Hs; [constructor|].
  assert (Hs' : single_line s = true).
  { cbn [single_line] in Hs. now apply andb_prop in Hs. }
  cbn [findall_from]. destruct skip as [|k]; [|now apply IH].
  destruct (match_at (String c s)) as [[[tag content] len]|] eqn:E;
    [|now apply IH].
  constructor; [|now apply IH]. split.
  - now apply match_at_known_tag in E.
  - now apply (match_at_single_line _ _ _ _ Hs E).
Qed.

Lemma single_line_tag tag : In tag ALL_TAGS -> single_line tag = true.
Proof. intros [<-|[<-|[<-|[<-|[<-|[]]]]]]; reflexivity. Qed.

Lemma single_line_str_of_count n : single_line (str_of_count n) = true.
Proof. apply single_line_string_of_uint. Qed.

Lemma count_lines_single_line text :
  Forall (fun line => single_line line = true) (count_lines (count_tags text)).
Proof.
  rewrite count_tags_table. unfold count_lines. apply Forall_forall.
  intros line Hin. apply in_flat_map in Hin.
  destruct Hin as ([tag n] & Hin & Hline).
  apply in_map_iff in Hin. destruct Hin as (t & [= <- <-] & Ht).
  destruct (Nat.ltb 0 (count text t)); [|contradiction].
  destruct Hline as [<-|[]].
  rewrite !single_line_app, (single_line_tag t Ht), single_line_str_of_count.
  reflexivity.
Qed.

Lemma times_single_line s n :
  single_line s = true -> single_line (times s n) = true.
Proof.
  intros H. induction n as [|n IH]; [reflexivity|].
  cbn [times]. now rewrite single_line_app, H, IH.
Qed.

Lemma listing_lines found :
  Forall (fun '(tag, content) =>
            In tag ALL_TAGS /\ single_line content = true) found ->
  flat_map lines_of
           (map (fun '(tag, content) => (tag ++ " " ++ strip content)%string)
                found)
  = map (fun '(tag, content) => (tag ++ " " ++ strip content)%string) found.
Proof.
  induction 1 as [|[tag content] found [Htag Hc] _ IH]; [reflexivity|].
  cbn [map flat_map]. rewrite IH. rewrite lines_of_single; [reflexivity|].
  rewrite !single_line_app, (single_line_tag tag Htag).
  unfold strip.
  now rewrite (single_line_rstrip _ (single_line_lstrip _ Hc)).
Qed.

(** X21.  [uncertainty_report] never raises.  The lines of the text it
    returns are the title, a rule, the total of the tag counts and a blank
    line; at most five count lines, none exactly when the text is untagged;
    a blank line, the heading of the listing and a rule; then the lines of
    one item per item of [detect_tags], never more items than the total
    says.  On a text without a line break every item is one line, so the
    listing has no more lines than the total; an item whose content has a
    line break takes several lines.  On an untagged text the report is the
    same seven lines whatever the text. *)
Theorem uncertainty_report_lists_within_total :
  forall text,
    exists report counted items,
      uncertainty_report text = Ok report
      /\ lines_of report
         = [ "Uncertainty Report"; times "=" 40;
             ("Total tagged statements: "
                ++ str_of_count (total_tags text))%string; "" ]
             ++ counted
             ++ [ ""; "Tagged Content:"; times "-" 40 ]
             ++ flat_map lines_of items
      /\ length counted <= 5
      /\ (counted = [] <-> is_tagged text = false)
      /\ length items = length (detect_tags text)
      /\ length items <= total_tags text
      /\ (single_line text = true -> flat_map lines_of items = items)
      /\ (is_tagged text = false ->
          report
          = String.concat newline
              [ "Uncertainty Report"; times "=" 40;
                "Total tagged statements: 0"; ""; "";
                "Tagged Content:"; times "-" 40 ]).
Proof.
  intros text.
  pose proof (item_lines_total (findall text)) as Hitems.
  fold (detect_tags text) in Hitems.
  pose proof (count_lines_table text) as [Hlen Hnil].
  assert (Hbound : length (detect_tags text) <= total_tags text).
  { unfold detect_tags, findall, total_tags. rewrite length_map.
    eapply Nat.le_trans; [apply findall_from_bound|].
    rewrite count_tags_table, map_map. cbn [snd].
    unfold ALL_TAGS. cbn [map].
    rewrite !count_occurrences by (simpl; tauto). apply Nat.le_refl. }
  set (items := map (fun '(tag, content) =>
                       (tag ++ " " ++ strip content)%string)
                    (findall text)) in *.
  assert (Hlines : uncertainty_report_lines text
                   = Ok ([ "Uncertainty Report"; times "=" 40;
                           ("Total tagged statements: "
                              ++ str_of_count (total_tags text))%string; "" ]
                           ++ count_lines (count_tags text)
                           ++ [ ""; "Tagged Content:"; times "-" 40 ]
                           ++ items)).
  { unfold uncertainty_report_lines. rewrite Hitems. cbn [bind].
    unfold total_tags. now rewrite <- !app_assoc. }
  assert (Hsame : length items = length (detect_tags text)).
  { unfold items, detect_tags. now rewrite !length_map. }
  eexists. exists (count_lines (count_tags text)), items.
  split.
  { unfold uncertainty_report. rewrite Hlines. cbn [bind]. reflexivity. }
  split.
  { change (String (ascii_of_nat 10) EmptyString) with newline.
    rewrite lines_of_concat_flat by discriminate.
    rewrite !flat_map_app.
    assert (Hsingle : forall ls,
               Forall (fun line => single_line line = true) ls ->
               flat_map lines_of ls = ls).
    { induction 1 as [|l ls Hl _ IH]; [reflexivity|].
      cbn [flat_map]. now rewrite (lines_of_single l Hl), IH. }
    rewrite (Hsingle (count_lines (count_tags text)))
      by apply count_lines_single_line.
    rewrite (Hsingle [ "Uncertainty Report"; times "=" 40;
                       ("Total tagged statements: "
                          ++ str_of_count (total_tags text))%string; "" ]).
    2:{ repeat constructor.
        now rewrite single_line_app, single_line_str_of_count. }
    rewrite (Hsingle [ ""; "Tagged Content:"; times "-" 40 ])
      by (repeat constructor).
    reflexivity. }
  split; [exact Hlen|].
  split; [now rewrite Hnil, untagged_counts_zero|].
  split; [exact Hsame|]. split; [now rewrite Hsame|].
  split.
  - intros Hs.
    apply listing_lines. exact (findall_from_single_line 0 text Hs).
  - intros Hfree.
    assert (Hzero : total_tags text = 0).
    { apply total_tags_zero. now apply untagged_counts_zero. }
    assert (Hcounted : count_lines (count_tags text) = []).
    { apply Hnil. now apply untagged_counts_zero. }
    assert (Hnone : findall text = []).
    { rewrite Hzero in Hbound. unfold detect_tags in Hbound.
      rewrite length_map in Hbound.
      destruct (findall text); [reflexivity|inversion Hbound]. }
    unfold items. rewrite Hzero, Hcounted, Hnone. reflexivity.
Qed.

End UncertaintyReportProps.
